(** * Drop-Box: chunked, replicated file storage

    A shallow embedding of [distributed_storage.py]: the [FilePartitioner],
    the [StorageNode] request handlers and the [DistributedStorageClient]
    coordinator, together with the properties of the chunk distribution and
    retrieval protocol.

    Conventions.
    - Python [int] is [Z]; [bytes] is [list byte]; [str] is [string].
    - A Python [dict] is an association list in insertion order ([dict]).
    - Exceptions are values [Exn cls msg]; code that can raise lives in the
      state-and-exception monad [M].
    - The operating system is not part of the program.  The file system is a
      finite map from paths to contents plus a set of directories; every
      primitive consults an oracle ([faults]) that may make it fail with an
      [OSError], so that every statement quantified over oracles covers any
      failure behaviour of the disk.
    - [hashlib.sha256(..).hexdigest()] is left abstract (class [Sha256]);
      so are the network and the nodes behind it when the client is
      studied on its own (class [Network]).
    - When the client is studied against running nodes, a connection is
      the two receive loops of the program over a byte stream of which
      only lengths are kept (class [Transport]): the length of a pickle
      and the number of bytes each [recv] finds are parameters. *)

From Stdlib Require Import ZArith String Ascii Strings.Byte List.
From stdpp Require Import gmap strings list fin_maps pretty sorting.
From Equations Require Import Equations.
From Equations.Prop Require Import Logic.

Set Warnings "-clear-no-such-hyp".

Open Scope Z_scope.

(* ===================================================================== *)
(** ** Python values and control effects *)
(* ===================================================================== *)

Definition bytes := list byte.

Definition bytes_of (s : string) : bytes := list_byte_of_string s.

(** A raised exception: its class name and [str(e)]. *)
Inductive exn := Exn (cls : string) (msg : string).

Definition exn_cls (e : exn) : string := let 'Exn c _ := e in c.
Definition str (e : exn) : string := let 'Exn _ m := e in m.

Inductive result (A : Type) :=
| Ok (a : A)
| Raise (e : exn).
Arguments Ok {A} _.
Arguments Raise {A} _.

(** Computations over a mutable state [S] that may raise.  The state
    survives an exception, as the heap and the disk do in Python. *)
Definition M (S A : Type) : Type := S -> result A * S.

Definition ret {S A} (a : A) : M S A := fun s => (Ok a, s).

Definition bind {S A B} (m : M S A) (k : A -> M S B) : M S B :=
  fun s => match m s with
           | (Ok a, s') => k a s'
           | (Raise e, s') => (Raise e, s')
           end.

Definition raise {S A} (e : exn) : M S A := fun s => (Raise e, s).

(** A value or an exception that was computed without the state. *)
Definition of_result {S A} (r : result A) : M S A := fun s => (r, s).

Definition get {S} : M S S := fun s => (Ok s, s).

Definition modify {S} (f : S -> S) : M S unit := fun s => (Ok tt, f s).

(** [try: m  except Exception as e: h e]. *)
Definition try_except {S A} (m : M S A) (h : exn -> M S A) : M S A :=
  fun s => match m s with
           | (Ok a, s') => (Ok a, s')
           | (Raise e, s') => h e s'
           end.

(** Run a computation on a component of the state. *)
Definition zoom {S T A} (proj : S -> T) (upd : T -> S -> S) (m : M T A) : M S A :=
  fun s => let (r, t') := m (proj s) in (r, upd t' s).

(** The monad operations in stdpp's notation: [x ← m; k] and [m;; k]. *)
#[global] Instance M_ret {S} : MRet (M S) := fun A a => ret a.
#[global] Instance M_bind {S} : MBind (M S) := fun A B k m => bind m k.

(** [for x in xs: body x]. *)
Fixpoint for_each {S A} (xs : list A) (body : A -> M S unit) : M S unit :=
  match xs with
  | [] => ret tt
  | x :: xs' => body x;; for_each xs' body
  end.

(** A list comprehension whose element expression may raise. *)
Fixpoint comprehension {S A B} (f : A -> M S B) (xs : list A) : M S (list B) :=
  match xs with
  | [] => ret []
  | x :: xs' => y ← f x; ys ← comprehension f xs'; ret (y :: ys)
  end.

(* ===================================================================== *)
(** ** Python dictionaries: association lists in insertion order *)
(* ===================================================================== *)

Section Dict.
Context {K V : Type} `{EqDecision K}.

Definition dict := list (K * V).

(** [d[k]] / [k in d]. *)
Fixpoint dict_get (k : K) (d : dict) : option V :=
  match d with
  | [] => None
  | (k', v) :: d' => if decide (k' = k) then Some v else dict_get k d'
  end.

Definition dict_mem (k : K) (d : dict) : bool :=
  match dict_get k d with Some _ => true | None => false end.

(** [d[k] = v]: an existing key keeps its position, a new key goes last. *)
Fixpoint dict_set (k : K) (v : V) (d : dict) : dict :=
  match d with
  | [] => [(k, v)]
  | (k', v') :: d' =>
      if decide (k' = k) then (k, v) :: d' else (k', v') :: dict_set k v d'
  end.

(** [del d[k]] for a key that is present. *)
Fixpoint dict_del (k : K) (d : dict) : dict :=
  match d with
  | [] => []
  | (k', v') :: d' =>
      if decide (k' = k) then d' else (k', v') :: dict_del k d'
  end.

Definition dict_keys (d : dict) : list K := map fst d.
Definition dict_items (d : dict) : list (K * V) := d.
End Dict.
Arguments dict : clear implicits.

(* ===================================================================== *)
(** ** [sorted(xs, key=...)]: a stable sort on integer keys *)
(* ===================================================================== *)

Section Sorted.
Context {A : Type} (key : A -> Z).

Fixpoint sorted_insert (x : A) (l : list A) : list A :=
  match l with
  | [] => [x]
  | y :: l' => if key x <=? key y then x :: l else y :: sorted_insert x l'
  end.

(** Python's [sorted] is stable; a stable sort has one possible output,
    so insertion from the right computes the same list as Timsort. *)
Definition sorted (l : list A) : list A := foldr sorted_insert [] l.

(** Non-decreasing key order. *)
Definition key_le (a b : A) : Prop := key a <= key b.
End Sorted.

(* ===================================================================== *)
(** ** The file system *)
(* ===================================================================== *)

Record disk := Disk {
  files : gmap string bytes;
  dirs : gset string
}.

Definition empty_disk : disk := Disk ∅ ∅.

Inductive fs_op :=
| OpMkdir (p : string)
| OpOpenR (p : string)
| OpOpenW (p : string)
| OpWrite (p : string) (data : bytes)
| OpRemove (p : string)
| OpRmdir (p : string).

(** A failure injected by the environment: the message of the [OSError],
    and, for a write, how many bytes reached the file before it. *)
Record fault := Fault { fault_msg : string; fault_written : nat }.

Definition faults := fs_op -> option fault.

Definition no_faults : faults := fun _ => None.

Definition set_files (f : gmap string bytes) (d : disk) : disk :=
  Disk f (dirs d).
Definition set_dirs (ds : gset string) (d : disk) : disk :=
  Disk (files d) ds.

(** [os.path.exists(p)]. *)
Definition fs_exists (p : string) (d : disk) : bool :=
  bool_decide (is_Some (files d !! p)) || bool_decide (p ∈ dirs d).

(** [Path.mkdir(exist_ok=True)]. *)
Definition fs_mkdir (flt : faults) (p : string) : M disk unit :=
  fun d =>
    match flt (OpMkdir p) with
    | Some f => (Raise (Exn "OSError" (fault_msg f)), d)
    | None =>
        match files d !! p with
        | Some _ => (Raise (Exn "FileExistsError" p), d)
        | None => (Ok tt, set_dirs ({[p]} ∪ dirs d) d)
        end
    end.

(** [open(p, 'wb')]: creates or truncates. *)
Definition fs_open_wb (flt : faults) (p : string) : M disk unit :=
  fun d =>
    match flt (OpOpenW p) with
    | Some f => (Raise (Exn "OSError" (fault_msg f)), d)
    | None =>
        if bool_decide (p ∈ dirs d)
        then (Raise (Exn "IsADirectoryError" p), d)
        else (Ok tt, set_files (<[p := []]> (files d)) d)
    end.

(** [f.write(data)] on a handle opened on [p]: appends. *)
Definition fs_write (flt : faults) (p : string) (data : bytes) : M disk unit :=
  fun d =>
    let old := default [] (files d !! p) in
    match flt (OpWrite p data) with
    | Some f =>
        (Raise (Exn "OSError" (fault_msg f)),
         set_files (<[p := old ++ take (fault_written f) data]> (files d)) d)
    | None => (Ok tt, set_files (<[p := old ++ data]> (files d)) d)
    end.

(** [open(p, 'rb')] followed by reading the handle; [fs_open_rb] gives the
    bytes the handle will deliver. *)
Definition fs_open_rb (flt : faults) (p : string) : M disk bytes :=
  fun d =>
    match flt (OpOpenR p) with
    | Some f => (Raise (Exn "OSError" (fault_msg f)), d)
    | None =>
        match files d !! p with
        | Some content => (Ok content, d)
        | None => (Raise (Exn "FileNotFoundError" p), d)
        end
    end.

(** [os.remove(p)]. *)
Definition fs_remove (flt : faults) (p : string) : M disk unit :=
  fun d =>
    match flt (OpRemove p) with
    | Some f => (Raise (Exn "OSError" (fault_msg f)), d)
    | None =>
        match files d !! p with
        | Some _ => (Ok tt, set_files (delete p (files d)) d)
        | None => (Raise (Exn "FileNotFoundError" p), d)
        end
    end.

(** Nothing lives under directory [p]. *)
Definition dir_is_empty (p : string) (d : disk) : bool :=
  bool_decide (set_Forall (fun q => String.prefix (p +:+ "/") q = false)
                          (dom (files d) ∪ dirs d)).

(** [Path.rmdir()]. *)
Definition fs_rmdir (flt : faults) (p : string) : M disk unit :=
  fun d =>
    match flt (OpRmdir p) with
    | Some f => (Raise (Exn "OSError" (fault_msg f)), d)
    | None =>
        if bool_decide (p ∈ dirs d)
        then if dir_is_empty p d
             then (Ok tt, set_dirs (dirs d ∖ {[p]}) d)
             else (Raise (Exn "OSError" "Directory not empty"), d)
        else (Raise (Exn "FileNotFoundError" p), d)
    end.

(** [a / b] on [pathlib] paths (an absolute right operand replaces [a]). *)
Definition path_join (a b : string) : string :=
  match b with
  | String "/"%char _ => b
  | _ => a +:+ "/" +:+ b
  end.

(** [os.path.basename]: what follows the last ["/"]. *)
Fixpoint basename_aux (acc p : string) : string :=
  match p with
  | EmptyString => acc
  | String c p' =>
      if Ascii.eqb c "/"%char then basename_aux EmptyString p'
      else basename_aux (acc +:+ String c EmptyString) p'
  end.
Definition basename (p : string) : string := basename_aux EmptyString p.

(** [hashlib.sha256(data).hexdigest()], left abstract. *)
Class Sha256 := sha256_hexdigest : bytes -> string.

(* ===================================================================== *)
(** ** Module 1: file partitioning *)
(* ===================================================================== *)

Module FilePartitioner.

Record t := Build { chunk_size : Z }.

(** [f.read(n)] on a handle with [rest] still unread: the bytes delivered
    and the bytes left.  [n = -1] reads to the end; a smaller [n] is
    refused with a [ValueError], whatever is left to read. *)
Definition file_read (n : Z) (rest : bytes) : result (bytes * bytes) :=
  if n <? -1 then
    Raise (Exn "ValueError" "read length must be non-negative or -1")
  else if n <? 0 then Ok (rest, [])
  else Ok (take (Z.to_nat n) rest, drop (Z.to_nat n) rest).

Lemma file_read_shrinks n rest c cs rest' :
  file_read n rest = Ok (c :: cs, rest') -> (length rest' < length rest)%nat.
Proof.
  unfold file_read. destruct (n <? -1); [done|]. destruct (n <? 0).
  - intros [= -> <-]. simpl. lia.
  - intros [= Ht <-]. rewrite length_drop.
    destruct (Z.to_nat n); [discriminate|].
    destruct rest; [discriminate|]. simpl. lia.
Qed.

Section WithDigest.
Context `{Sha256}.

(** The [while True] loop of [partition_file]: the handle's unread
    bytes and the running [chunk_id].  An exception of [f.read] leaves
    the loop and the chunks read so far are lost. *)
Equations partition_loop (size : Z) (rest : bytes) (chunk_id : Z)
  : result (list (Z * bytes * string)) by wf (length rest) lt :=
  partition_loop size rest chunk_id with inspect (file_read size rest) := {
    | exist _ (Raise e) _ => Raise e;
    | exist _ (Ok ([], _)) _ => Ok [];
    | exist _ (Ok (c :: cs, rest')) Heq =>
        match partition_loop size rest' (chunk_id + 1) with
        | Ok chunks =>
            Ok ((chunk_id, c :: cs, sha256_hexdigest (c :: cs)) :: chunks)
        | Raise e => Raise e
        end }.
Next Obligation. eapply file_read_shrinks; eauto. Qed.

Definition partition_file (flt : faults) (self : t) (filepath : string)
  : M disk (list (Z * bytes * string)) :=
  content ← fs_open_rb flt filepath;
  of_result (partition_loop (chunk_size self) content 0).

(** The body of the loop of [reassemble_file]. *)
Definition write_payload (flt : faults) (output_path : string)
    (chunk : Z * bytes) : M disk unit :=
  let '(_, chunk_data) := chunk in fs_write flt output_path chunk_data.

Definition reassemble_file (flt : faults) (self : t)
    (chunks : list (Z * bytes)) (output_path : string) : M disk unit :=
  let sorted_chunks := sorted fst chunks in
  fs_open_wb flt output_path;;
  for_each sorted_chunks (write_payload flt output_path).

Definition verify_chunk (self : t) (chunk_data : bytes)
    (expected_hash : string) : bool :=
  let actual_hash := sha256_hexdigest chunk_data in
  bool_decide (actual_hash = expected_hash).
End WithDigest.

End FilePartitioner.

(* ===================================================================== *)
(** ** The wire protocol *)
(* ===================================================================== *)

(** The request dictionaries built by the client, by their ['command']. *)
Inductive request :=
| STORE (filename : string) (chunk_id : Z) (chunk_data : bytes)
        (chunk_hash : string)
| RETRIEVE (filename : string) (chunk_id : Z)
| LIST
| DELETE (filename : string)
| OTHER (command : string).

(** The response dictionaries.  All but [ErrorResp] carry
    ['status': 'success']; only [RetrieveOk] has the keys ['chunk_data'] and
    ['chunk_hash']. *)
Inductive response :=
| StoreOk (message : string) (node_id : Z)
| RetrieveOk (chunk_data : bytes) (chunk_hash : string) (node_id : Z)
| ListOk (files_info : list (string * list Z)) (node_id : Z)
| DeleteOk (message : string)
| ErrorResp (message : string).

(** [response['status'] == 'success']. *)
Definition status_success (r : response) : bool :=
  match r with ErrorResp _ => false | _ => true end.

(* ===================================================================== *)
(** ** Module 2: storage nodes *)
(* ===================================================================== *)

Module StorageNode.

(** The node object together with the storage directory it owns.
    [metadata] is [{filename: {chunk_id: (chunk_hash, storage_path)}}]. *)
Record t := Build {
  node_id : Z;
  host : string;
  port : Z;
  storage_dir : string;
  metadata : dict string (dict Z (string * string));
  fs : disk
}.

Definition set_metadata (m : dict string (dict Z (string * string)))
    (self : t) : t :=
  Build (node_id self) (host self) (port self) (storage_dir self) m (fs self).

Definition set_fs (d : disk) (self : t) : t :=
  Build (node_id self) (host self) (port self) (storage_dir self)
        (metadata self) d.

Definition on_disk {A} (m : M disk A) : M t A := zoom fs set_fs m.

(** [storage_dir / filename / f"chunk_{chunk_id}.dat"]. *)
Definition file_dir_of (self : t) (filename : string) : string :=
  path_join (storage_dir self) filename.
Definition chunk_path_of (self : t) (filename : string) (chunk_id : Z)
    : string :=
  path_join (file_dir_of self filename)
            ("chunk_" +:+ pretty chunk_id +:+ ".dat").

(** The handler of every operation: [except Exception as e]. *)
Definition error_response (e : exn) : M t response :=
  mret (ErrorResp (str e)).

Definition store_chunk (flt : faults) (filename : string) (chunk_id : Z)
    (chunk_data : bytes) (chunk_hash : string) : M t response :=
  try_except
    (self ← get;
     let file_dir := file_dir_of self filename in
     on_disk (fs_mkdir flt file_dir);;
     let chunk_path := chunk_path_of self filename chunk_id in
     on_disk (fs_open_wb flt chunk_path);;
     on_disk (fs_write flt chunk_path chunk_data);;
     modify (fun self =>
       if dict_mem filename (metadata self) then self
       else set_metadata (dict_set filename [] (metadata self)) self);;
     self ← get;
     match dict_get filename (metadata self) with
     | None => raise (Exn "KeyError" filename)
     | Some entries =>
         modify (set_metadata
           (dict_set filename
              (dict_set chunk_id (chunk_hash, chunk_path) entries)
              (metadata self)))
     end;;
     mret (StoreOk ("Chunk " +:+ pretty chunk_id +:+ " stored")
                   (node_id self)))
    error_response.

Definition retrieve_chunk (flt : faults) (filename : string) (chunk_id : Z)
    : M t response :=
  try_except
    (self ← get;
     match dict_get filename (metadata self) with
     | None => mret (ErrorResp "Chunk not found")
     | Some entries =>
         match dict_get chunk_id entries with
         | None => mret (ErrorResp "Chunk not found")
         | Some (chunk_hash, chunk_path) =>
             chunk_data ← on_disk (fs_open_rb flt chunk_path);
             mret (RetrieveOk chunk_data chunk_hash (node_id self))
         end
     end)
    error_response.

Definition list_files : M t response :=
  self ← get;
  let files_info :=
    map (fun '(filename, chunks) => (filename, dict_keys chunks))
        (dict_items (metadata self)) in
  mret (ListOk files_info (node_id self)).

(** The body of the loop that deletes the chunks from disk. *)
Definition remove_chunk (flt : faults)
    (item : Z * (string * string)) : M t unit :=
  let '(_, (_, chunk_path)) := item in
  d ← on_disk get;
  if fs_exists chunk_path d then on_disk (fs_remove flt chunk_path)
  else mret tt.

Definition delete_file (flt : faults) (filename : string) : M t response :=
  try_except
    (self ← get;
     match dict_get filename (metadata self) with
     | None => mret (ErrorResp "File not found")
     | Some entries =>
         for_each (dict_items entries) (remove_chunk flt);;
         let file_dir := file_dir_of self filename in
         d ← on_disk get;
         (if fs_exists file_dir d then on_disk (fs_rmdir flt file_dir)
          else mret tt);;
         modify (fun self =>
           set_metadata (dict_del filename (metadata self)) self);;
         mret (DeleteOk "File deleted")
     end)
    error_response.

(** [handle_client] from the decoded request to the response it sends. *)
Definition handle_client (flt : faults) (req : request) : M t response :=
  try_except
    match req with
    | STORE filename chunk_id chunk_data chunk_hash =>
        store_chunk flt filename chunk_id chunk_data chunk_hash
    | RETRIEVE filename chunk_id => retrieve_chunk flt filename chunk_id
    | LIST => list_files
    | DELETE filename => delete_file flt filename
    | OTHER _ => mret (ErrorResp "Unknown command")
    end
    error_response.

End StorageNode.

(* ===================================================================== *)
(** ** Module 3: retrieval and consistency (the client / coordinator) *)
(* ===================================================================== *)

(** A registered node: the dictionary [{'node_id', 'host', 'port'}]. *)
Record node := Node { node_id : Z; host : string; port : Z }.

(** The network and the nodes behind it, seen from the client: one
    request/response exchange with the node at an address.  A failed
    exchange (refused, timed out, garbled) is the error response that
    [send_request] builds in its [except] branch. *)
Class Network (World : Type) :=
  exchange : node -> request -> World -> response * World.

(** [a % b] and [l[i]] as Python evaluates them. *)
Definition py_mod {S} (a b : Z) : M S Z :=
  if b =? 0 then raise (Exn "ZeroDivisionError" "integer modulo by zero")
  else mret (a mod b).

Definition py_index {S A} (l : list A) (i : Z) : M S A :=
  let n := Z.of_nat (length l) in
  let j := if i <? 0 then i + n else i in
  if (0 <=? j) && (j <? n) then
    match l !! Z.to_nat j with
    | Some x => mret x
    | None => raise (Exn "IndexError" "list index out of range")
    end
  else raise (Exn "IndexError" "list index out of range").

Module DistributedStorageClient.

Record t := Build {
  replication_factor : Z;
  partitioner : FilePartitioner.t;
  nodes : list node;
  file_mapping : dict string (dict Z (list Z))
}.

(** [DistributedStorageClient(replication_factor, chunk_size)]. *)
Definition init (replication_factor chunk_size : Z) : t :=
  Build replication_factor (FilePartitioner.Build chunk_size) [] [].

Definition set_nodes (ns : list node) (self : t) : t :=
  Build (replication_factor self) (partitioner self) ns (file_mapping self).

Definition set_file_mapping (fm : dict string (dict Z (list Z)))
    (self : t) : t :=
  Build (replication_factor self) (partitioner self) (nodes self) fm.

Definition add_node (node_id : Z) (host : string) (port : Z) (self : t) : t :=
  set_nodes (nodes self ++ [Node node_id host port]) self.

Section WithWorld.
Context {World : Type} `{Network World} `{Sha256}.

(** The client process: the object, the local disk it reads uploads
    from and writes downloads to, the world behind the sockets, and a
    ghost record of every exchange made, in order. *)
Record process := Process {
  self : t;
  local : disk;
  world : World;
  sent : list (node * request * response)
}.

Definition set_self (c : t) (p : process) : process :=
  Process c (local p) (world p) (sent p).
Definition set_local (d : disk) (p : process) : process :=
  Process (self p) d (world p) (sent p).

Definition on_local {A} (m : M disk A) : M process A :=
  zoom local set_local m.

Definition send_request (n : node) (req : request) : M process response :=
  fun p =>
    let (resp, w) := exchange n req (world p) in
    (Ok resp, Process (self p) (local p) w (sent p ++ [(n, req, resp)])).

(** The replica set of a chunk (round-robin). *)
Definition target_nodes (c : t) (chunk_id : Z) : M process (list node) :=
  let num_replicas :=
    Z.min (replication_factor c) (Z.of_nat (length (nodes c))) in
  comprehension
    (fun i => k ← py_mod (chunk_id + i) (Z.of_nat (length (nodes c)));
              py_index (nodes c) k)
    (seqZ 0 num_replicas).

(** The loop over [target_nodes] that fills [stored_nodes]. *)
Fixpoint store_replicas (filename : string) (chunk_id : Z)
    (chunk_data : bytes) (chunk_hash : string)
    (targets : list node) (stored_nodes : list Z) : M process (list Z) :=
  match targets with
  | [] => mret stored_nodes
  | n :: targets' =>
      let req := STORE filename chunk_id chunk_data chunk_hash in
      response ← send_request n req;
      store_replicas filename chunk_id chunk_data chunk_hash targets'
        (if status_success response
         then stored_nodes ++ [node_id n] else stored_nodes)
  end.

(** [self.file_mapping[filename][chunk_id] = stored_nodes]. *)
Definition record_chunk (filename : string) (chunk_id : Z)
    (stored_nodes : list Z) : M process unit :=
  p ← get;
  match dict_get filename (file_mapping (self p)) with
  | None => raise (Exn "KeyError" filename)
  | Some chunk_mapping =>
      modify (set_self (set_file_mapping
        (dict_set filename (dict_set chunk_id stored_nodes chunk_mapping)
                  (file_mapping (self p)))
        (self p)))
  end.

(** The body of the loop of [upload_file] over the chunks. *)
Definition upload_chunk (filename : string)
    (chunk : Z * bytes * string) : M process unit :=
  let '(chunk_id, chunk_data, chunk_hash) := chunk in
  p ← get;
  targets ← target_nodes (self p) chunk_id;
  stored_nodes ← store_replicas filename chunk_id chunk_data
                   chunk_hash targets [];
  record_chunk filename chunk_id stored_nodes.

Definition upload_file (flt : faults) (filepath : string)
    : M process bool :=
  p ← get;
  match nodes (self p) with
  | [] => mret false
  | _ :: _ =>
      let filename := basename filepath in
      chunks ← on_local (FilePartitioner.partition_file flt
                           (partitioner (self p)) filepath);
      modify (fun p => set_self (set_file_mapping
        (dict_set filename [] (file_mapping (self p))) (self p)) p);;
      for_each chunks (upload_chunk filename);;
      mret true
  end.

(** [next((n for n in self.nodes if n['node_id'] == node_id), None)]. *)
Definition find_node (c : t) (nid : Z) : option node :=
  List.find (fun n => node_id n =? nid) (nodes c).

(** The loop over a chunk's [node_ids]: [Some chunk_data] when it
    leaves through [break], [None] when the list is exhausted with
    [chunk_retrieved] still false. *)
Fixpoint retrieve_chunk (filename : string) (chunk_id : Z)
    (node_ids : list Z) : M process (option bytes) :=
  match node_ids with
  | [] => mret None
  | nid :: node_ids' =>
      p ← get;
      match find_node (self p) nid with
      | None => retrieve_chunk filename chunk_id node_ids'
      | Some n =>
          response ← send_request n (RETRIEVE filename chunk_id);
          match response with
          | ErrorResp _ => retrieve_chunk filename chunk_id node_ids'
          | RetrieveOk chunk_data chunk_hash _ =>
              if FilePartitioner.verify_chunk (partitioner (self p))
                   chunk_data chunk_hash
              then mret (Some chunk_data)
              else retrieve_chunk filename chunk_id node_ids'
          | _ => raise (Exn "KeyError" "chunk_data")
          end
      end
  end.

(** The loop over [sorted(chunk_mapping.keys())]: [None] when it
    leaves through [return False], otherwise the collected chunks. *)
Fixpoint retrieve_all (filename : string)
    (chunk_mapping : dict Z (list Z)) (chunk_ids : list Z)
    (chunks : list (Z * bytes)) : M process (option (list (Z * bytes))) :=
  match chunk_ids with
  | [] => mret (Some chunks)
  | chunk_id :: chunk_ids' =>
      match dict_get chunk_id chunk_mapping with
      | None => raise (Exn "KeyError" (pretty chunk_id))
      | Some node_ids =>
          got ← retrieve_chunk filename chunk_id node_ids;
          match got with
          | None => mret None
          | Some chunk_data =>
              retrieve_all filename chunk_mapping chunk_ids'
                (chunks ++ [(chunk_id, chunk_data)])
          end
      end
  end.

Definition download_file (flt : faults) (filename output_path : string)
    : M process bool :=
  p ← get;
  match dict_get filename (file_mapping (self p)) with
  | None => mret false
  | Some chunk_mapping =>
      got ← retrieve_all filename chunk_mapping
              (sorted id (dict_keys chunk_mapping)) [];
      match got with
      | None => mret false
      | Some chunks =>
          on_local (FilePartitioner.reassemble_file flt
                      (partitioner (self p)) chunks output_path);;
          mret true
      end
  end.

Definition delete_file (filename : string) : M process bool :=
  p ← get;
  if dict_mem filename (file_mapping (self p)) then
    for_each (nodes (self p)) (fun n =>
      send_request n (DELETE filename);; mret tt);;
    modify (fun p => set_self (set_file_mapping
      (dict_del filename (file_mapping (self p))) (self p)) p);;
    mret true
  else mret false.
End WithWorld.

End DistributedStorageClient.

(* ===================================================================== *)
(** ** A network of storage nodes *)
(* ===================================================================== *)

(** The node processes that are running, each with its own disk. *)
Definition cluster := list StorageNode.t.

(** What the receive loops of [handle_client] and [send_request] depend on
    and the program does not decide: the length of the pickle of a
    message, how many of the bytes still on their way a call of [recv]
    finds in the socket buffer, and the text of the exception that
    [pickle.loads] raises on a pickle that was cut after [n] bytes. *)
Class Transport := {
  request_size : request -> Z;
  response_size : response -> Z;
  arrived : Z -> Z;
  request_cut : request -> Z -> string;
  response_cut : response -> Z -> string
}.

(** The outcome of one [sock.recv(4096)]. *)
Inductive received :=
| Chunk (len : Z)
| EndOfStream
| Blocked.

(** [sock.recv(4096)] on a connection on which [outstanding] bytes of the
    peer's message are still unread.  The call waits for the first byte
    and returns what has arrived, at most 4096 bytes.  With nothing
    outstanding it returns [b''] when the peer has closed the connection,
    and does not return as long as the peer keeps it open. *)
Definition sock_recv `{Transport} (outstanding : Z) (closed : bool)
    : received :=
  if 0 <? outstanding then
    Chunk (Z.max 1 (Z.min (arrived outstanding) (Z.min 4096 outstanding)))
  else if closed then EndOfStream else Blocked.

Lemma sock_recv_chunk `{Transport} outstanding closed len :
  sock_recv outstanding closed = Chunk len ->
  0 < outstanding /\ 1 <= len <= outstanding.
Proof.
  unfold sock_recv. destruct (0 <? outstanding) eqn:E.
  - intros [= <-]. lia.
  - by destruct closed.
Qed.

Section ReceiveLoop.
Context `{Transport}.

(** The receive loop of [handle_client] and of [send_request]:
    [[
      data = b''
      while True:
          chunk = sock.recv(4096)
          if not chunk: break
          data += chunk
          if len(chunk) < 4096: break
    ]]
    [data] is the number of bytes collected.  [Some n]: the loop is left
    with [n] bytes; [None]: it is stuck in [recv], because every chunk so
    far filled the buffer, nothing is outstanding and the peer, waiting
    for an answer, keeps the connection open. *)
Equations recv_loop (outstanding : Z) (closed : bool) (data : Z)
  : option Z by wf (Z.to_nat outstanding) lt :=
  recv_loop outstanding closed data
    with inspect (sock_recv outstanding closed) := {
    | exist _ Blocked _ => None;
    | exist _ EndOfStream _ => Some data;
    | exist _ (Chunk len) Heq =>
        if len <? 4096 then Some (data + len)
        else recv_loop (outstanding - len) closed (data + len) }.
Next Obligation. apply sock_recv_chunk in Heq. lia. Qed.

(** What [send_request] returns once the node has sent [resp] and closed
    the connection: the response, unless the loop stopped at a short
    chunk before the end and [pickle.loads] raised on the cut pickle. *)
Definition receive_response (resp : response) : response :=
  match recv_loop (response_size resp) true 0 with
  | Some n =>
      if n <? response_size resp
      then ErrorResp ("Node communication error: " +:+ response_cut resp n)
      else resp
  | None => ErrorResp "Node communication error: timed out"
  end.

(** One connection of [send_request] to a running node: what the client
    gets back and the node afterwards.
    - The node's loop is left with the whole pickle: the request is
      handled and the response travels back.
    - It is left with a cut pickle: [pickle.loads] raises, nothing is
      handled and the error response of the [except] branch travels
      back.
    - It is stuck in [recv]: the client, waiting for the answer, runs
      into its 5 second timeout and returns the error of its [except]
      branch.  When it has dropped the connection the node's [recv]
      returns [b''], the node unpickles the complete request and handles
      it, and nobody is left to hear the answer. *)
Definition connection (flt : faults) (req : request) (nd : StorageNode.t)
    : response * StorageNode.t :=
  match recv_loop (request_size req) false 0 with
  | None =>
      (ErrorResp "Node communication error: timed out",
       snd (StorageNode.handle_client flt req nd))
  | Some n =>
      if n <? request_size req
      then (receive_response (ErrorResp (request_cut req n)), nd)
      else
        match StorageNode.handle_client flt req nd with
        | (Ok resp, nd') => (receive_response resp, nd')
        | (Raise e, nd') => (receive_response (ErrorResp (str e)), nd')
        end
  end.

(** One exchange with the node listening at the address of [n]; with
    nobody listening the connection is refused. *)
Fixpoint serve (flt : faults) (n : node) (req : request) (w : cluster)
    : response * cluster :=
  match w with
  | [] =>
      (ErrorResp
         "Node communication error: [Errno 111] Connection refused", [])
  | nd :: w' =>
      if bool_decide (StorageNode.host nd = host n /\
                      StorageNode.port nd = port n)
      then let (resp, nd') := connection flt req nd in (resp, nd' :: w')
      else let (resp, w'') := serve flt n req w' in (resp, nd :: w'')
  end.

Definition cluster_network (flt : faults) : Network cluster := serve flt.
End ReceiveLoop.

(* ===================================================================== *)
(** ** The vocabulary of the specification *)
(* ===================================================================== *)

(** [r] is an exception of class [cls]. *)
Definition fails_with {A S} (cls : string) (r : result A * S) : Prop :=
  exists msg s, r = (Raise (Exn cls msg), s).

(** The sink [out] can be opened for writing and written without a fault. *)
Definition writable (flt : faults) (out : string) (d : disk) : Prop :=
  flt (OpOpenW out) = None /\ (out ∉ dirs d) /\
  forall data, flt (OpWrite out data) = None.

(** The source [path] can be opened and holds [content]. *)
Definition readable (flt : faults) (path : string) (d : disk)
    (content : bytes) : Prop :=
  flt (OpOpenR path) = None /\ files d !! path = Some content.

(** The (sequenceId, payload) part of a chunk, as [download_file] collects
    it for reassembly. *)
Definition id_payload (c : Z * bytes * string) : Z * bytes :=
  let '(chunk_id, chunk_data, _) := c in (chunk_id, chunk_data).

(** The [i]-th window of [size] bytes of a file. *)
Definition window (size : Z) (content : bytes) (i : nat) : bytes :=
  take (Z.to_nat size) (drop (i * Z.to_nat size) content).

(** Some sequenceId of the range [0..N-1] is absent from the list. *)
Definition missing_in_range (N : Z) (chunks : list (Z * bytes)) : Prop :=
  exists i, 0 <= i < N /\ i ∉ map fst chunks.

(** What [store_chunk] does to the disk. *)
Definition store_on_disk (flt : faults) (file_dir chunk_path : string)
    (chunk_data : bytes) : M disk unit :=
  fs_mkdir flt file_dir;;
  fs_open_wb flt chunk_path;;
  fs_write flt chunk_path chunk_data.

(** What [store_chunk] does to the index. *)
Definition store_in_index (filename : string) (chunk_id : Z)
    (entry : string * string)
    (md : dict string (dict Z (string * string)))
    : dict string (dict Z (string * string)) :=
  dict_set filename
    (dict_set chunk_id entry (default [] (dict_get filename md))) md.

(** The index entry of a key. *)
Definition index_entry (filename : string) (chunk_id : Z)
    (md : dict string (dict Z (string * string))) : option (string * string) :=
  entries ← dict_get filename md; dict_get chunk_id entries.

(** The response is a ['status': 'success'] acknowledgement of a store. *)
Definition acknowledged (r : result response) : Prop :=
  exists message nid, r = Ok (StoreOk message nid).

(** The pool index of replica [i] of a chunk. *)
Definition replica_slot (c : DistributedStorageClient.t) (chunk_id i : Z) : Z :=
  (chunk_id + i) mod Z.of_nat (length (DistributedStorageClient.nodes c)).

(** A network on which no node ever answers a STORE with success. *)
Definition never_acknowledges {World} `{Network World} : Prop :=
  forall n filename chunk_id chunk_data chunk_hash w,
    status_success
      (fst (exchange n (STORE filename chunk_id chunk_data chunk_hash) w))
      = false.

(** What the exchanges of an upload leave alone. *)
Definition same_client {World}
    (p p' : DistributedStorageClient.process (World := World)) : Prop :=
  DistributedStorageClient.replication_factor (DistributedStorageClient.self p') = DistributedStorageClient.replication_factor (DistributedStorageClient.self p) /\
  DistributedStorageClient.partitioner (DistributedStorageClient.self p') = DistributedStorageClient.partitioner (DistributedStorageClient.self p) /\
  DistributedStorageClient.nodes (DistributedStorageClient.self p') = DistributedStorageClient.nodes (DistributedStorageClient.self p) /\
  DistributedStorageClient.local p' = DistributedStorageClient.local p.

(** An answer to a RETRIEVE that the client does not accept: an error
    (unreachable node, chunk not found) or a payload that does not match
    the digest that came with it. *)
Definition rejected `{Sha256} (resp : response) : Prop :=
  match resp with
  | ErrorResp _ => True
  | RetrieveOk chunk_data chunk_hash _ =>
      sha256_hexdigest chunk_data ≠ chunk_hash
  | _ => False
  end.

(** An answer that carries [chunk_data] and passes verification. *)
Definition verified `{Sha256} (resp : response) (chunk_data : bytes) : Prop :=
  exists chunk_hash nid,
    resp = RetrieveOk chunk_data chunk_hash nid /\
    sha256_hexdigest chunk_data = chunk_hash.

(** The registered nodes among [node_ids], in order. *)
Definition registered (c : DistributedStorageClient.t) (node_ids : list Z)
    : list node :=
  omap (DistributedStorageClient.find_node c) node_ids.

(** The exchanges [T] are a scan of the replicas [node_ids] of a chunk:
    RETRIEVE requests to the registered nodes in recorded order, each
    rejected, up to and including the first verified answer if there is
    one ([got = Some data]); nothing is sent to the replicas after it.
    With [got = None] every registered replica was asked and rejected. *)
Definition scan `{Sha256} (c : DistributedStorageClient.t)
    (filename : string) (chunk_id : Z) (node_ids : list Z)
    (T : list (node * request * response)) (got : option bytes) : Prop :=
  match got with
  | Some chunk_data =>
      exists skipped nid later n resp T0,
        node_ids = skipped ++ nid :: later /\
        DistributedStorageClient.find_node c nid = Some n /\
        T = T0 ++ [(n, RETRIEVE filename chunk_id, resp)] /\
        map fst T0 =
          map (fun m => (m, RETRIEVE filename chunk_id))
              (registered c skipped) /\
        Forall (fun e => rejected (snd e)) T0 /\
        verified resp chunk_data
  | None =>
      map fst T =
        map (fun m => (m, RETRIEVE filename chunk_id))
            (registered c node_ids) /\
      Forall (fun e => rejected (snd e)) T
  end.

(** Chunk [chunk_id] was obtained as [chunk_data] by the scan [T] of its
    recorded replicas. *)
Definition chunk_scanned `{Sha256} (c : DistributedStorageClient.t)
    (filename : string) (chunk_mapping : dict Z (list Z))
    (chunk_id : Z) (T : list (node * request * response))
    (chunk_data : bytes) : Prop :=
  exists node_ids,
    dict_get chunk_id chunk_mapping = Some node_ids /\
    scan c filename chunk_id node_ids T (Some chunk_data).

(** The scan [T] of the replicas of [chunk_id] found no acceptable
    answer, after the chunks [done] before it had been obtained. *)
Definition chunk_failed `{Sha256} (c : DistributedStorageClient.t)
    (filename : string) (chunk_mapping : dict Z (list Z))
    (chunk_ids : list Z) (Ts : list (list (node * request * response)))
    : Prop :=
  exists done chunk_id later Ts_done T datas node_ids,
    chunk_ids = done ++ chunk_id :: later /\
    Ts = Ts_done ++ [T] /\
    Forall3 (chunk_scanned c filename chunk_mapping) done Ts_done datas /\
    dict_get chunk_id chunk_mapping = Some node_ids /\
    scan c filename chunk_id node_ids T None.

(** The identifier [nid] denotes the node [n]: [n] is the first node of
    the pool that was registered under it. *)
Definition denotes (c : DistributedStorageClient.t) (nid : Z) (n : node)
    : Prop :=
  exists before after,
    DistributedStorageClient.nodes c = before ++ n :: after /\
    node_id n = nid /\
    Forall (fun m => node_id m ≠ nid) before.

(** No node of the pool was registered under [nid]. *)
Definition unknown_id (c : DistributedStorageClient.t) (nid : Z) : Prop :=
  Forall (fun m => node_id m ≠ nid) (DistributedStorageClient.nodes c).

(** [asked] are the nodes that the recorded identifiers [node_ids]
    denote, in recorded order; an identifier that denotes no node is
    passed over. *)
Inductive replicas_of (c : DistributedStorageClient.t)
    : list Z -> list node -> Prop :=
| replicas_nil : replicas_of c [] []
| replicas_unknown nid node_ids asked :
    unknown_id c nid ->
    replicas_of c node_ids asked ->
    replicas_of c (nid :: node_ids) asked
| replicas_known nid n node_ids asked :
    denotes c nid n ->
    replicas_of c node_ids asked ->
    replicas_of c (nid :: node_ids) (n :: asked).

(** An answer to a RETRIEVE that is a chunk or an error. *)
Definition chunk_or_error (resp : response) : Prop :=
  match resp with
  | RetrieveOk _ _ _ | ErrorResp _ => True
  | _ => False
  end.

(** The exchanges [T] are the search for a chunk among its recorded
    replicas [node_ids].  With [got = Some chunk_data]: one RETRIEVE to
    each node that the identifiers before some [nid] denote, in recorded
    order, each answer rejected; then one RETRIEVE to the node that [nid]
    denotes, answered with [chunk_data] and a matching digest; nothing to
    the replicas recorded after [nid].  With [got = None]: one RETRIEVE to
    each node that the recorded identifiers denote, in recorded order,
    each answer rejected. *)
Definition replica_search `{Sha256} (c : DistributedStorageClient.t)
    (filename : string) (chunk_id : Z) (node_ids : list Z)
    (T : list (node * request * response)) (got : option bytes) : Prop :=
  match got with
  | Some chunk_data =>
      exists skipped nid later asked n resp T0,
        node_ids = skipped ++ nid :: later /\
        replicas_of c skipped asked /\
        denotes c nid n /\
        T = T0 ++ [(n, RETRIEVE filename chunk_id, resp)] /\
        map fst T0 = map (fun m => (m, RETRIEVE filename chunk_id)) asked /\
        Forall (fun e => rejected (snd e)) T0 /\
        verified resp chunk_data
  | None =>
      exists asked,
        replicas_of c node_ids asked /\
        map fst T = map (fun m => (m, RETRIEVE filename chunk_id)) asked /\
        Forall (fun e => rejected (snd e)) T
  end.

(** Chunk [chunk_id] was obtained as [chunk_data] by the search [T]. *)
Definition chunk_found `{Sha256} (c : DistributedStorageClient.t)
    (filename : string) (chunk_mapping : dict Z (list Z))
    (chunk_id : Z) (T : list (node * request * response))
    (chunk_data : bytes) : Prop :=
  exists node_ids,
    dict_get chunk_id chunk_mapping = Some node_ids /\
    replica_search c filename chunk_id node_ids T (Some chunk_data).

(** The searches [Ts] obtained the chunks before some [chunk_id], in the
    order of [chunk_ids], and the search for [chunk_id] ended with every
    replica rejected; no later chunk was searched for. *)
Definition chunk_lost `{Sha256} (c : DistributedStorageClient.t)
    (filename : string) (chunk_mapping : dict Z (list Z))
    (chunk_ids : list Z) (Ts : list (list (node * request * response)))
    : Prop :=
  exists done chunk_id later Ts_done T datas node_ids,
    chunk_ids = done ++ chunk_id :: later /\
    Ts = Ts_done ++ [T] /\
    Forall3 (chunk_found c filename chunk_mapping) done Ts_done datas /\
    dict_get chunk_id chunk_mapping = Some node_ids /\
    replica_search c filename chunk_id node_ids T None.

(** Every [recv] finds a full buffer, or all that is outstanding, waiting
    for it. *)
Definition full_buffers `{Transport} : Prop :=
  forall n, Z.min 4096 n <= arrived n.

(** A message of [len] bytes does not end on a buffer boundary: the last
    chunk of it that a receiver reads is shorter than the buffer. *)
Definition ends_short (len : Z) : Prop := 0 < len /\ len mod 4096 <> 0.

(** Neither the STORE request of the chunk for [filename] nor the RETRIEVE
    request for it ends on a buffer boundary. *)
Definition chunk_deliverable `{Transport} (filename : string)
    (chunk : Z * bytes * string) : Prop :=
  let '(chunk_id, chunk_data, chunk_hash) := chunk in
  ends_short (request_size (STORE filename chunk_id chunk_data chunk_hash)) /\
  ends_short (request_size (RETRIEVE filename chunk_id)).

(* ===================================================================== *)
(** ** Inputs for concrete runs *)
(* ===================================================================== *)

(** A stand-in digest for running the definitions on concrete inputs:
    the decimal length of the data. *)
Definition length_digest : Sha256 :=
  fun data => pretty (Z.of_nat (length data)).

Definition sample_disk : disk :=
  Disk {[ "f" := bytes_of "ABCDEFGHI" ]} ∅.

Definition gap_chunks : list (Z * bytes) :=
  [(0, bytes_of "A"); (2, bytes_of "C")].

Definition duplicate_chunks : list (Z * bytes) :=
  [(1, bytes_of "B"); (0, bytes_of "A"); (1, bytes_of "C")].

(** Three registered nodes with ids 0, 1, 2 and replication factor 2. *)
Definition three_nodes : DistributedStorageClient.t :=
  DistributedStorageClient.add_node 2 "localhost" 9002
    (DistributedStorageClient.add_node 1 "localhost" 9001
       (DistributedStorageClient.add_node 0 "localhost" 9000
          (DistributedStorageClient.init 2 4))).

Definition fresh_node : StorageNode.t :=
  StorageNode.Build 0 "localhost" 9000 "data" [] (Disk ∅ {["data"]}).

(** The node after storing chunks 0 and 1 of ["a.txt"]. *)
Definition stored_node : StorageNode.t :=
  snd (StorageNode.store_chunk no_faults "a.txt" 1 (bytes_of "EFGH") "h1"
    (snd (StorageNode.store_chunk no_faults "a.txt" 0 (bytes_of "ABCD") "h0"
       fresh_node))).

(** A disk on which every write fails after two bytes. *)
Definition write_denied : faults :=
  fun op =>
    match op with
    | OpWrite _ _ => Some (Fault "No space left on device" 2)
    | _ => None
    end.


(** A network on which every connection is refused. *)
Definition unreachable : Network unit :=
  fun _ _ w =>
    (ErrorResp "Node communication error: [Errno 111] Connection refused", w).

(** A network on which node 0 times out, node 1 serves a corrupted
    payload with the digest of the original, and the other nodes serve
    ["ABCD"] with its digest. *)
Definition flaky : Network unit :=
  fun n req w =>
    match req with
    | RETRIEVE _ _ =>
        if node_id n =? 0
        then (ErrorResp "Node communication error: timed out", w)
        else if node_id n =? 1
        then (RetrieveOk (bytes_of "AB") (length_digest (bytes_of "ABCD"))
                         (node_id n), w)
        else (RetrieveOk (bytes_of "ABCD") (length_digest (bytes_of "ABCD"))
                         (node_id n), w)
    | _ => (StoreOk "stored" (node_id n), w)
    end.

(** A stand-in transport for running the definitions on concrete inputs:
    a pickle is taken to be 64 bytes of framing plus its strings and its
    payload, and every [recv] finds all outstanding bytes in the buffer. *)
Definition loopback : Transport := {|
  request_size req :=
    match req with
    | STORE filename _ chunk_data chunk_hash =>
        64 + Z.of_nat (String.length filename)
           + Z.of_nat (length chunk_data)
           + Z.of_nat (String.length chunk_hash)
    | RETRIEVE filename _ | DELETE filename =>
        64 + Z.of_nat (String.length filename)
    | LIST => 64
    | OTHER command => 64 + Z.of_nat (String.length command)
    end;
  response_size resp :=
    match resp with
    | RetrieveOk chunk_data chunk_hash _ =>
        64 + Z.of_nat (length chunk_data)
           + Z.of_nat (String.length chunk_hash)
    | StoreOk message _ | DeleteOk message | ErrorResp message =>
        64 + Z.of_nat (String.length message)
    | ListOk files_info _ => 64 + Z.of_nat (length files_info)
    end;
  arrived n := n;
  request_cut _ _ := "pickle data was truncated";
  response_cut _ _ := "pickle data was truncated"
|}.

(** The same pickles on a connection where a [recv] never finds more than
    70 bytes in the buffer. *)
Definition trickle : Transport := {|
  request_size := request_size (Transport := loopback);
  response_size := response_size (Transport := loopback);
  arrived n := 70;
  request_cut _ _ := "pickle data was truncated";
  response_cut _ _ := "pickle data was truncated"
|}.

(** Three running nodes at the addresses registered in [three_nodes]. *)
Definition three_servers : cluster :=
  [StorageNode.Build 0 "localhost" 9000 "n0" [] (Disk ∅ {["n0"]});
   StorageNode.Build 1 "localhost" 9001 "n1" [] (Disk ∅ {["n1"]});
   StorageNode.Build 2 "localhost" 9002 "n2" [] (Disk ∅ {["n2"]})].

(** Storing chunk 0 of ["a.txt"] on [fresh_node], twice. *)
Definition first_store : result response * StorageNode.t :=
  StorageNode.store_chunk no_faults "a.txt" 0 (bytes_of "ABCD") "h0"
    fresh_node.
Definition second_store : result response * StorageNode.t :=
  StorageNode.store_chunk no_faults "a.txt" 0 (bytes_of "WXYZ") "h9"
    (snd first_store).


(** The client of [three_nodes] about to upload ["f"]. *)
Definition uploader : DistributedStorageClient.process :=
  DistributedStorageClient.Process three_nodes sample_disk tt [].

(** A client that recorded chunk 0 of ["f"] on the given nodes. *)
Definition downloader (node_ids : list Z) : DistributedStorageClient.process :=
  DistributedStorageClient.Process
    (DistributedStorageClient.set_file_mapping
       [("f", [(0, node_ids)])] three_nodes)
    empty_disk tt [].

(** Uploading ["f"] while every node is unreachable. *)
Definition unacknowledged_upload
    : result bool * DistributedStorageClient.process :=
  DistributedStorageClient.upload_file
    (H := unreachable) (H0 := length_digest) no_faults "f" uploader.

(** The client process after uploading ["f"] to [servers]. *)
Definition after_upload (flt : faults) (servers : cluster)
    : result bool * DistributedStorageClient.process :=
  DistributedStorageClient.upload_file
    (H := cluster_network (H := loopback) flt) (H0 := length_digest)
    no_faults "f"
    (DistributedStorageClient.Process three_nodes sample_disk servers []).

(** The same process with the world replaced, as after nodes went down. *)
Definition with_world (w : cluster)
    (p : DistributedStorageClient.process (World := cluster))
    : DistributedStorageClient.process (World := cluster) :=
  DistributedStorageClient.Process
    (DistributedStorageClient.self p) (DistributedStorageClient.local p) w
    (DistributedStorageClient.sent p).

(** Downloading ["f"] to ["out"] from the nodes of the world. *)
Definition download_out
    (p : DistributedStorageClient.process (World := cluster))
    : result bool * DistributedStorageClient.process :=
  DistributedStorageClient.download_file
    (H := cluster_network (H := loopback) no_faults) (H0 := length_digest)
    no_faults "f" "out" p.

(** The client after uploading ["f"] to [three_servers], with nodes 0 and
    1 down afterwards: chunk 0, recorded on nodes 0 and 1, has no replica
    left. *)
Definition replicas_down
    : DistributedStorageClient.process (World := cluster) :=
  with_world
    (drop 2 (DistributedStorageClient.world
               (snd (after_upload no_faults three_servers))))
    (snd (after_upload no_faults three_servers)).

(** A STORE whose pickle, as [loopback] measures it, has exactly 4096
    bytes, sent to node 0 of [three_servers]. *)
Definition boundary_store : response * cluster :=
  serve (H := loopback) no_faults (Node 0 "localhost" 9000)
    (STORE "f" 0 (repeat Byte.x00 4029) "h0") three_servers.

(** A STORE of 75 bytes on a connection where the first [recv] finds 70
    of them. *)
Definition cut_store : response * cluster :=
  serve (H := trickle) no_faults (Node 0 "localhost" 9000)
    (STORE "f" 0 (bytes_of "ABCDEFGHI") "9") three_servers.

(** The client of [three_nodes] with a chunk size of -2, about to upload
    ["f"]. *)
Definition refused_size_upload
    : result bool * DistributedStorageClient.process :=
  DistributedStorageClient.upload_file
    (H := unreachable) (H0 := length_digest) no_faults "f"
    (DistributedStorageClient.Process
       (DistributedStorageClient.add_node 0 "localhost" 9000
          (DistributedStorageClient.init 2 (-2)))
       sample_disk tt []).

(* ===================================================================== *)
(** ** Further vocabulary and inputs *)
(* ===================================================================== *)

(** The chunks of ["ABCDEFGHI"] in a shuffled arrival order. *)
Definition shuffled_chunks : list (Z * bytes) :=
  [(2, bytes_of "I"); (0, bytes_of "ABCD"); (1, bytes_of "EFGH")].

(** The index has no repeated file name and no file has a repeated
    chunk id. *)
Definition index_wf (md : dict string (dict Z (string * string))) : Prop :=
  NoDup (dict_keys md) /\
  Forall (fun entry => NoDup (dict_keys (snd entry))) md.

(** Reading chunk 0 of ["a.txt"] back from [fresh_node] after
    [first_store]. *)
Definition read_back : result response * StorageNode.t :=
  StorageNode.retrieve_chunk no_faults "a.txt" 0 (snd first_store).

(** Deleting ["a.txt"] from [stored_node] on a healthy disk. *)
Definition clean_delete : result response * StorageNode.t :=
  StorageNode.delete_file no_faults "a.txt" stored_node.

(** The identifiers of the nodes that answered with success, in the order
    of the exchanges [T]. *)
Definition acked (T : list (node * request * response)) : list Z :=
  omap (fun e => if status_success (snd e)
                 then Some (node_id (fst (fst e))) else None) T.

(** The exchanges [T] store [chunk] on its replica set, one STORE per
    target node in round-robin order, and [entry] is what the file
    descriptor then records for it: its sequenceId with the nodes that
    acknowledged. *)
Definition chunk_stored (c : DistributedStorageClient.t) (filename : string)
    (chunk : Z * bytes * string) (T : list (node * request * response))
    (entry : Z * list Z) : Prop :=
  let '(chunk_id, chunk_data, chunk_hash) := chunk in
  exists targets,
    Forall2 (fun i n =>
               DistributedStorageClient.nodes c
                 !! Z.to_nat (replica_slot c chunk_id i) = Some n)
      (seqZ 0 (Z.min (DistributedStorageClient.replication_factor c)
                 (Z.of_nat (length (DistributedStorageClient.nodes c)))))
      targets /\
    map fst T =
      map (fun n => (n, STORE filename chunk_id chunk_data chunk_hash))
          targets /\
    entry = (chunk_id, acked T).

(** A network on which only node 1 acknowledges a STORE. *)
Definition only_node_1 : Network unit :=
  fun n req w =>
    if node_id n =? 1 then (StoreOk "stored" 1, w)
    else (ErrorResp "Node communication error: timed out", w).

(** A disk holding an empty file ["e"]. *)
Definition empty_file_disk : disk := Disk {[ "e" := [] ]} ∅.

(** The pool of [three_nodes] with a replication factor of 5. *)
Definition five_replicas : DistributedStorageClient.t :=
  DistributedStorageClient.add_node 2 "localhost" 9002
    (DistributedStorageClient.add_node 1 "localhost" 9001
       (DistributedStorageClient.add_node 0 "localhost" 9000
          (DistributedStorageClient.init 5 4))).

(** The client of [three_nodes] with the empty file ["e"] on its disk. *)
Definition empty_uploader : DistributedStorageClient.process :=
  DistributedStorageClient.Process three_nodes empty_file_disk tt [].

(** Uploading ["f"] while only node 1 acknowledges. *)
Definition partly_acknowledged_upload
    : result bool * DistributedStorageClient.process :=
  DistributedStorageClient.upload_file
    (H := only_node_1) (H0 := length_digest) no_faults "f" uploader.

(** Downloading ["f"] from a flaky network with a healthy third replica. *)
Definition fallback_download
    : result bool * DistributedStorageClient.process :=
  DistributedStorageClient.download_file
    (H := flaky) (H0 := length_digest) no_faults "f" "out"
    (downloader [0; 1; 2]).

(** Deleting ["f"] at the client. *)
Definition client_delete
    : result bool * DistributedStorageClient.process :=
  DistributedStorageClient.delete_file (H := flaky) "f" (downloader [0; 1]).

(** The position in the cluster of the node that answers at the address
    of [n]: the first one listening there. *)
Fixpoint server_index (n : node) (w : list StorageNode.t) : option nat :=
  match w with
  | [] => None
  | nd :: w' =>
      if bool_decide (StorageNode.host nd = host n /\
                      StorageNode.port nd = port n)
      then Some 0%nat else S <$> server_index n w'
  end.

Definition server_of (n : node) (w : list StorageNode.t)
    : option StorageNode.t :=
  i ← server_index n w; w !! i.

(** Nothing on the node's disk is in the way of storing [filename]: no
    regular file where its directory goes and no directory where its chunk
    files go. *)
Definition node_clean (filename : string) (s : StorageNode.t) : Prop :=
  files (StorageNode.fs s) !! StorageNode.file_dir_of s filename = None /\
  forall i, StorageNode.chunk_path_of s filename i ∉ dirs (StorageNode.fs s).

(** The node has the chunk: indexed with digest [h] at its chunk path,
    and the file there holds [data]. *)
Definition node_holds (filename : string) (chunk_id : Z) (data : bytes)
    (h : string) (s : StorageNode.t) : Prop :=
  index_entry filename chunk_id (StorageNode.metadata s) =
    Some (h, StorageNode.chunk_path_of s filename chunk_id) /\
  files (StorageNode.fs s) !! StorageNode.chunk_path_of s filename chunk_id
    = Some data.

(** The node answering at the address of [n] has the chunk. *)
Definition holds (filename : string) (chunk_id : Z) (data : bytes)
    (h : string) (n : node) (w : list StorageNode.t) : Prop :=
  exists s, server_of n w = Some s /\ node_holds filename chunk_id data h s.

(** The network of storage nodes with healthy disks. *)
Definition healthy_cluster `{Transport} : Network cluster :=
  cluster_network no_faults.

(** After an upload to healthy nodes: [entry] records chunk [chunk] on a
    non-empty list of registered nodes, and each of them has the chunk. *)
Definition replicated (c : DistributedStorageClient.t) (filename : string)
    (w : list StorageNode.t) (chunk : Z * bytes * string)
    (entry : Z * list Z) : Prop :=
  let '(chunk_id, chunk_data, chunk_hash) := chunk in
  exists t0 targets,
    entry = (chunk_id, map node_id (t0 :: targets)) /\
    (forall n, n ∈ t0 :: targets ->
       n ∈ DistributedStorageClient.nodes c /\
       holds filename chunk_id chunk_data chunk_hash n w).

(** Writing two chunks to ["out"] on a disk where every write fails after
    two bytes. *)
Definition denied_reassembly : result unit * disk :=
  FilePartitioner.reassemble_file write_denied (FilePartitioner.Build 4)
    [(1, bytes_of "EFGH"); (0, bytes_of "ABCD")] "out" sample_disk.

(** The client of [three_nodes] in front of [three_servers], about to
    upload ["f"]. *)
Definition cluster_uploader
    : DistributedStorageClient.process (World := cluster) :=
  DistributedStorageClient.Process three_nodes sample_disk three_servers [].

(** Uploading ["f"] to [three_servers], then downloading it to ["out"]. *)
Definition cluster_upload
    : result bool * DistributedStorageClient.process (World := cluster) :=
  DistributedStorageClient.upload_file
    (H := healthy_cluster (H := loopback)) (H0 := length_digest) no_faults "f"
    cluster_uploader.
Definition cluster_download
    : result bool * DistributedStorageClient.process (World := cluster) :=
  DistributedStorageClient.download_file
    (H := healthy_cluster (H := loopback)) (H0 := length_digest) no_faults "f" "out"
    (snd cluster_upload).

(* ===================================================================== *)
(** * Properties *)
(* ===================================================================== *)

Ltac unfold_M :=
  unfold mbind, mret, M_bind, M_ret, bind, ret, raise, get, modify,
    try_except, zoom in *.

(** ** The stable sort *)

Section SortedFacts.
Context {A : Type} (key : A -> Z).

Lemma sorted_insert_perm x l : sorted_insert key x l ≡ₚ x :: l.
Proof.
  induction l as [|y l IH]; simpl; [done|].
  destruct (key x <=? key y); [done|].
  rewrite IH. apply Permutation_swap.
Qed.

Lemma sorted_perm l : sorted key l ≡ₚ l.
Proof.
  induction l as [|x l IH]; simpl; [done|].
  rewrite sorted_insert_perm. by rewrite IH.
Qed.

Lemma sorted_insert_hd x l :
  HdRel (key_le key) x l -> sorted_insert key x l = x :: l.
Proof.
  destruct 1 as [|y l Hxy]; simpl; [done|].
  unfold key_le in Hxy. by rewrite (proj2 (Z.leb_le _ _) Hxy).
Qed.

Lemma sorted_insert_Sorted x l :
  Sorted (key_le key) l -> Sorted (key_le key) (sorted_insert key x l).
Proof.
  induction 1 as [|y l Hs IH Hhd]; simpl.
  - repeat constructor.
  - destruct (key x <=? key y) eqn:E.
    + apply Z.leb_le in E. repeat constructor; done.
    + apply Z.leb_gt in E. constructor; [done|].
      destruct Hhd as [|z l Hyz]; simpl.
      * constructor. unfold key_le. lia.
      * destruct (key x <=? key z); constructor; unfold key_le in *; lia.
Qed.

Lemma sorted_Sorted l : Sorted (key_le key) (sorted key l).
Proof.
  induction l; simpl; [constructor|]. by apply sorted_insert_Sorted.
Qed.

(** A list already in non-decreasing key order is left as it is. *)
Lemma sorted_of_Sorted l : Sorted (key_le key) l -> sorted key l = l.
Proof.
  induction 1 as [|x l Hs IH Hhd]; simpl; [done|].
  rewrite IH. by apply sorted_insert_hd.
Qed.

Lemma filter_sorted_insert (k : Z) x l :
  filter (fun a => key a = k) (sorted_insert key x l) =
  filter (fun a => key a = k) (x :: l).
Proof.
  induction l as [|y l IH]; simpl; [done|].
  destruct (key x <=? key y) eqn:E; [done|].
  apply Z.leb_gt in E.
  rewrite (filter_cons _ y), IH, !filter_cons.
  repeat case_decide; try done; lia.
Qed.

(** Stability: entries with equal keys keep their input order. *)
Lemma sorted_stable (k : Z) l :
  filter (fun a => key a = k) (sorted key l) =
  filter (fun a => key a = k) l.
Proof.
  induction l as [|x l IH]; simpl; [done|].
  rewrite filter_sorted_insert, !filter_cons. by rewrite IH.
Qed.
End SortedFacts.

(** ** The partitioner *)

Lemma set_files_set_files f g d : set_files f (set_files g d) = set_files f d.
Proof. done. Qed.

Section PartitionerFacts.
Context `{Sha256}.
Import FilePartitioner.

Lemma partition_loop_step size rest chunk_id :
  partition_loop size rest chunk_id =
    match file_read size rest with
    | Raise e => Raise e
    | Ok ([], _) => Ok []
    | Ok (c :: cs, rest') =>
        match partition_loop size rest' (chunk_id + 1) with
        | Ok chunks =>
            Ok ((chunk_id, c :: cs, sha256_hexdigest (c :: cs)) :: chunks)
        | Raise e => Raise e
        end
    end.
Proof.
  rewrite partition_loop_equation_1. unfold inspect.
  generalize (@eq_refl _ (file_read size rest)).
  generalize (file_read size rest) at 2 4 5.
  intros [[[|c cs] r]|e] Heq; simp partition_loop; reflexivity.
Qed.

(** A read length below -1 is refused at the first read. *)
Lemma partition_loop_raises size rest chunk_id :
  size < -1 ->
  partition_loop size rest chunk_id =
    Raise (Exn "ValueError" "read length must be non-negative or -1").
Proof.
  intros Hs. rewrite partition_loop_step. unfold file_read.
  destruct (size <? -1) eqn:E; [done|lia].
Qed.

Lemma partition_loop_nil size chunk_id :
  -1 <= size -> partition_loop size [] chunk_id = Ok [].
Proof.
  intros Hs. rewrite partition_loop_step. unfold file_read.
  destruct (size <? -1) eqn:E; [lia|].
  destruct (size <? 0); [done|]. by rewrite take_nil.
Qed.

Lemma partition_loop_zero rest chunk_id :
  partition_loop 0 rest chunk_id = Ok [].
Proof. rewrite partition_loop_step. unfold file_read. reflexivity. Qed.

(** With [f.read(-1)] the first read takes everything that is left. *)
Lemma partition_loop_whole b rest chunk_id :
  partition_loop (-1) (b :: rest) chunk_id =
    Ok [(chunk_id, b :: rest, sha256_hexdigest (b :: rest))].
Proof.
  rewrite partition_loop_step. unfold file_read. simpl.
  by rewrite partition_loop_nil.
Qed.

Lemma partition_loop_cons size b rest chunk_id :
  0 < size ->
  partition_loop size (b :: rest) chunk_id =
    match
      partition_loop size (drop (Z.to_nat size) (b :: rest)) (chunk_id + 1)
    with
    | Ok chunks =>
        Ok ((chunk_id, take (Z.to_nat size) (b :: rest),
             sha256_hexdigest (take (Z.to_nat size) (b :: rest))) :: chunks)
    | Raise e => Raise e
    end.
Proof.
  intros Hs. rewrite partition_loop_step. unfold file_read.
  destruct (size <? -1) eqn:E1; [lia|].
  destruct (size <? 0) eqn:E; [lia|].
  destruct (Z.to_nat size) as [|n] eqn:En; [lia|]. done.
Qed.

(** Induction on the unread part of the file, one window at a time. *)
Lemma window_ind (n : nat) (Hn : (0 < n)%nat) (P : bytes -> Prop) :
  P [] ->
  (forall b rest, P (drop n (b :: rest)) -> P (b :: rest)) ->
  forall rest, P rest.
Proof.
  intros Hnil Hcons rest.
  induction rest as [rest IH] using (induction_ltof1 _ (@length byte)).
  destruct rest as [|b rest]; [done|].
  apply Hcons, IH. unfold ltof. rewrite length_drop. simpl. lia.
Qed.

(** The loop returns for every read length that [f.read] accepts. *)
Lemma partition_loop_returns size rest chunk_id :
  -1 <= size -> exists chunks, partition_loop size rest chunk_id = Ok chunks.
Proof.
  intros Hs.
  destruct (decide (size = -1)) as [->|Hne1].
  { destruct rest; [rewrite partition_loop_nil by done|
                    rewrite partition_loop_whole]; by eexists. }
  destruct (decide (size = 0)) as [->|Hne0].
  { rewrite partition_loop_zero. by eexists. }
  assert (Hpos : 0 < size) by lia.
  assert (Hn : (0 < Z.to_nat size)%nat) by lia.
  revert chunk_id.
  induction rest as [|b rest IH] using (window_ind _ Hn); intros chunk_id.
  - rewrite partition_loop_nil by done. by eexists.
  - rewrite partition_loop_cons by done.
    destruct (IH (chunk_id + 1)) as [chunks ->]. by eexists.
Qed.

(** The chunks of a run that returns, one window at a time. *)
Lemma partition_loop_windows size (P : bytes -> Z -> list (Z * bytes * string) -> Prop) :
  0 < size ->
  (forall chunk_id, P [] chunk_id []) ->
  (forall b rest chunk_id chunks,
     partition_loop size (drop (Z.to_nat size) (b :: rest)) (chunk_id + 1)
       = Ok chunks ->
     P (drop (Z.to_nat size) (b :: rest)) (chunk_id + 1) chunks ->
     P (b :: rest) chunk_id
       ((chunk_id, take (Z.to_nat size) (b :: rest),
         sha256_hexdigest (take (Z.to_nat size) (b :: rest))) :: chunks)) ->
  forall rest chunk_id chunks,
    partition_loop size rest chunk_id = Ok chunks -> P rest chunk_id chunks.
Proof.
  intros Hs Hnil Hcons rest.
  assert (Hn : (0 < Z.to_nat size)%nat) by lia.
  induction rest as [|b rest IH] using (window_ind _ Hn);
    intros chunk_id chunks.
  - rewrite partition_loop_nil by lia. by intros [= <-].
  - rewrite partition_loop_cons by done.
    destruct (partition_loop size _ (chunk_id + 1)) as [chunks'|e] eqn:Hrest;
      [|done].
    intros [= <-]. apply Hcons; [done|]. by apply IH.
Qed.

(** The payloads, concatenated in read order, are the file. *)
Lemma partition_loop_concat size rest chunk_id chunks :
  0 < size ->
  partition_loop size rest chunk_id = Ok chunks ->
  concat (map (fun c => snd (id_payload c)) chunks) = rest.
Proof.
  intros Hs. revert rest chunk_id chunks.
  apply (partition_loop_windows size); [done|done|].
  intros b rest chunk_id chunks _ IH. cbn [map concat id_payload snd].
  rewrite IH. apply take_drop.
Qed.

(** The sequence ids count up from the starting id. *)
Lemma partition_loop_ids size rest chunk_id chunks :
  0 < size ->
  partition_loop size rest chunk_id = Ok chunks ->
  map (fun c => fst (id_payload c)) chunks =
  seqZ chunk_id (Z.of_nat (length chunks)).
Proof.
  intros Hs. revert rest chunk_id chunks.
  apply (partition_loop_windows size); [done|done|].
  intros b rest chunk_id chunks _ IH. cbn [map length id_payload fst].
  rewrite IH, Nat2Z.inj_succ. rewrite (seqZ_cons chunk_id) by lia.
  f_equal. f_equal; lia.
Qed.

(** One chunk per window: the number of chunks is the file size divided
    by the chunk size, rounded up. *)
Lemma partition_loop_length size rest chunk_id chunks :
  0 < size ->
  partition_loop size rest chunk_id = Ok chunks ->
  Z.of_nat (length chunks) = (Z.of_nat (length rest) + size - 1) / size.
Proof.
  intros Hs. revert rest chunk_id chunks.
  apply (partition_loop_windows size); [done| |].
  - intros _. simpl. symmetry. apply Z.div_small. lia.
  - intros b rest chunk_id chunks _ IH. cbn [length].
    rewrite Nat2Z.inj_succ, IH, length_drop. simpl length.
    generalize (length rest). intros m.
    destruct (decide (Z.of_nat (S m) <= size)) as [Hle|Hgt].
    + replace (S m - Z.to_nat size)%nat with 0%nat by lia.
      rewrite (Z.div_small (Z.of_nat 0 + size - 1)) by lia.
      apply (Z.div_unique_pos _ _ _ (Z.of_nat (S m) - 1)); lia.
    + replace (Z.of_nat (S m - Z.to_nat size) + size - 1)
        with (Z.of_nat (S m) - 1) by lia.
      replace (Z.of_nat (S m) + size - 1)
        with (Z.of_nat (S m) - 1 + 1 * size) by lia.
      rewrite Z.div_add by lia. lia.
Qed.

Lemma partition_loop_lookup size rest chunk_id chunks i :
  0 < size ->
  partition_loop size rest chunk_id = Ok chunks ->
  (i < length chunks)%nat ->
  chunks !! i =
    Some (chunk_id + Z.of_nat i, window size rest i,
          sha256_hexdigest (window size rest i)).
Proof.
  intros Hs Hrun. revert rest chunk_id chunks Hrun i.
  apply (partition_loop_windows size
           (fun rest chunk_id chunks => forall i, (i < length chunks)%nat ->
              chunks !! i = Some (chunk_id + Z.of_nat i, window size rest i,
                                  sha256_hexdigest (window size rest i))));
    [done| |].
  - intros chunk_id i. simpl. lia.
  - intros b rest chunk_id chunks _ IH [|i].
    + intros _. unfold window. cbn [lookup list_lookup Nat.mul drop].
      do 3 f_equal. lia.
    + cbn [length lookup list_lookup]. intros Hi.
      rewrite IH by lia. unfold window.
      rewrite drop_drop.
      replace (Z.to_nat size + i * Z.to_nat size)%nat
        with (S i * Z.to_nat size)%nat by lia.
      do 3 f_equal. lia.
Qed.

(** No payload is empty and none exceeds the chunk size. *)
Lemma partition_loop_payload_bounds size rest chunk_id chunks :
  0 < size ->
  partition_loop size rest chunk_id = Ok chunks ->
  Forall (fun c => 0 < Z.of_nat (length (snd (id_payload c))) <= size)
         chunks.
Proof.
  intros Hs. revert rest chunk_id chunks.
  apply (partition_loop_windows size); [done|constructor|].
  intros b rest chunk_id chunks _ IH. constructor; [|apply IH].
  cbn [id_payload snd]. rewrite length_take. simpl length. lia.
Qed.

(** Every chunk but the last is full. *)
Lemma partition_loop_full size rest chunk_id chunks i c :
  0 < size ->
  partition_loop size rest chunk_id = Ok chunks ->
  (S i < length chunks)%nat ->
  chunks !! i = Some c ->
  Z.of_nat (length (snd (id_payload c))) = size.
Proof.
  intros Hs Hrun. revert rest chunk_id chunks Hrun i c.
  apply (partition_loop_windows size
           (fun rest chunk_id chunks => forall i c,
              (S i < length chunks)%nat -> chunks !! i = Some c ->
              Z.of_nat (length (snd (id_payload c))) = size));
    [done| |].
  - intros chunk_id i c. simpl. lia.
  - intros b rest chunk_id chunks Hrest IH [|i] c; cbn [length lookup list_lookup].
    + intros Hlen [= <-]. cbn [id_payload snd].
      destruct (drop (Z.to_nat size) (b :: rest)) eqn:Hd.
      { rewrite partition_loop_nil in Hrest by lia.
        injection Hrest as <-. simpl in Hlen. lia. }
      assert (Hl : (length (drop (Z.to_nat size) (b :: rest)) > 0)%nat)
        by (rewrite Hd; simpl; lia).
      rewrite length_drop in Hl. rewrite length_take. lia.
    + intros Hlen Hc. apply (IH i); [lia|done].
Qed.

(** Whatever the read length, the chunks of a run that returns carry
    consecutive sequence ids, non-empty payloads and their digests. *)
Lemma partition_loop_chunks (P : Z -> list (Z * bytes * string) -> Prop) :
  (forall chunk_id, P chunk_id []) ->
  (forall chunk_id b bs chunks,
     P (chunk_id + 1) chunks ->
     P chunk_id ((chunk_id, b :: bs, sha256_hexdigest (b :: bs)) :: chunks)) ->
  forall size rest chunk_id chunks,
    partition_loop size rest chunk_id = Ok chunks -> P chunk_id chunks.
Proof.
  intros Hnil Hcons size rest.
  induction rest as [rest IH] using (induction_ltof1 _ (@length byte)).
  intros chunk_id chunks. rewrite partition_loop_step.
  destruct (file_read size rest) as [[[|b bs] rest']|e] eqn:Hread; [| |done].
  - by intros [= <-].
  - destruct (partition_loop size rest' (chunk_id + 1)) as [chunks'|e]
      eqn:Hrest; [|done].
    intros [= <-]. apply Hcons. eapply IH; [|exact Hrest].
    unfold ltof. eapply file_read_shrinks; eauto.
Qed.
End PartitionerFacts.

(** ** Reassembly *)

Section ReassemblyFacts.
Context `{Sha256}.
Import FilePartitioner.

Lemma reassemble_file_eq flt self chunks out :
  reassemble_file flt self chunks out =
  (fs_open_wb flt out;;
   for_each (sorted fst chunks) (write_payload flt out)).
Proof. reflexivity. Qed.

(** Successive writes on a fault-free handle append the payloads. *)
Lemma write_all flt out l acc d :
  (forall data, flt (OpWrite out data) = None) ->
  files d !! out = Some acc ->
  for_each l (write_payload flt out) d =
    (Ok tt, set_files (<[out := acc ++ concat (map snd l)]> (files d)) d).
Proof.
  intros Hw. revert acc d.
  induction l as [|[i data] l IH]; intros acc d Hacc.
  - simpl. unfold_M. rewrite app_nil_r, insert_id by done. by destruct d.
  - cbn [for_each]. unfold_M. cbn [write_payload]. unfold fs_write at 1.
    rewrite Hw, Hacc. cbn [default].
    rewrite (IH (acc ++ data)) by (simpl; apply lookup_insert_eq).
    cbn [files set_files map concat snd].
    by rewrite insert_insert_eq, set_files_set_files, app_assoc.
Qed.

Lemma reassemble_file_ok flt self chunks out d :
  writable flt out d ->
  reassemble_file flt self chunks out d =
    (Ok tt,
     set_files (<[out := concat (map snd (sorted fst chunks))]> (files d)) d).
Proof.
  intros (Ho & Hd & Hw). rewrite reassemble_file_eq. unfold_M.
  unfold fs_open_wb. rewrite Ho, bool_decide_eq_false_2 by done.
  rewrite (write_all _ _ _ []) by (done || (simpl; apply lookup_insert_eq)).
  cbn [files set_files app].
  by rewrite insert_insert_eq, set_files_set_files.
Qed.

(** Whatever the disk does, the only exceptions that leave
    [reassemble_file] are those of [open] and [write]. *)
Lemma write_all_raises flt out l d e d' :
  for_each l (write_payload flt out) d = (Raise e, d') ->
  exn_cls e = "OSError".
Proof.
  revert d. induction l as [|[i data] l IH]; intros d.
  - simpl. unfold_M. discriminate.
  - cbn [for_each]. unfold_M. cbn [write_payload]. unfold fs_write at 1.
    destruct (flt (OpWrite out data)).
    + by intros [= <- <-].
    + apply IH.
Qed.

Lemma reassemble_file_raises flt self chunks out d e d' :
  reassemble_file flt self chunks out d = (Raise e, d') ->
  exn_cls e = "OSError" \/ exn_cls e = "IsADirectoryError".
Proof.
  rewrite reassemble_file_eq. unfold_M. unfold fs_open_wb.
  destruct (flt (OpOpenW out)).
  { intros [= <- <-]. by left. }
  case_bool_decide.
  { intros [= <- <-]. by right. }
  intros Hr. left. eapply write_all_raises, Hr.
Qed.
End ReassemblyFacts.

Section PartitionerTheorems.
Context `{Sha256}.
Import FilePartitioner.

Lemma partition_file_readable flt self path d content :
  readable flt path d content ->
  partition_file flt self path d =
    (partition_loop (chunk_size self) content 0, d).
Proof.
  intros [Hf Hc]. unfold partition_file. unfold_M. unfold fs_open_rb.
  by rewrite Hf, Hc.
Qed.

(** A readable file is split, and the call returns, for every read length
    that [f.read] accepts. *)
Lemma partition_file_returns flt self path d content :
  -1 <= chunk_size self ->
  readable flt path d content ->
  exists chunks,
    partition_loop (chunk_size self) content 0 = Ok chunks /\
    partition_file flt self path d = (Ok chunks, d).
Proof.
  intros Hs Hr.
  destruct (partition_loop_returns (chunk_size self) content 0 Hs)
    as [chunks Hrun].
  exists chunks. by rewrite (partition_file_readable _ _ _ _ _ Hr), Hrun.
Qed.

(** C9.  Splitting a readable file with chunk size [C > 0] reads it in
    [C]-byte windows in order: the result has one chunk per window
    (the size divided by [C], rounded up), chunk [i] carries sequenceId
    [i], the [i]-th window as payload and its digest, every payload has
    between 1 and [C] bytes, and every chunk but the last has exactly [C].
    Splitting ["ABCDEFGHI"] with chunk size 4 gives (0,"ABCD"),
    (1,"EFGH"), (2,"I"). *)
Theorem partition_file_windows :
  (forall flt self path d content,
     0 < chunk_size self ->
     readable flt path d content ->
     exists chunks,
       partition_file flt self path d = (Ok chunks, d) /\
       Z.of_nat (length chunks) =
         (Z.of_nat (length content) + chunk_size self - 1)
           / chunk_size self /\
       (forall i, (i < length chunks)%nat ->
          chunks !! i =
            Some (Z.of_nat i, window (chunk_size self) content i,
                  sha256_hexdigest (window (chunk_size self) content i))) /\
       Forall (fun c => 0 < Z.of_nat (length (snd (id_payload c)))
                        <= chunk_size self) chunks /\
       (forall i c, (S i < length chunks)%nat -> chunks !! i = Some c ->
          Z.of_nat (length (snd (id_payload c))) = chunk_size self)) /\
  (forall flt d,
     readable flt "f" d (bytes_of "ABCDEFGHI") ->
     partition_file flt (Build 4) "f" d =
       (Ok [(0, bytes_of "ABCD", sha256_hexdigest (bytes_of "ABCD"));
            (1, bytes_of "EFGH", sha256_hexdigest (bytes_of "EFGH"));
            (2, bytes_of "I", sha256_hexdigest (bytes_of "I"))], d)).
Proof.
  split.
  - intros flt self path d content Hs Hr.
    destruct (partition_loop_returns (chunk_size self) content 0)
      as [chunks Hrun]; [lia|].
    exists chunks.
    split; [by rewrite (partition_file_readable _ _ _ _ _ Hr), Hrun|].
    split; [by eapply partition_loop_length|].
    split; [|split].
    + intros i Hi. by rewrite (partition_loop_lookup _ _ _ _ _ Hs Hrun).
    + by eapply partition_loop_payload_bounds.
    + intros i c. by eapply partition_loop_full.
  - intros flt d Hr. rewrite (partition_file_readable _ _ _ _ _ Hr).
    reflexivity.
Qed.

(** C1.  For a readable file and a chunk size [C > 0], writing the chunks
    produced by [partition_file] back with [reassemble_file] to a
    writable sink gives a file with exactly the original bytes, whatever
    the size of the file is relative to [C]. *)
Theorem reassemble_partition_roundtrip flt self path out content d :
  0 < chunk_size self ->
  readable flt path d content ->
  writable flt out d ->
  exists chunks d',
    partition_file flt self path d = (Ok chunks, d) /\
    reassemble_file flt self (map id_payload chunks) out d = (Ok tt, d') /\
    files d' !! out = Some content /\
    d' = set_files (<[out := content]> (files d)) d.
Proof.
  intros Hs Hr Hw.
  destruct (partition_loop_returns (chunk_size self) content 0)
    as [chunks Hrun]; [lia|].
  exists chunks.
  eexists. split; [by rewrite (partition_file_readable _ _ _ _ _ Hr), Hrun|].
  rewrite reassemble_file_ok by done.
  assert (Hsorted : sorted fst (map id_payload chunks) =
          map id_payload chunks).
  { apply sorted_of_Sorted, StronglySorted_Sorted.
    assert (Hid := partition_loop_ids _ _ _ _ Hs Hrun).
    revert Hid. generalize 0. clear Hrun. revert chunks.
    intros l chunk_id. revert chunk_id.
    induction l as [|c l IH]; intros chunk_id; [constructor|].
    cbn [map length]. rewrite Nat2Z.inj_succ, seqZ_cons by lia.
    intros [= Hc Hl]. replace (Z.pred (Z.succ (Z.of_nat (length l))))
      with (Z.of_nat (length l)) in Hl by lia.
    constructor; [by apply (IH (Z.succ chunk_id))|].
    apply Forall_forall. intros x Hx.
    assert (Hin : fst x ∈ seqZ (Z.succ chunk_id) (Z.of_nat (length l))).
    { rewrite <- Hl, <- (map_map id_payload fst).
      apply list_elem_of_fmap. by exists x. }
    apply elem_of_seqZ in Hin. unfold key_le. lia. }
  rewrite Hsorted, map_map, (partition_loop_concat _ _ _ _ Hs Hrun).
  split; [done|]. split; [|done]. simpl. apply lookup_insert_eq.
Qed.

(** C3 (amended).  [reassemble_file] makes no completeness check: for a
    chunk list in which a sequenceId of [0..N-1] is missing it never
    raises [IncompleteSequenceError], and on a writable sink it completes
    and writes the payloads that are present, in ascending sequenceId
    order. *)
Theorem reassemble_file_ignores_gaps flt self N chunks out d :
  missing_in_range N chunks ->
  ~ fails_with "IncompleteSequenceError"
      (reassemble_file flt self chunks out d) /\
  (writable flt out d ->
   exists d',
     reassemble_file flt self chunks out d = (Ok tt, d') /\
     files d' !! out = Some (concat (map snd (sorted fst chunks)))).
Proof.
  intros _. split.
  - intros (msg & d' & Hr).
    by destruct (reassemble_file_raises _ _ _ _ _ _ _ Hr).
  - intros Hw. eexists. split; [by apply reassemble_file_ok|].
    simpl. apply lookup_insert_eq.
Qed.

(** C10.  On a writable sink [reassemble_file] accepts any chunk list,
    duplicates of a sequenceId included, and writes the payload of every
    entry: the output is the concatenation of the payloads of a
    rearrangement of the whole list that is in non-decreasing sequenceId
    order and keeps entries of equal sequenceId in their arrival order. *)
Theorem reassemble_file_keeps_duplicates flt self chunks out d :
  writable flt out d ->
  exists ordered d',
    reassemble_file flt self chunks out d = (Ok tt, d') /\
    files d' !! out = Some (concat (map snd ordered)) /\
    ordered ≡ₚ chunks /\
    Sorted (key_le fst) ordered /\
    (forall k, filter (fun c => fst c = k) ordered =
               filter (fun c => fst c = k) chunks).
Proof.
  intros Hw. exists (sorted fst chunks). eexists.
  split; [by apply reassemble_file_ok|].
  split; [simpl; apply lookup_insert_eq|].
  split; [apply sorted_perm|].
  split; [apply sorted_Sorted|].
  intros k. apply sorted_stable.
Qed.
End PartitionerTheorems.

(** ** Concrete runs of the partitioner *)

Lemma sample_readable :
  readable no_faults "f" sample_disk (bytes_of "ABCDEFGHI").
Proof. split; reflexivity. Defined.

Lemma sample_writable d : dirs d = ∅ -> writable no_faults "out" d.
Proof.
  intros Hd. split; [reflexivity|]. split; [|reflexivity].
  rewrite Hd. apply not_elem_of_empty.
Defined.

Lemma partition_file_windows_witness :
  exists chunks,
    FilePartitioner.partition_file (H := length_digest) no_faults
      (FilePartitioner.Build 4) "f" sample_disk = (Ok chunks, sample_disk) /\
    Z.of_nat (length chunks) = (9 + 4 - 1) / 4.
Proof.
  destruct (proj1 (partition_file_windows (H := length_digest))
              no_faults (FilePartitioner.Build 4) "f" sample_disk
              (bytes_of "ABCDEFGHI") ltac:(simpl; lia) sample_readable)
    as (chunks & Hp & Hlen & _).
  exists chunks. split; [exact Hp | exact Hlen].
Defined.

Lemma reassemble_partition_roundtrip_witness :
  exists chunks d',
    FilePartitioner.partition_file (H := length_digest) no_faults
      (FilePartitioner.Build 4) "f" sample_disk = (Ok chunks, sample_disk) /\
    FilePartitioner.reassemble_file no_faults (FilePartitioner.Build 4)
      (map id_payload chunks) "out" sample_disk = (Ok tt, d') /\
    files d' !! "out" = Some (bytes_of "ABCDEFGHI").
Proof.
  destruct (reassemble_partition_roundtrip (H := length_digest)
              no_faults (FilePartitioner.Build 4) "f" "out"
              (bytes_of "ABCDEFGHI") sample_disk
              ltac:(simpl; lia) sample_readable
              (sample_writable sample_disk eq_refl))
    as (chunks & d' & Hp & Hr & Hf & _).
  exists chunks, d'. repeat split; assumption.
Defined.

(** The five size cases of the round trip, run on the definitions. *)
Example roundtrip_sizes :
  Forall (fun content =>
    exists chunks,
      FilePartitioner.partition_loop (H := length_digest) 4
        (bytes_of content) 0 = Ok chunks /\
      concat (map snd (sorted fst (map id_payload chunks))) =
        bytes_of content)
    [""; "AB"; "ABCD"; "ABCDEFGHI"; "ABCDEFGH"].
Proof.
  repeat (apply Forall_cons_2;
          [eexists; split; [vm_compute; reflexivity|reflexivity]|]).
  apply Forall_nil_2.
Qed.

Lemma gap_chunks_missing : missing_in_range 3 gap_chunks.
Proof.
  exists 1. split; [lia|]. unfold gap_chunks. simpl.
  rewrite !elem_of_cons, elem_of_nil. intros [?|[?|[]]]; discriminate.
Qed.

(** C3, as stated, fails: the list with sequenceIds 0 and 2 misses 1, and
    [reassemble_file] completes and writes ["AC"]. *)
Lemma reassemble_file_gap_counterexample :
  missing_in_range 3 gap_chunks /\
  FilePartitioner.reassemble_file no_faults
    (FilePartitioner.Build 4) gap_chunks "out" empty_disk =
    (Ok tt, set_files (<["out" := bytes_of "AC"]> ∅) empty_disk) /\
  ~ fails_with "IncompleteSequenceError"
      (FilePartitioner.reassemble_file no_faults
         (FilePartitioner.Build 4) gap_chunks "out" empty_disk).
Proof.
  assert (Hrun : FilePartitioner.reassemble_file
            no_faults (FilePartitioner.Build 4) gap_chunks "out" empty_disk =
          (Ok tt, set_files (<["out" := bytes_of "AC"]> ∅) empty_disk)).
  { by rewrite reassemble_file_ok by (by apply sample_writable). }
  split; [|split; [exact Hrun|]].
  - exact gap_chunks_missing.
  - rewrite Hrun. intros (msg & s & [=]).
Qed.

Lemma reassemble_file_ignores_gaps_witness :
  exists d',
    FilePartitioner.reassemble_file no_faults
      (FilePartitioner.Build 4) gap_chunks "out" empty_disk = (Ok tt, d') /\
    files d' !! "out" = Some (bytes_of "AC").
Proof.
  apply (reassemble_file_ignores_gaps no_faults
           (FilePartitioner.Build 4) 3 gap_chunks "out" empty_disk).
  - exact gap_chunks_missing.
  - by apply sample_writable.
Defined.

Lemma reassemble_file_keeps_duplicates_witness :
  exists ordered d',
    FilePartitioner.reassemble_file no_faults
      (FilePartitioner.Build 4) duplicate_chunks "out" empty_disk
      = (Ok tt, d') /\
    files d' !! "out" = Some (concat (map snd ordered)) /\
    ordered ≡ₚ duplicate_chunks.
Proof.
  destruct (reassemble_file_keeps_duplicates no_faults
              (FilePartitioner.Build 4) duplicate_chunks "out" empty_disk
              (sample_writable empty_disk eq_refl))
    as (ordered & d' & Hr & Hf & Hp & _).
  exists ordered, d'. repeat split; assumption.
Defined.

Example duplicates_all_written :
  FilePartitioner.reassemble_file no_faults
    (FilePartitioner.Build 4) duplicate_chunks "out" empty_disk =
    (Ok tt, set_files (<["out" := bytes_of "ABC"]> ∅) empty_disk).
Proof. by rewrite reassemble_file_ok by (by apply sample_writable). Qed.

(** ** Dictionaries *)

Section DictFacts.
Context {K V : Type} `{EqDecision K}.
Implicit Types (d : dict K V) (k : K) (v : V).

Lemma dict_get_set_eq k v d : dict_get k (dict_set k v d) = Some v.
Proof.
  induction d as [|[k' v'] d IH]; simpl.
  - by rewrite decide_True.
  - destruct (decide (k' = k)) as [->|Hne]; simpl.
    + by rewrite decide_True.
    + by rewrite decide_False.
Qed.

Lemma dict_get_set_ne k k' v d :
  k ≠ k' -> dict_get k' (dict_set k v d) = dict_get k' d.
Proof.
  intros Hne. induction d as [|[k0 v0] d IH]; simpl.
  - by rewrite decide_False.
  - destruct (decide (k0 = k)) as [->|Hne0]; simpl.
    + by rewrite !decide_False.
    + by rewrite IH.
Qed.

(** Last write wins, and the key does not move. *)
Lemma dict_set_set k v1 v2 d :
  dict_set k v2 (dict_set k v1 d) = dict_set k v2 d.
Proof.
  induction d as [|[k' v'] d IH]; simpl.
  - by rewrite decide_True.
  - destruct (decide (k' = k)) as [->|Hne]; simpl.
    + by rewrite decide_True.
    + by rewrite decide_False, IH.
Qed.

Lemma dict_mem_get k d :
  dict_mem k d = true <-> is_Some (dict_get k d).
Proof.
  unfold dict_mem. destruct (dict_get k d); split; try done.
  all: by intros [? [=]].
Qed.

Lemma dict_get_del_eq k d :
  NoDup (dict_keys d) -> dict_get k (dict_del k d) = None.
Proof.
  induction d as [|[k' v'] d IH]; simpl; [done|].
  intros [Hk Hd]%NoDup_cons.
  destruct (decide (k' = k)) as [->|Hne]; simpl.
  - clear IH Hd. induction d as [|[k0 v0] d IH]; simpl; [done|].
    simpl in Hk. apply not_elem_of_cons in Hk as [Hk0 Hk].
    rewrite decide_False by done. by apply IH.
  - rewrite decide_False by done. by apply IH.
Qed.

Lemma dict_set_fresh k v d :
  dict_get k d = None -> dict_set k v d = d ++ [(k, v)].
Proof.
  induction d as [|[k' v'] d IH]; simpl; [done|].
  destruct (decide (k' = k)); [done|]. intros Hd. by rewrite IH.
Qed.

Lemma dict_get_app_fresh k k' v d :
  dict_get k d = None -> k ≠ k' -> dict_get k (d ++ [(k', v)]) = None.
Proof.
  induction d as [|[k0 v0] d IH]; simpl.
  - intros _ Hne. by rewrite decide_False.
  - destruct (decide (k0 = k)); [done|]. apply IH.
Qed.
End DictFacts.

(** ** The storage node *)

Section StorageNodeFacts.
Import StorageNode.

Lemma set_fs_fs self : set_fs (fs self) self = self.
Proof. by destruct self. Qed.

(** [store_chunk] in closed form: the index changes only on the path on
    which all three disk operations have succeeded. *)
Lemma store_chunk_eq flt filename chunk_id chunk_data chunk_hash self :
  store_chunk flt filename chunk_id chunk_data chunk_hash self =
  match store_on_disk flt (file_dir_of self filename)
          (chunk_path_of self filename chunk_id) chunk_data (fs self) with
  | (Ok _, d) =>
      (Ok (StoreOk ("Chunk " +:+ pretty chunk_id +:+ " stored")
                   (node_id self)),
       set_metadata
         (store_in_index filename chunk_id
            (chunk_hash, chunk_path_of self filename chunk_id)
            (metadata self))
         (set_fs d self))
  | (Raise e, d) => (Ok (ErrorResp (str e)), set_fs d self)
  end.
Proof.
  unfold store_chunk, store_on_disk, on_disk, error_response. unfold_M.
  destruct self as [nid h p sd md d0].
  cbn [fs set_fs file_dir_of chunk_path_of storage_dir].
  destruct (fs_mkdir flt _ d0) as [[[]|e] d1]; [|done].
  cbn [fs set_fs].
  destruct (fs_open_wb flt _ d1) as [[[]|e] d2]; [|done].
  cbn [fs set_fs].
  destruct (fs_write flt _ chunk_data d2) as [[[]|e] d3]; [|done].
  unfold store_in_index, dict_mem, set_metadata, set_fs.
  cbn [fs metadata node_id host port storage_dir].
  destruct (dict_get filename md) as [entries|] eqn:Hget;
    cbn [fs metadata node_id host port storage_dir default].
  - by rewrite Hget.
  - rewrite dict_get_set_eq. cbn [fs metadata node_id host port storage_dir].
    by rewrite dict_set_set.
Qed.
End StorageNodeFacts.

Section StoreFacts.
Import StorageNode.

Lemma mkdir_twice (p : string) (ds : gset string) :
  {[p]} ∪ ({[p]} ∪ ds) = {[p]} ∪ ds.
Proof. by rewrite (assoc_L (∪)), union_idemp_L. Qed.

(** When the three disk operations of a store succeed. *)
Lemma store_on_disk_ok flt file_dir chunk_path data d d' :
  store_on_disk flt file_dir chunk_path data d = (Ok tt, d') <->
  flt (OpMkdir file_dir) = None /\ files d !! file_dir = None /\
  flt (OpOpenW chunk_path) = None /\
  (chunk_path ∉ {[file_dir]} ∪ dirs d) /\
  flt (OpWrite chunk_path data) = None /\
  d' = Disk (<[chunk_path := data]> (files d)) ({[file_dir]} ∪ dirs d).
Proof.
  destruct d as [fl ds].
  unfold store_on_disk. unfold_M.
  unfold fs_mkdir, fs_open_wb, fs_write, set_files, set_dirs.
  cbn [files dirs].
  destruct (flt (OpMkdir file_dir)); [naive_solver|].
  destruct (fl !! file_dir); [naive_solver|]. cbn [files dirs].
  destruct (flt (OpOpenW chunk_path)); [naive_solver|].
  case_bool_decide; [naive_solver|]. cbn [files dirs].
  rewrite lookup_insert_eq. cbn [default app].
  destruct (flt (OpWrite chunk_path data)); [naive_solver|].
  rewrite insert_insert_eq. naive_solver.
Qed.

(** What a store, successful or not, can have done to the disk. *)
Lemma store_on_disk_effect flt file_dir chunk_path data d r d' :
  store_on_disk flt file_dir chunk_path data d = (r, d') ->
  (dirs d' = dirs d \/ dirs d' = {[file_dir]} ∪ dirs d) /\
  (files d' = files d \/ exists x, files d' = <[chunk_path := x]> (files d)).
Proof.
  destruct d as [fl ds].
  unfold store_on_disk. unfold_M.
  unfold fs_mkdir, fs_open_wb, fs_write, set_files, set_dirs.
  cbn [files dirs].
  destruct (flt (OpMkdir file_dir)); [intros [= <- <-]; naive_solver|].
  destruct (fl !! file_dir); [intros [= <- <-]; naive_solver|].
  cbn [files dirs].
  destruct (flt (OpOpenW chunk_path)); [intros [= <- <-]; naive_solver|].
  case_bool_decide; [intros [= <- <-]; naive_solver|]. cbn [files dirs].
  rewrite lookup_insert_eq. cbn [default app].
  destruct (flt (OpWrite chunk_path data)); intros [= <- <-];
    cbn [files dirs]; rewrite insert_insert_eq; naive_solver.
Qed.

(** A store that succeeds leaves the same disk whether or not an earlier
    store of the same key, successful or not, ran before it. *)
Lemma store_on_disk_overwrites f1 f2 file_dir chunk_path data1 data2
    d0 r1 d1 d2 :
  store_on_disk f1 file_dir chunk_path data1 d0 = (r1, d1) ->
  store_on_disk f2 file_dir chunk_path data2 d1 = (Ok tt, d2) ->
  store_on_disk f2 file_dir chunk_path data2 d0 = (Ok tt, d2).
Proof.
  intros [Hdirs Hfiles]%store_on_disk_effect.
  rewrite !store_on_disk_ok.
  intros (Hm & Hdir & Ho & Hp & Hw & ->).
  assert (Hd : {[file_dir]} ∪ dirs d1 = {[file_dir]} ∪ dirs d0).
  { destruct Hdirs as [->| ->]; [done|apply mkdir_twice]. }
  rewrite Hd in Hp |- *.
  repeat split; try done.
  - destruct Hfiles as [<-|[x Hx]]; [done|].
    rewrite Hx in Hdir. by apply lookup_insert_None in Hdir as [? _].
  - f_equal. destruct Hfiles as [->|[x ->]]; [done|].
    apply insert_insert_eq.
Qed.
End StoreFacts.

Section StoreTheorems.
Import StorageNode.

Lemma index_entry_store filename chunk_id entry md :
  index_entry filename chunk_id
    (store_in_index filename chunk_id entry md) = Some entry.
Proof.
  unfold index_entry, store_in_index. rewrite dict_get_set_eq. simpl.
  apply dict_get_set_eq.
Qed.

Lemma store_in_index_twice filename chunk_id e1 e2 md :
  store_in_index filename chunk_id e2
    (store_in_index filename chunk_id e1 md) =
  store_in_index filename chunk_id e2 md.
Proof.
  unfold store_in_index. rewrite dict_get_set_eq. cbn [default].
  rewrite (dict_set_set filename). f_equal. apply dict_set_set.
Qed.

(** C6.  If opening or writing the chunk file fails, [store_chunk]
    answers with an error response and the index is as it was.  More
    generally [store_chunk] never raises; whenever it answers with an
    error the index is unchanged, and whenever it acknowledges, the chunk
    file holds the payload and the index entry of the key is the digest
    and path of this request. *)
Theorem store_chunk_failed_write
    flt filename chunk_id chunk_data chunk_hash self :
  (forall f,
     flt (OpOpenW (chunk_path_of self filename chunk_id)) = Some f \/
     flt (OpWrite (chunk_path_of self filename chunk_id) chunk_data)
       = Some f ->
     exists message self',
       store_chunk flt filename chunk_id chunk_data chunk_hash self =
         (Ok (ErrorResp message), self') /\
       metadata self' = metadata self) /\
  (exists response self',
     store_chunk flt filename chunk_id chunk_data chunk_hash self =
       (Ok response, self') /\
     match response with
     | ErrorResp _ => metadata self' = metadata self
     | StoreOk _ _ =>
         files (fs self') !! chunk_path_of self filename chunk_id
           = Some chunk_data /\
         index_entry filename chunk_id (metadata self') =
           Some (chunk_hash, chunk_path_of self filename chunk_id)
     | _ => False
     end).
Proof.
  rewrite store_chunk_eq.
  destruct (store_on_disk flt _ _ chunk_data (fs self))
    as [[[]|e] d] eqn:Hdisk.
  - apply store_on_disk_ok in Hdisk as (Hm & Hdir & Ho & Hp & Hw & ->).
    split.
    + intros f [Hf|Hf]; congruence.
    + eexists _, _. split; [done|]. destruct self; cbn. split.
      * apply lookup_insert_eq.
      * apply index_entry_store.
  - split.
    + intros _ _. eexists _, _. split; [done|]. by destruct self.
    + eexists _, _. split; [done|]. by destruct self.
Qed.

(** C8.  Storing a key again overwrites: when the second [store_chunk]
    of a key is acknowledged, the node (disk and index) is exactly as if
    only the second request had been made, whatever the first one stored
    and whether or not it succeeded; the chunk file holds the second
    payload and the index has the second digest. *)
Theorem store_chunk_last_write_wins
    f1 f2 filename chunk_id data1 hash1 data2 hash2 self r1 s1 r2 s2 :
  store_chunk f1 filename chunk_id data1 hash1 self = (r1, s1) ->
  store_chunk f2 filename chunk_id data2 hash2 s1 = (r2, s2) ->
  acknowledged r2 ->
  store_chunk f2 filename chunk_id data2 hash2 self = (r2, s2) /\
  files (fs s2) !! chunk_path_of self filename chunk_id = Some data2 /\
  index_entry filename chunk_id (metadata s2) =
    Some (hash2, chunk_path_of self filename chunk_id).
Proof.
  rewrite !store_chunk_eq. intros H1 H2 (message & nid & ->).
  assert (Hs1 : node_id s1 = node_id self /\
                storage_dir s1 = storage_dir self /\
                host s1 = host self /\ port s1 = port self /\
                exists r, store_on_disk f1 (file_dir_of self filename)
                            (chunk_path_of self filename chunk_id) data1
                            (fs self) = (r, fs s1) /\
                (metadata s1 = metadata self \/
                 metadata s1 = store_in_index filename chunk_id
                   (hash1, chunk_path_of self filename chunk_id)
                   (metadata self))).
  { destruct (store_on_disk f1 _ _ data1 (fs self)) as [[[]|e] d];
      injection H1 as <- <-; destruct self; cbn; eauto 10. }
  destruct Hs1 as (Hnid & Hsd & Hh & Hp & r & Hdisk1 & Hmd).
  assert (Hpath : chunk_path_of s1 filename chunk_id =
                  chunk_path_of self filename chunk_id)
    by (unfold chunk_path_of, file_dir_of; by rewrite Hsd).
  assert (Hdir : file_dir_of s1 filename = file_dir_of self filename)
    by (unfold file_dir_of; by rewrite Hsd).
  rewrite Hpath, Hdir in H2.
  destruct (store_on_disk f2 _ _ data2 (fs s1)) as [[[]|e] d2] eqn:Hdisk2;
    [|discriminate].
  rewrite (store_on_disk_overwrites _ _ _ _ _ _ _ _ _ _ Hdisk1 Hdisk2).
  injection H2 as Hm <- <-. rewrite Hnid.
  assert (Hidx : store_in_index filename chunk_id
                   (hash2, chunk_path_of self filename chunk_id)
                   (metadata s1) =
                 store_in_index filename chunk_id
                   (hash2, chunk_path_of self filename chunk_id)
                   (metadata self)).
  { destruct Hmd as [->| ->]; [done|apply store_in_index_twice]. }
  rewrite Hidx.
  apply store_on_disk_ok in Hdisk2 as (_ & _ & _ & _ & _ & ->).
  clear H1 Hdisk1 Hidx Hmd Hpath Hdir.
  split; [|split].
  - destruct s1, self; cbn in *. by subst.
  - destruct s1; cbn. apply lookup_insert_eq.
  - destruct s1; cbn. apply index_entry_store.
Qed.
End StoreTheorems.

Section DeleteTheorems.
Import StorageNode.

Lemma remove_chunk_frame flt item s r s' :
  remove_chunk flt item s = (r, s') -> s' = set_fs (fs s') s.
Proof.
  destruct item as [cid [h p]]. unfold remove_chunk, on_disk. unfold_M.
  destruct s as [nid ho po sd md d]. cbn [fs set_fs].
  destruct (fs_exists p d).
  - cbn. destruct (fs_remove flt p d) as [r0 d']. by intros [= <- <-].
  - by intros [= <- <-].
Qed.

Lemma remove_chunks_frame flt items s r s' :
  for_each items (remove_chunk flt) s = (r, s') -> s' = set_fs (fs s') s.
Proof.
  revert s. induction items as [|item items IH]; intros s.
  - simpl. unfold_M. intros [= <- <-]. by destruct s.
  - cbn [for_each]. unfold_M.
    destruct (remove_chunk flt item s) as [[[]|e] s1] eqn:H1.
    + intros Hrest. apply IH in Hrest. apply remove_chunk_frame in H1.
      rewrite Hrest, H1. by destruct s.
    + intros [= <- <-]. by apply remove_chunk_frame in H1.
Qed.


End DeleteTheorems.

(** ** Concrete runs of a storage node *)

Example stored_node_index :
  StorageNode.metadata stored_node =
    [("a.txt", [(0, ("h0", "data/a.txt/chunk_0.dat"));
                (1, ("h1", "data/a.txt/chunk_1.dat"))])].
Proof. reflexivity. Qed.

Lemma store_chunk_failed_write_witness :
  exists message self',
    StorageNode.store_chunk write_denied "a.txt" 0 (bytes_of "ABCD") "h0"
      fresh_node = (Ok (ErrorResp message), self') /\
    StorageNode.metadata self' = StorageNode.metadata fresh_node.
Proof.
  apply (proj1 (store_chunk_failed_write write_denied "a.txt" 0
                  (bytes_of "ABCD") "h0" fresh_node)
           (Fault "No space left on device" 2)).
  right. reflexivity.
Defined.

Lemma store_chunk_last_write_wins_witness :
  StorageNode.store_chunk no_faults "a.txt" 0 (bytes_of "WXYZ") "h9"
    fresh_node = (fst second_store, snd second_store) /\
  files (StorageNode.fs (snd second_store)) !! "data/a.txt/chunk_0.dat"
    = Some (bytes_of "WXYZ") /\
  index_entry "a.txt" 0 (StorageNode.metadata (snd second_store)) =
    Some ("h9", "data/a.txt/chunk_0.dat").
Proof.
  apply (store_chunk_last_write_wins no_faults no_faults "a.txt" 0
           (bytes_of "ABCD") "h0" (bytes_of "WXYZ") "h9" fresh_node
           (fst first_store) (snd first_store)
           (fst second_store) (snd second_store)).
  - apply surjective_pairing.
  - apply surjective_pairing.
  - eexists _, _. vm_compute. reflexivity.
Defined.



(** ** Replica placement *)

Section Comprehension.
Context {S A B : Type}.

(** A comprehension whose element expression neither raises nor changes
    the state yields one element per input, in order. *)
Lemma comprehension_Forall2 (f : A -> M S B) (P : A -> B -> Prop) xs s :
  (forall x, x ∈ xs -> exists y, f x s = (Ok y, s) /\ P x y) ->
  exists ys, comprehension f xs s = (Ok ys, s) /\ Forall2 P xs ys.
Proof.
  induction xs as [|x xs IH]; intros Hf.
  - exists []. split; [done|constructor].
  - destruct (Hf x) as (y & Hy & HP); [apply list_elem_of_here|].
    destruct IH as (ys & Hys & HPs).
    { intros x' Hx'. apply Hf. by apply list_elem_of_further. }
    exists (y :: ys). split; [|by constructor].
    cbn [comprehension]. unfold_M. by rewrite Hy, Hys.
Qed.
End Comprehension.

Section PlacementTheorems.
Context {World : Type}.
Import DistributedStorageClient.
Implicit Types (c : t) (p : process (World := World)).

Lemma py_mod_ok {S} (a b : Z) (s : S) :
  b ≠ 0 -> py_mod a b s = (Ok (a mod b), s).
Proof. intros Hb. unfold py_mod. by rewrite (proj2 (Z.eqb_neq b 0) Hb). Qed.

Lemma py_index_ok {S A} (l : list A) (i : Z) (s : S) :
  0 <= i < Z.of_nat (length l) ->
  exists x, py_index l i s = (Ok x, s) /\ l !! Z.to_nat i = Some x.
Proof.
  intros Hi. unfold py_index.
  destruct (i <? 0) eqn:E; [lia|].
  rewrite (proj2 (Z.leb_le 0 i)), (proj2 (Z.ltb_lt _ _)) by lia. simpl.
  destruct (lookup_lt_is_Some_2 l (Z.to_nat i)) as [x Hx]; [lia|].
  rewrite Hx. by exists x.
Qed.

Lemma replica_slot_range c chunk_id i :
  nodes c ≠ [] ->
  0 <= replica_slot c chunk_id i < Z.of_nat (length (nodes c)).
Proof.
  intros Hn. apply Z.mod_pos_bound.
  destruct (nodes c); [done|simpl; lia].
Qed.

(** Fewer replicas than nodes: no pool index is used twice. *)
Lemma replica_slot_inj c chunk_id i j :
  0 <= i < Z.of_nat (length (nodes c)) ->
  0 <= j < Z.of_nat (length (nodes c)) ->
  replica_slot c chunk_id i = replica_slot c chunk_id j -> i = j.
Proof.
  unfold replica_slot. generalize (Z.of_nat (length (nodes c))).
  intros n Hi Hj Heq.
  pose proof (Z.div_mod (chunk_id + i) n ltac:(lia)) as Ei.
  pose proof (Z.div_mod (chunk_id + j) n ltac:(lia)) as Ej.
  rewrite Heq in Ei.
  revert Ei Ej. generalize ((chunk_id + i) / n) ((chunk_id + j) / n)
    ((chunk_id + j) mod n). intros qi qj r Ei Ej.
  assert (Hk : i - j = n * (qi - qj)) by lia.
  destruct (decide (qi - qj = 0)) as [Hz|Hnz]; [rewrite Hz in Hk; lia|].
  exfalso. assert (Hcases : 1 <= qi - qj \/ qi - qj <= -1) by lia.
  destruct Hcases; nia.
Qed.

Lemma target_nodes_ok c chunk_id p :
  (nodes c ≠ [] \/ replication_factor c <= 0) ->
  exists targets,
    target_nodes c chunk_id p = (Ok targets, p) /\
    Forall2 (fun i n =>
               nodes c !! Z.to_nat (replica_slot c chunk_id i) = Some n)
      (seqZ 0 (Z.min (replication_factor c)
                     (Z.of_nat (length (nodes c))))) targets.
Proof.
  intros Hn. unfold target_nodes. apply comprehension_Forall2.
  intros i [Hi0 Hi]%elem_of_seqZ.
  assert (Hne : nodes c ≠ []).
  { destruct Hn as [?|?]; [done|]. lia. }
  unfold_M. rewrite py_mod_ok by (destruct (nodes c); [done|simpl; lia]).
  destruct (py_index_ok (nodes c) ((chunk_id + i) mod
              Z.of_nat (length (nodes c))) p) as (x & Hx & Hl).
  { by apply replica_slot_range. }
  exists x. by rewrite Hx.
Qed.

(** C4.  With replication factor [R] at most the number [N] of
    registered nodes, the replica set of a chunk is the list of the nodes
    at pool indices [(sequenceId + i) mod N] for [i = 0..R-1], in that
    order; it has [R] entries, no pool index occurs twice, and when the
    registered node identifiers are pairwise different so are those of
    the replica set.  With nodes 0, 1, 2 and [R = 2], chunk 0 goes to
    nodes [0,1], chunk 1 to [1,2] and chunk 2 to [2,0]. *)
Theorem target_nodes_round_robin :
  (forall c chunk_id p,
     replication_factor c <= Z.of_nat (length (nodes c)) ->
     exists targets,
       target_nodes c chunk_id p = (Ok targets, p) /\
       Forall2 (fun i n =>
                  nodes c !! Z.to_nat (replica_slot c chunk_id i) = Some n)
         (seqZ 0 (replication_factor c)) targets /\
       Z.of_nat (length targets) = Z.max 0 (replication_factor c) /\
       NoDup (map (replica_slot c chunk_id)
                  (seqZ 0 (replication_factor c))) /\
       (NoDup (map node_id (nodes c)) -> NoDup (map node_id targets))) /\
  (forall p,
     target_nodes three_nodes 0 p =
       (Ok [Node 0 "localhost" 9000; Node 1 "localhost" 9001], p) /\
     target_nodes three_nodes 1 p =
       (Ok [Node 1 "localhost" 9001; Node 2 "localhost" 9002], p) /\
     target_nodes three_nodes 2 p =
       (Ok [Node 2 "localhost" 9002; Node 0 "localhost" 9000], p)).
Proof.
  split; [|done].
  intros c chunk_id p HR.
  destruct (target_nodes_ok c chunk_id p) as (targets & Hrun & Hall).
  { destruct (nodes c); [right; simpl in HR; lia|by left]. }
  rewrite Z.min_l in Hall by done.
  exists targets. split; [done|]. split; [done|].
  assert (Hlen : length targets = Z.to_nat (replication_factor c)).
  { by rewrite <- (Forall2_length _ _ _ Hall), length_seqZ. }
  assert (Hslots : forall i j, i ∈ seqZ 0 (replication_factor c) ->
            j ∈ seqZ 0 (replication_factor c) ->
            replica_slot c chunk_id i = replica_slot c chunk_id j -> i = j).
  { intros i j Hi%elem_of_seqZ Hj%elem_of_seqZ.
    apply replica_slot_inj; lia. }
  split; [lia|]. split.
  - apply NoDup_fmap_2_strong; [done|apply NoDup_seqZ].
  - intros Hpool. apply NoDup_alt. intros a b nid Ha Hb.
    apply list_lookup_fmap_Some in Ha as (na & -> & Ha).
    apply list_lookup_fmap_Some in Hb as (nb & Hid & Hb).
    destruct (Forall2_lookup_r _ _ _ _ _ Hall Ha) as (i & Hi & Hsi).
    destruct (Forall2_lookup_r _ _ _ _ _ Hall Hb) as (j & Hj & Hsj).
    assert (Hsame : Z.to_nat (replica_slot c chunk_id i) =
                    Z.to_nat (replica_slot c chunk_id j)).
    { apply (proj1 (NoDup_alt _) Hpool _ _ (node_id na)).
      - by rewrite list_lookup_fmap, Hsi.
      - by rewrite list_lookup_fmap, Hsj, Hid. }
    assert (Hne : nodes c ≠ []) by (intros E; by rewrite E in Hsi).
    pose proof (replica_slot_range c chunk_id i Hne).
    pose proof (replica_slot_range c chunk_id j Hne).
    assert (Hij : i = j).
    { apply Hslots; [by eapply list_elem_of_lookup_2..|lia]. }
    apply lookup_seqZ in Hi as [-> _]. apply lookup_seqZ in Hj as [Hj _].
    lia.
Qed.
End PlacementTheorems.

(** ** Upload *)

Section PartitionIds.
Context `{Sha256}.
Import FilePartitioner.

(** The sequence ids count up from the starting id for every chunk
    size with which the loop returns, also a non-positive one. *)
Lemma partition_loop_ids_any size rest chunk_id chunks :
  partition_loop size rest chunk_id = Ok chunks ->
  map (fun c => fst (fst c)) chunks =
  seqZ chunk_id (Z.of_nat (length chunks)).
Proof.
  revert size rest chunk_id chunks.
  apply (partition_loop_chunks (fun chunk_id chunks =>
           map (fun c => fst (fst c)) chunks =
           seqZ chunk_id (Z.of_nat (length chunks)))); [done|].
  intros chunk_id b bs chunks IH. cbn [map length fst].
  rewrite IH, Nat2Z.inj_succ, (seqZ_cons chunk_id) by lia.
  f_equal. f_equal; lia.
Qed.
End PartitionIds.

Section UploadTheorems.
Context {World : Type} `{Network World} `{Sha256}.
Import DistributedStorageClient.
Implicit Types (p : process (World := World)).

Lemma store_replicas_ok filename chunk_id chunk_data chunk_hash
    targets stored p :
  exists stored' p',
    store_replicas filename chunk_id chunk_data chunk_hash targets stored p
      = (Ok stored', p') /\
    self p' = self p /\ local p' = local p /\
    (never_acknowledges -> stored' = stored).
Proof.
  revert stored p. induction targets as [|n targets IH]; intros stored p.
  - exists stored, p. by repeat split.
  - cbn [store_replicas]. unfold_M. unfold send_request.
    destruct (exchange n _ (world p)) as [resp w] eqn:Hex.
    edestruct IH as (stored' & p' & Hrun & Hself & Hlocal & Hnever).
    exists stored', p'. split; [exact Hrun|].
    split; [by rewrite Hself|]. split; [by rewrite Hlocal|].
    intros Hn. rewrite (Hnever Hn).
    specialize (Hn n filename chunk_id chunk_data chunk_hash (world p)).
    rewrite Hex in Hn. simpl in Hn. by rewrite Hn.
Qed.

(** One iteration of the loop over the chunks. *)
Lemma upload_chunk_ok filename chunk_id chunk_data chunk_hash p cm :
  nodes (self p) ≠ [] ->
  dict_get filename (file_mapping (self p)) = Some cm ->
  exists p' stored,
    upload_chunk filename (chunk_id, chunk_data, chunk_hash) p
      = (Ok tt, p') /\
    same_client p p' /\
    dict_get filename (file_mapping (self p')) =
      Some (dict_set chunk_id stored cm) /\
    (never_acknowledges -> stored = []).
Proof.
  intros Hn Hcm.
  destruct (target_nodes_ok (self p) chunk_id p) as (targets & Ht & _);
    [by left|].
  destruct (store_replicas_ok filename chunk_id chunk_data chunk_hash
              targets [] p) as (stored & p1 & Hs & Hself & Hlocal & Hnever).
  eexists _, stored. unfold upload_chunk. unfold_M. rewrite Ht, Hs.
  unfold record_chunk. unfold_M. rewrite Hself, Hcm.
  split; [reflexivity|]. split; [|split; [|done]].
  - unfold same_client. cbn. by rewrite Hlocal.
  - cbn. apply dict_get_set_eq.
Qed.

Lemma upload_chunks_ok filename chunks k p cm :
  nodes (self p) ≠ [] ->
  dict_get filename (file_mapping (self p)) = Some cm ->
  0 <= k ->
  map (fun c => fst (fst c)) chunks = seqZ k (Z.of_nat (length chunks)) ->
  dict_keys cm = seqZ 0 k ->
  exists p' cm',
    for_each chunks (upload_chunk filename) p = (Ok tt, p') /\
    same_client p p' /\
    dict_get filename (file_mapping (self p')) = Some cm' /\
    dict_keys cm' = seqZ 0 (k + Z.of_nat (length chunks)) /\
    (never_acknowledges ->
     Forall (fun entry => snd entry = []) cm ->
     Forall (fun entry => snd entry = []) cm').
Proof.
  revert k p cm.
  induction chunks as [|[[cid data] h] chunks IH];
    intros k p cm Hn Hcm Hk Hids Hkeys.
  - exists p, cm. split; [done|]. split; [done|]. split; [done|].
    split; [by rewrite Z.add_0_r|done].
  - cbn [for_each].
    destruct (upload_chunk_ok filename cid data h p cm Hn Hcm)
      as (p1 & stored & Hrun & (Hr & Hp & Hnodes & Hl) & Hcm1 & Hnever).
    unfold mbind, M_bind, bind. rewrite Hrun.
    cbn [map length fst] in Hids.
    rewrite Nat2Z.inj_succ, seqZ_cons in Hids by lia.
    injection Hids as -> Hids.
    replace (Z.pred (Z.succ (Z.of_nat (length chunks))))
      with (Z.of_nat (length chunks)) in Hids by lia.
    assert (Hfresh : dict_get k cm = None).
    { destruct (dict_get k cm) as [v|] eqn:Hg; [|done]. exfalso.
      assert (Hin : k ∈ dict_keys cm).
      { clear -Hg. induction cm as [|[k' v'] cm IH]; [done|].
        simpl in *. destruct (decide (k' = k)) as [->|].
        - apply list_elem_of_here.
        - apply list_elem_of_further. by apply IH. }
      rewrite Hkeys in Hin. apply elem_of_seqZ in Hin. lia. }
    rewrite dict_set_fresh in Hcm1 by done.
    destruct (IH (Z.succ k) p1 (cm ++ [(k, stored)]))
      as (p' & cm' & Hloop & (Hr' & Hp' & Hnodes' & Hl') & Hcm' & Hkeys'
          & Hnever'); try done.
    { by rewrite Hnodes. }
    { lia. }
    { unfold dict_keys in *. rewrite map_app, Hkeys. simpl.
      replace (Z.succ k) with (k + 1) by lia.
      rewrite (seqZ_app 0 k 1) by lia. done. }
    exists p', cm'. split; [done|].
    split; [unfold same_client; by rewrite Hr', Hp', Hnodes', Hl'|].
    split; [done|]. split.
    + rewrite Hkeys'. f_equal. cbn [length]. lia.
    + intros Hna Hall. apply Hnever'; [done|].
      apply Forall_app. split; [done|].
      constructor; [|constructor]. simpl. by apply Hnever.
Qed.

(** C2 (amended).  [upload_file] reports failure when no node is
    registered.  When at least one node is registered, the file can be
    read and the chunk size is a read length that [f.read] accepts (-1 or
    more), it reports success whatever the nodes answer: the file
    descriptor has one entry per chunk of [partition_file], in sequenceId
    order, and on a network where no node ever acknowledges a STORE,
    every chunk is recorded with an empty node list and the upload is
    still reported as successful.  With a chunk size below -1 the first read raises
    [ValueError]: the upload neither reports success nor failure, sends
    nothing and leaves the client as it was. *)
Theorem upload_file_reports_success flt filepath p :
  (nodes (self p) = [] -> upload_file flt filepath p = (Ok false, p)) /\
  (forall content,
     nodes (self p) ≠ [] ->
     -1 <= FilePartitioner.chunk_size (partitioner (self p)) ->
     readable flt filepath (local p) content ->
     exists chunks p' chunk_mapping,
       FilePartitioner.partition_file flt (partitioner (self p)) filepath
         (local p) = (Ok chunks, local p) /\
       upload_file flt filepath p = (Ok true, p') /\
       dict_get (basename filepath) (file_mapping (self p'))
         = Some chunk_mapping /\
       dict_keys chunk_mapping = seqZ 0 (Z.of_nat (length chunks)) /\
       (never_acknowledges ->
        Forall (fun entry => snd entry = []) chunk_mapping)) /\
  (forall content,
     nodes (self p) ≠ [] ->
     FilePartitioner.chunk_size (partitioner (self p)) < -1 ->
     readable flt filepath (local p) content ->
     exists e,
       upload_file flt filepath p = (Raise e, p) /\
       exn_cls e = "ValueError").
Proof.
  split; [|split].
  - intros Hn. unfold upload_file. unfold_M. by rewrite Hn.
  - intros content Hn Hsize Hread.
    destruct (partition_loop_returns
                (FilePartitioner.chunk_size (partitioner (self p))) content 0
                Hsize) as [chunks Hchunks].
    assert (Hpart := partition_file_readable flt (partitioner (self p))
                       _ _ _ Hread).
    rewrite Hchunks in Hpart.
    unfold upload_file. unfold_M.
    destruct (nodes (self p)) as [|n0 ns] eqn:Hnodes; [done|].
    unfold on_local. unfold_M. rewrite Hpart.
    set (p0 := set_self _ _).
    destruct (upload_chunks_ok (basename filepath) chunks 0 p0 [])
      as (p' & cm' & Hloop & _ & Hcm' & Hkeys & Hnever).
    { subst p0. destruct p as [[] ? ? ?]; cbn in *. by rewrite Hnodes. }
    { subst p0. destruct p as [[] ? ? ?]; cbn. apply dict_get_set_eq. }
    { lia. }
    { by eapply partition_loop_ids_any. }
    { done. }
    exists chunks, p', cm'.
    rewrite Hloop. split; [done|]. split; [done|]. split; [done|].
    split; [done|]. intros Hna. by apply Hnever.
  - intros content Hn Hsize Hread.
    assert (Hpart := partition_file_readable flt (partitioner (self p))
                       _ _ _ Hread).
    rewrite partition_loop_raises in Hpart by done.
    unfold upload_file. unfold_M.
    destruct (nodes (self p)) as [|n0 ns] eqn:Hnodes; [done|].
    unfold on_local. unfold_M. rewrite Hpart.
    exists (Exn "ValueError" "read length must be non-negative or -1").
    split; [by destruct p|reflexivity].
Qed.
End UploadTheorems.

(** ** Download *)

Section DownloadFacts.
Context {World : Type} `{Network World} `{Sha256}.
Import DistributedStorageClient.
Implicit Types (p : process (World := World)).

Lemma verify_chunk_true self data h :
  FilePartitioner.verify_chunk self data h = true <->
  sha256_hexdigest data = h.
Proof. unfold FilePartitioner.verify_chunk. apply bool_decide_eq_true. Qed.

Lemma verify_chunk_false self data h :
  FilePartitioner.verify_chunk self data h = false <->
  sha256_hexdigest data ≠ h.
Proof. unfold FilePartitioner.verify_chunk. apply bool_decide_eq_false. Qed.

Lemma scan_skip c filename chunk_id nid node_ids T got :
  find_node c nid = None ->
  scan c filename chunk_id node_ids T got ->
  scan c filename chunk_id (nid :: node_ids) T got.
Proof.
  intros Hnone. destruct got as [data|]; simpl.
  - intros (skipped & nid' & later & n & resp & T0 & -> & Hf & -> & Hm
            & Hrej & Hver).
    exists (nid :: skipped), nid', later, n, resp, T0.
    repeat split; try done.
    unfold registered. simpl. by rewrite Hnone.
  - intros [Hm Hrej]. split; [|done].
    unfold registered. simpl. by rewrite Hnone.
Qed.

Lemma scan_rejected c filename chunk_id nid n resp node_ids T got :
  find_node c nid = Some n ->
  rejected resp ->
  scan c filename chunk_id node_ids T got ->
  scan c filename chunk_id (nid :: node_ids)
       ((n, RETRIEVE filename chunk_id, resp) :: T) got.
Proof.
  intros Hsome Hr. destruct got as [data|]; simpl.
  - intros (skipped & nid' & later & n' & resp' & T0 & -> & Hf & -> & Hm
            & Hrej & Hver).
    exists (nid :: skipped), nid', later, n', resp',
      ((n, RETRIEVE filename chunk_id, resp) :: T0).
    repeat split; try done.
    + unfold registered in *. simpl. rewrite Hsome. simpl. by rewrite Hm.
    + by constructor.
  - intros [Hm Hrej]. split; [|by constructor].
    unfold registered in *. simpl. rewrite Hsome. simpl. by rewrite Hm.
Qed.

(** The loop over the replicas of one chunk performs a scan. *)
Lemma retrieve_chunk_scan filename chunk_id node_ids p got p' :
  retrieve_chunk filename chunk_id node_ids p = (Ok got, p') ->
  self p' = self p /\ local p' = local p /\
  exists T, sent p' = sent p ++ T /\
            scan (self p) filename chunk_id node_ids T got.
Proof.
  revert p. induction node_ids as [|nid node_ids IH]; intros p.
  - intros [= <- <-]. repeat split. exists [].
    split; [by rewrite app_nil_r|]. split; [done|constructor].
  - cbn [retrieve_chunk]. unfold_M.
    destruct (find_node (self p) nid) as [n|] eqn:Hfind.
    2:{ intros (Hs & Hl & T & Ht & Hscan)%IH.
        repeat split; try done. exists T. split; [done|].
        by apply scan_skip. }
    unfold send_request.
    destruct (exchange n (RETRIEVE filename chunk_id) (world p))
      as [resp w] eqn:Hex.
    set (p1 := Process _ _ _ _).
    assert (Hrejected : rejected resp ->
      retrieve_chunk filename chunk_id node_ids p1 = (Ok got, p') ->
      self p' = self p /\ local p' = local p /\
      exists T, sent p' = sent p ++ T /\
        scan (self p) filename chunk_id (nid :: node_ids) T got).
    { intros Hrej (Hs & Hl & T & Ht & Hscan)%IH.
      repeat split; try done.
      exists ((n, RETRIEVE filename chunk_id, resp) :: T).
      split; [rewrite Ht; subst p1; cbn; by rewrite <- app_assoc|].
      by apply scan_rejected. }
    destruct resp as [| data h k | | | msg]; try discriminate.
    + destruct (FilePartitioner.verify_chunk _ data h) eqn:Hv.
      * intros [= <- <-]. repeat split.
        exists [(n, RETRIEVE filename chunk_id, RetrieveOk data h k)].
        split; [done|].
        exists [], nid, node_ids, n, (RetrieveOk data h k), [].
        repeat split; try done. exists h, k. split; [done|].
        by apply verify_chunk_true in Hv.
      * apply Hrejected. simpl. by apply verify_chunk_false in Hv.
    + by apply Hrejected.
Qed.
End DownloadFacts.

Section DownloadTheorems.
Context {World : Type} `{Network World} `{Sha256}.
Import DistributedStorageClient.
Implicit Types (p : process (World := World)).

Lemma retrieve_all_scans filename cm chunk_ids chunks p got p' :
  retrieve_all filename cm chunk_ids chunks p = (Ok got, p') ->
  self p' = self p /\ local p' = local p /\
  exists Ts,
    sent p' = sent p ++ concat Ts /\
    match got with
    | Some chunks' =>
        exists datas,
          chunks' = chunks ++ zip chunk_ids datas /\
          Forall3 (chunk_scanned (self p) filename cm) chunk_ids Ts datas
    | None => chunk_failed (self p) filename cm chunk_ids Ts
    end.
Proof.
  revert chunks p. induction chunk_ids as [|cid chunk_ids IH];
    intros chunks p.
  - intros [= <- <-]. repeat split. exists [].
    split; [by rewrite app_nil_r|]. exists [].
    split; [by rewrite app_nil_r|constructor].
  - cbn [retrieve_all].
    destruct (dict_get cid cm) as [node_ids|] eqn:Hget; [|done].
    unfold_M.
    destruct (retrieve_chunk filename cid node_ids p)
      as [[[data|]|e] p1] eqn:Hchunk; [| |done].
    + apply retrieve_chunk_scan in Hchunk
        as (Hs1 & Hl1 & T & Ht & Hscan).
      intros (Hs & Hl & Ts & Hts & Hgot)%IH.
      split; [congruence|]. split; [congruence|].
      exists (T :: Ts).
      split; [rewrite Hts, Ht; simpl; by rewrite app_assoc|].
      rewrite Hs1 in Hgot.
      destruct got as [chunks'|].
      * destruct Hgot as (datas & -> & Hall).
        exists (data :: datas). split; [simpl; by rewrite <- app_assoc|].
        constructor; [by exists node_ids|done].
      * destruct Hgot as (done & c & later & Ts_done & T' & datas & nids
                          & -> & -> & Hall & Hc & Hsc).
        exists (cid :: done), c, later, (T :: Ts_done), T',
          (data :: datas), nids.
        split_and!; try done.
        constructor; [by exists node_ids|done].
    + apply retrieve_chunk_scan in Hchunk
        as (Hs1 & Hl1 & T & Ht & Hscan).
      intros [= <- <-]. repeat split; try done.
      exists [T]. split; [simpl; by rewrite app_nil_r|].
      exists [], cid, chunk_ids, [], T, [], node_ids.
      split_and!; try done. constructor.
Qed.

(** The client's lookup of a recorded identifier finds the node it
    denotes, and finds none for an identifier that denotes none. *)
Lemma find_node_denotes (c : t) nid n :
  find_node c nid = Some n -> denotes c nid n.
Proof.
  unfold find_node, denotes. induction (nodes c) as [|m l IH]; [done|].
  simpl. destruct (node_id m =? nid) eqn:Heq.
  - intros [= ->]. exists [], l. apply Z.eqb_eq in Heq. by repeat split.
  - intros (before & after & -> & Hid & Hbefore)%IH.
    exists (m :: before), after. apply Z.eqb_neq in Heq.
    split; [done|]. split; [done|]. by constructor.
Qed.

Lemma find_node_unknown (c : t) nid :
  find_node c nid = None -> unknown_id c nid.
Proof.
  unfold find_node, unknown_id. induction (nodes c) as [|m l IH];
    [constructor|].
  simpl. destruct (node_id m =? nid) eqn:Heq; [done|].
  intros Hnone. apply Z.eqb_neq in Heq. constructor; [done|by apply IH].
Qed.

Lemma registered_replicas_of (c : t) node_ids :
  replicas_of c node_ids (registered c node_ids).
Proof.
  unfold registered. induction node_ids as [|nid node_ids IH];
    [constructor|].
  cbn [omap list_omap]. destruct (find_node c nid) as [n|] eqn:Hfind.
  - apply replicas_known; [by apply find_node_denotes|done].
  - apply replicas_unknown; [by apply find_node_unknown|done].
Qed.

Lemma scan_replica_search (c : t) filename chunk_id node_ids T got :
  scan c filename chunk_id node_ids T got ->
  replica_search c filename chunk_id node_ids T got.
Proof.
  destruct got as [data|]; simpl.
  - intros (skipped & nid & later & n & resp & T0 & -> & Hf & -> & Hm
            & Hrej & Hver).
    exists skipped, nid, later, (registered c skipped), n, resp, T0.
    split; [done|]. split; [apply registered_replicas_of|].
    split; [by apply find_node_denotes|]. done.
  - intros [Hm Hrej]. exists (registered c node_ids).
    split; [apply registered_replicas_of|]. done.
Qed.

Lemma chunk_scanned_found (c : t) filename cm chunk_id T data :
  chunk_scanned c filename cm chunk_id T data ->
  chunk_found c filename cm chunk_id T data.
Proof.
  intros (node_ids & Hget & Hscan). exists node_ids.
  split; [done|]. by apply scan_replica_search.
Qed.

Lemma chunk_failed_lost (c : t) filename cm chunk_ids Ts :
  chunk_failed c filename cm chunk_ids Ts ->
  chunk_lost c filename cm chunk_ids Ts.
Proof.
  intros (done & chunk_id & later & Ts_done & T & datas & node_ids
          & -> & -> & Hall & Hget & Hscan).
  exists done, chunk_id, later, Ts_done, T, datas, node_ids.
  split; [done|]. split; [done|].
  split; [|split; [done|by apply scan_replica_search]].
  eapply Forall3_impl; [exact Hall|].
  intros cid T' data. apply chunk_scanned_found.
Qed.

Section Invariant.
Variable inv : World -> Prop.
Hypothesis inv_kept : forall n filename chunk_id w,
  inv w -> inv (snd (exchange n (RETRIEVE filename chunk_id) w)).
Hypothesis inv_answers : forall n filename chunk_id w,
  inv w -> chunk_or_error (fst (exchange n (RETRIEVE filename chunk_id) w)).

(** While the nodes stay in states where every answer to a RETRIEVE is a
    chunk or an error, the loop over the replicas never raises, and it
    ends without a chunk when every replica is rejected. *)
Lemma retrieve_chunk_returns filename chunk_id node_ids p :
  inv (world p) ->
  exists got p',
    retrieve_chunk filename chunk_id node_ids p = (Ok got, p') /\
    self p' = self p /\ inv (world p') /\
    ((forall nid n w, nid ∈ node_ids ->
        denotes (self p) nid n -> inv w ->
        rejected (fst (exchange n (RETRIEVE filename chunk_id) w))) ->
     got = None).
Proof.
  revert p.
  induction node_ids as [|nid node_ids IH]; intros p Hinv.
  - by exists None, p.
  - cbn [retrieve_chunk]. unfold_M.
    destruct (find_node (self p) nid) as [n|] eqn:Hfind.
    2:{ destruct (IH p Hinv) as (got & p' & Hrun & Hs & Hinv' & Hnone).
        exists got, p'. repeat split; try done.
        intros Hrej. apply Hnone. intros nid' n' w Hin.
        apply Hrej. by apply list_elem_of_further. }
    unfold send_request.
    pose proof (inv_answers n filename chunk_id (world p) Hinv) as Hshape.
    pose proof (inv_kept n filename chunk_id (world p) Hinv) as Hnext_inv.
    destruct (exchange n (RETRIEVE filename chunk_id) (world p))
      as [resp w] eqn:Hex.
    set (p1 := Process _ _ _ _).
    assert (Hnext : exists got p',
      retrieve_chunk filename chunk_id node_ids p1 = (Ok got, p') /\
      self p' = self p /\ inv (world p') /\
      ((forall nid0 n0 w0, nid0 ∈ nid :: node_ids ->
          denotes (self p) nid0 n0 -> inv w0 ->
          rejected (fst (exchange n0 (RETRIEVE filename chunk_id) w0))) ->
       got = None)).
    { destruct (IH p1 Hnext_inv) as (got & p' & Hrun & Hs & Hinv' & Hnone).
      exists got, p'. repeat split; try done.
      intros Hrej. apply Hnone. intros nid' n' w' Hin.
      apply Hrej. by apply list_elem_of_further. }
    simpl in Hshape. destruct resp as [| data h k | | | msg]; try done.
    destruct (FilePartitioner.verify_chunk _ data h) eqn:Hv; [|done].
    exists (Some data), p1. repeat split; try done.
    intros Hrej. exfalso.
    specialize (Hrej nid n (world p) (list_elem_of_here _ _)
                  (find_node_denotes _ _ _ Hfind) Hinv).
    rewrite Hex in Hrej. simpl in Hrej.
    by apply verify_chunk_true in Hv.
Qed.

Lemma retrieve_all_fails filename cm chunk_ids chunks chunk_id node_ids p :
  inv (world p) ->
  (forall cid, cid ∈ chunk_ids -> is_Some (dict_get cid cm)) ->
  chunk_id ∈ chunk_ids ->
  dict_get chunk_id cm = Some node_ids ->
  (forall nid n w, nid ∈ node_ids ->
     denotes (self p) nid n -> inv w ->
     rejected (fst (exchange n (RETRIEVE filename chunk_id) w))) ->
  exists p',
    retrieve_all filename cm chunk_ids chunks p = (Ok None, p').
Proof.
  revert chunks p.
  induction chunk_ids as [|cid chunk_ids IH];
    intros chunks p Hinv Hkeys Hin Hget Hrej.
  { by apply elem_of_nil in Hin. }
  cbn [retrieve_all].
  destruct (Hkeys cid (list_elem_of_here _ _)) as [nids Hnids].
  rewrite Hnids. unfold_M.
  destruct (retrieve_chunk_returns filename cid nids p Hinv)
    as (got & p1 & Hrun & Hs & Hinv1 & Hnone).
  rewrite Hrun. destruct got as [data|]; [|by eauto].
  destruct (decide (cid = chunk_id)) as [->|Hne].
  { rewrite Hget in Hnids. injection Hnids as <-.
    by specialize (Hnone Hrej). }
  apply IH; try done.
  - intros c Hc. apply Hkeys. by apply list_elem_of_further.
  - apply elem_of_cons in Hin as [->|]; done.
  - by rewrite Hs.
Qed.
End Invariant.

Lemma dict_get_elem_of_keys {V} (k : Z) (d : dict Z V) :
  k ∈ dict_keys d <-> is_Some (dict_get k d).
Proof.
  induction d as [|[k' v] d IH]; simpl.
  - split; [by intros ?%elem_of_nil|by intros [? [=]]].
  - rewrite elem_of_cons. destruct (decide (k' = k)) as [->|Hne].
    + split; [by eexists|by left].
    + rewrite <- IH. naive_solver.
Qed.

(** C5.  A download of a file that has a descriptor, when it returns, has
    searched for the chunks in ascending sequenceId order, each among its
    recorded replicas in recorded order: a RETRIEVE went to the first
    node of the pool registered under each recorded identifier, every
    answer before the accepted one was rejected, the accepted answer
    passed digest verification, and nothing was sent to the replicas
    recorded after it.  It returns [False] exactly when the search for
    some chunk ended with every replica rejected, and then the local disk
    is untouched.  In particular, when the nodes are and stay in states
    (unreachable, chunk not found, digest mismatch) in which every
    replica of some chunk answers its RETRIEVE with an error or a payload
    that fails verification, [download_file] returns [False] and writes
    nothing. *)
Theorem download_file_first_verified flt filename output_path p :
  (forall b p' chunk_mapping,
     download_file flt filename output_path p = (Ok b, p') ->
     dict_get filename (file_mapping (self p)) = Some chunk_mapping ->
     exists Ts,
       sent p' = sent p ++ concat Ts /\
       if b
       then exists datas,
              Forall3 (chunk_found (self p) filename chunk_mapping)
                (sorted id (dict_keys chunk_mapping)) Ts datas
       else local p' = local p /\
            chunk_lost (self p) filename chunk_mapping
              (sorted id (dict_keys chunk_mapping)) Ts) /\
  (forall (inv : World -> Prop) chunk_mapping chunk_id node_ids,
     inv (world p) ->
     (forall n filename' chunk_id' w,
        inv w -> inv (snd (exchange n (RETRIEVE filename' chunk_id') w))) ->
     (forall n filename' chunk_id' w,
        inv w ->
        chunk_or_error (fst (exchange n (RETRIEVE filename' chunk_id') w))) ->
     dict_get filename (file_mapping (self p)) = Some chunk_mapping ->
     dict_get chunk_id chunk_mapping = Some node_ids ->
     (forall nid n w, nid ∈ node_ids ->
        denotes (self p) nid n -> inv w ->
        rejected (fst (exchange n (RETRIEVE filename chunk_id) w))) ->
     exists p',
       download_file flt filename output_path p = (Ok false, p') /\
       local p' = local p).
Proof.
  split.
  - intros b p' cm. unfold download_file. unfold_M. intros Hrun Hcm.
    rewrite Hcm in Hrun.
    destruct (retrieve_all filename cm _ [] p) as [[[chunks|]|e] p1]
      eqn:Hall; [| |done].
    + apply retrieve_all_scans in Hall as (Hs & Hl & Ts & Hts & Hgot).
      revert Hrun. unfold on_local. unfold_M.
      destruct (FilePartitioner.reassemble_file _ _ _ _ _)
        as [[[]|e] d]; [|done].
      intros [= <- <-]. exists Ts. split; [done|].
      destruct Hgot as (datas & _ & Hscans). exists datas.
      eapply Forall3_impl; [exact Hscans|].
      intros cid T data. apply chunk_scanned_found.
    + apply retrieve_all_scans in Hall as (Hs & Hl & Ts & Hts & Hgot).
      injection Hrun as <- <-. exists Ts. split; [done|].
      split; [done|]. by apply chunk_failed_lost.
  - intros inv cm chunk_id node_ids Hinv Hkept Hwf Hcm Hget Hrej.
    unfold download_file. unfold_M. rewrite Hcm.
    destruct (retrieve_all_fails inv Hkept Hwf filename cm
                (sorted id (dict_keys cm)) [] chunk_id node_ids p)
      as (p' & Hall); try done.
    + intros cid Hc. apply dict_get_elem_of_keys.
      by rewrite (sorted_perm id) in Hc.
    + rewrite (sorted_perm id). apply dict_get_elem_of_keys. by eexists.
    + rewrite Hall. exists p'. split; [done|].
      by apply retrieve_all_scans in Hall as (_ & Hl & _).
Qed.
End DownloadTheorems.

(** ** The receive loops and the nodes behind them *)

Section ReceiveFacts.
Context `{Transport}.

Lemma recv_loop_step outstanding closed data :
  recv_loop outstanding closed data =
    match sock_recv outstanding closed with
    | Blocked => None
    | EndOfStream => Some data
    | Chunk len =>
        if len <? 4096 then Some (data + len)
        else recv_loop (outstanding - len) closed (data + len)
    end.
Proof.
  rewrite recv_loop_equation_1. unfold inspect.
  generalize (@eq_refl _ (sock_recv outstanding closed)).
  generalize (sock_recv outstanding closed) at 2 4 5.
  intros [len| |] Heq; simp recv_loop; reflexivity.
Qed.

(** When every [recv] finds a full buffer, the loop collects the whole
    message, unless the message ends on a buffer boundary and the peer
    keeps the connection open: then it is stuck after the last byte. *)
Lemma recv_loop_full_buffers len closed data :
  full_buffers -> 0 <= len ->
  recv_loop len closed data =
    if bool_decide (len mod 4096 = 0) && negb closed then None
    else Some (data + len).
Proof.
  intros Hfull. revert data.
  induction len as [len IH] using (well_founded_induction (Z.lt_wf 0)).
  intros data Hlen. rewrite recv_loop_step. unfold sock_recv.
  destruct (0 <? len) eqn:Hpos.
  - apply Z.ltb_lt in Hpos. specialize (Hfull len).
    replace (Z.max 1 (Z.min (arrived len) (Z.min 4096 len)))
      with (Z.min 4096 len) by lia.
    destruct (Z.min 4096 len <? 4096) eqn:Hshort.
    + apply Z.ltb_lt in Hshort.
      replace (Z.min 4096 len) with len by lia.
      rewrite bool_decide_eq_false_2; [done|].
      rewrite Z.mod_small by lia. lia.
    + apply Z.ltb_ge in Hshort.
      replace (Z.min 4096 len) with 4096 by lia.
      rewrite IH by lia.
      replace (len - 4096) with (len + (-1) * 4096) by lia.
      rewrite Z.mod_add by lia.
      replace (data + 4096 + (len + -1 * 4096)) with (data + len) by lia.
      done.
  - apply Z.ltb_ge in Hpos. assert (len = 0) as -> by lia.
    rewrite Z.add_0_r. by destruct closed.
Qed.

(** A response that the node has sent arrives once it has closed the
    connection, whatever its length. *)
Lemma receive_response_full_buffers resp :
  full_buffers -> receive_response resp = resp.
Proof.
  intros Hfull. unfold receive_response.
  destruct (decide (0 <= response_size resp)) as [Hpos|Hneg].
  - rewrite recv_loop_full_buffers by done.
    rewrite andb_false_r, Z.add_0_l.
    by rewrite (proj2 (Z.ltb_ge _ _)) by lia.
  - rewrite recv_loop_step. unfold sock_recv.
    rewrite (proj2 (Z.ltb_ge _ _)) by lia.
    by rewrite (proj2 (Z.ltb_ge _ _)) by lia.
Qed.

Lemma receive_response_shape resp :
  chunk_or_error resp -> chunk_or_error (receive_response resp).
Proof.
  intros Hresp. unfold receive_response.
  destruct (recv_loop _ _ _) as [n|]; [|done].
  by destruct (n <? response_size resp).
Qed.

(** A request that does not end on a buffer boundary is handled and
    answered. *)
Lemma connection_delivered flt req nd :
  full_buffers -> ends_short (request_size req) ->
  connection flt req nd =
    (match fst (StorageNode.handle_client flt req nd) with
     | Ok resp => resp
     | Raise e => ErrorResp (str e)
     end, snd (StorageNode.handle_client flt req nd)).
Proof.
  intros Hfull [Hpos Hmod]. unfold connection.
  rewrite recv_loop_full_buffers by (done || lia).
  rewrite bool_decide_eq_false_2 by done. cbn [andb]. rewrite Z.add_0_l.
  rewrite (proj2 (Z.ltb_ge _ _)) by lia.
  destruct (StorageNode.handle_client flt req nd) as [[resp|e] nd'];
    by rewrite receive_response_full_buffers.
Qed.

(** A request that ends on a buffer boundary is handled by the node, and
    the client, which has timed out, never learns of it. *)
Lemma connection_timed_out flt req nd :
  full_buffers ->
  0 < request_size req -> request_size req mod 4096 = 0 ->
  connection flt req nd =
    (ErrorResp "Node communication error: timed out",
     snd (StorageNode.handle_client flt req nd)).
Proof.
  intros Hfull Hpos Hmod. unfold connection.
  rewrite recv_loop_full_buffers by (done || lia).
  by rewrite bool_decide_eq_true_2 by done.
Qed.

(** Whatever the transport does, a node answers a RETRIEVE with a chunk
    or an error and is left as it was. *)
Lemma retrieve_chunk_answer flt filename chunk_id (s : StorageNode.t) :
  exists resp,
    StorageNode.retrieve_chunk flt filename chunk_id s = (Ok resp, s) /\
    chunk_or_error resp.
Proof.
  unfold StorageNode.retrieve_chunk, StorageNode.on_disk,
    StorageNode.error_response. unfold_M.
  destruct (dict_get filename (StorageNode.metadata s)) as [entries|];
    [|by eexists].
  destruct (dict_get chunk_id entries) as [[h p]|]; [|by eexists].
  unfold fs_open_rb.
  destruct (flt (OpOpenR p)); [rewrite set_fs_fs; by eexists|].
  destruct (files (StorageNode.fs s) !! p); rewrite set_fs_fs; by eexists.
Qed.

Lemma receive_response_error message :
  status_success (receive_response (ErrorResp message)) = false.
Proof.
  unfold receive_response. destruct (recv_loop _ _ _) as [n|]; [|done].
  by destruct (n <? _).
Qed.

(** On a disk where no write succeeds a node acknowledges no store. *)
Lemma store_chunk_full_disk flt filename chunk_id data h
    (s : StorageNode.t) :
  (forall path payload, flt (OpWrite path payload) <> None) ->
  exists message s',
    StorageNode.store_chunk flt filename chunk_id data h s =
      (Ok (ErrorResp message), s').
Proof.
  intros Hfull. rewrite store_chunk_eq.
  destruct (store_on_disk flt _ _ data (StorageNode.fs s))
    as [[[]|e] d] eqn:Hdisk; [|by eexists _, _].
  apply store_on_disk_ok in Hdisk as (_ & _ & _ & _ & Hw & _).
  by apply Hfull in Hw.
Qed.

Lemma serve_full_disk flt n filename chunk_id data h
    (w : list StorageNode.t) :
  (forall path payload, flt (OpWrite path payload) <> None) ->
  status_success (fst (serve flt n (STORE filename chunk_id data h) w))
    = false.
Proof.
  intros Hfull. induction w as [|nd w IH]; [done|]. cbn [serve].
  case_bool_decide.
  - unfold connection, StorageNode.handle_client, try_except.
    destruct (store_chunk_full_disk flt filename chunk_id data h nd Hfull)
      as (message & nd' & ->).
    destruct (recv_loop _ _ _) as [k|]; [|done].
    destruct (k <? _); cbn [fst]; apply receive_response_error.
  - by destruct (serve flt n _ w) as [resp w'].
Qed.

Lemma connection_retrieve flt filename chunk_id (s : StorageNode.t) :
  snd (connection flt (RETRIEVE filename chunk_id) s) = s /\
  chunk_or_error (fst (connection flt (RETRIEVE filename chunk_id) s)).
Proof.
  destruct (retrieve_chunk_answer flt filename chunk_id s)
    as (resp & Hrun & Hresp).
  unfold connection, StorageNode.handle_client, try_except.
  rewrite Hrun. cbn [snd].
  destruct (recv_loop _ _ _) as [n|]; [|done].
  destruct (n <? _); cbn [fst snd];
    (split; [done|by apply receive_response_shape]).
Qed.

Lemma serve_retrieve_frame flt n filename chunk_id (w : list StorageNode.t) :
  snd (serve flt n (RETRIEVE filename chunk_id) w) = w /\
  chunk_or_error (fst (serve flt n (RETRIEVE filename chunk_id) w)).
Proof.
  induction w as [|nd w [IHw IHr]]; [done|]. cbn [serve].
  case_bool_decide.
  - destruct (connection_retrieve flt filename chunk_id nd) as [Hnd Hresp].
    destruct (connection flt _ nd) as [resp nd']. simpl in *.
    by rewrite Hnd.
  - destruct (serve flt n _ w) as [resp w']. simpl in *. by rewrite IHw.
Qed.
End ReceiveFacts.

(** ** Concrete runs of the client *)

(** C2, as stated, fails: with every node unreachable no chunk obtains an
    acknowledging replica, every chunk is recorded with an empty node
    list, and [upload_file] returns [True]. *)
Lemma upload_file_no_ack_counterexample :
  fst unacknowledged_upload = Ok true /\
  DistributedStorageClient.file_mapping
    (DistributedStorageClient.self (snd unacknowledged_upload)) =
    [("f", [(0, []); (1, []); (2, [])])] /\
  Forall (fun e => status_success (snd e) = false)
    (DistributedStorageClient.sent (snd unacknowledged_upload)).
Proof. vm_compute. repeat constructor. Qed.

(** With full disks behind the network no store is acknowledged. *)
Lemma full_disks_never_acknowledge :
  never_acknowledges (H := cluster_network (H := loopback) write_denied).
Proof.
  intros n filename chunk_id data h w.
  by apply (serve_full_disk (H := loopback)).
Qed.

Lemma upload_file_reports_success_witness :
  exists p' chunk_mapping,
    DistributedStorageClient.upload_file
      (H := cluster_network (H := loopback) write_denied)
      (H0 := length_digest) no_faults "f" cluster_uploader
      = (Ok true, p') /\
    dict_get "f" (DistributedStorageClient.file_mapping
                    (DistributedStorageClient.self p')) = Some chunk_mapping /\
    dict_keys chunk_mapping = [0; 1; 2] /\
    Forall (fun entry => snd entry = []) chunk_mapping.
Proof.
  destruct (proj1 (proj2 (upload_file_reports_success
                     (H := cluster_network (H := loopback) write_denied)
                     (H0 := length_digest)
                     no_faults "f" cluster_uploader))
              (bytes_of "ABCDEFGHI") ltac:(discriminate) ltac:(simpl; lia)
              sample_readable)
    as (chunks & p' & cm & Hpart & Hrun & Hget & Hkeys & Hnever).
  exists p', cm. split; [exact Hrun|]. split; [exact Hget|].
  split; [|exact (Hnever full_disks_never_acknowledge)].
  rewrite Hkeys. injection Hpart as <-. reflexivity.
Defined.

Lemma target_nodes_round_robin_witness :
  exists targets,
    DistributedStorageClient.target_nodes three_nodes 1 uploader
      = (Ok targets, uploader) /\
    Z.of_nat (length targets) = 2.
Proof.
  destruct (proj1 (target_nodes_round_robin (World := unit))
              three_nodes 1 uploader ltac:(simpl; lia))
    as (targets & Hrun & _ & Hlen & _).
  exists targets. split; [exact Hrun|exact Hlen].
Defined.

Lemma fallback_download_succeeds :
  fallback_download = (Ok true, snd fallback_download).
Proof.
  assert (Hfst : fst fallback_download = Ok true)
    by (vm_compute; reflexivity).
  rewrite <- Hfst. apply surjective_pairing.
Qed.

Lemma three_nodes_denotes (c : DistributedStorageClient.t) nid n :
  DistributedStorageClient.nodes c =
    DistributedStorageClient.nodes three_nodes ->
  denotes c nid n ->
  n = Node nid "localhost" (9000 + nid) /\ nid ∈ [0; 1; 2].
Proof.
  intros Hpool (before & after & Hnodes & <- & _).
  assert (Hin : n ∈ DistributedStorageClient.nodes three_nodes).
  { rewrite <- Hpool, Hnodes. apply elem_of_app. right.
    apply list_elem_of_here. }
  cbn in Hin. rewrite !elem_of_cons, elem_of_nil in Hin.
  destruct Hin as [->|[->|[->|[]]]]; cbn; rewrite !elem_of_cons; auto.
Qed.

Lemma download_file_first_verified_witness :
  (exists Ts datas,
     DistributedStorageClient.sent (snd fallback_download) = concat Ts /\
     Forall3 (chunk_found (H := length_digest)
                (DistributedStorageClient.self (downloader [0; 1; 2]))
                "f" [(0, [0; 1; 2])])
       [0] Ts datas) /\
  (exists p',
     download_out replicas_down = (Ok false, p') /\
     DistributedStorageClient.local p' =
       DistributedStorageClient.local replicas_down).
Proof.
  split.
  - destruct (proj1 (download_file_first_verified
                       (H := flaky) (H0 := length_digest) no_faults
                       "f" "out" (downloader [0; 1; 2]))
                true (snd fallback_download) [(0, [0; 1; 2])]
                fallback_download_succeeds eq_refl)
      as (Ts & Hsent & datas & Hall).
    exists Ts, datas. split; [exact Hsent|exact Hall].
  - apply (proj2 (download_file_first_verified
                    (H := cluster_network (H := loopback) no_faults)
                    (H0 := length_digest) no_faults "f" "out"
                    replicas_down)
             (fun w => w = DistributedStorageClient.world replicas_down)
             [(0, [0; 1]); (1, [1; 2]); (2, [2; 0])] 0 [0; 1]).
    + reflexivity.
    + intros n filename' chunk_id' w ->.
      apply (serve_retrieve_frame (H := loopback)).
    + intros n filename' chunk_id' w _.
      apply (serve_retrieve_frame (H := loopback)).
    + reflexivity.
    + reflexivity.
    + intros nid n w Hin Hden ->.
      destruct (three_nodes_denotes _ nid n eq_refl Hden) as [-> _].
      rewrite !elem_of_cons, elem_of_nil in Hin.
      destruct Hin as [->|[->|[]]]; vm_compute; exact I.
Defined.

(** Fallback: the first replica is unreachable, the second is corrupted,
    the third is healthy; the download succeeds with the third answer and
    the three exchanges are made in recorded order. *)
Example download_falls_back :
  let out := DistributedStorageClient.download_file
               (H := flaky) (H0 := length_digest) no_faults "f" "out"
               (downloader [0; 1; 2]) in
  fst out = Ok true /\
  files (DistributedStorageClient.local (snd out)) !! "out"
    = Some (bytes_of "ABCD") /\
  map (fun e => node_id (fst (fst e)))
      (DistributedStorageClient.sent (snd out)) = [0; 1; 2].
Proof. vm_compute. repeat split; reflexivity. Qed.

(** The first replica that verifies ends the scan: node 2 answers, and
    nodes 0 and 1 after it are never contacted. *)
Example download_stops_at_first_verified :
  let out := DistributedStorageClient.download_file
               (H := flaky) (H0 := length_digest) no_faults "f" "out"
               (downloader [2; 0; 1]) in
  fst out = Ok true /\
  map (fun e => node_id (fst (fst e)))
      (DistributedStorageClient.sent (snd out)) = [2].
Proof. vm_compute. split; reflexivity. Qed.

(** A chunk size that [f.read] refuses: the upload raises at the first
    read, before a descriptor is created or a request is sent. *)
Example upload_refused_read_length :
  fst refused_size_upload =
    Raise (Exn "ValueError" "read length must be non-negative or -1") /\
  DistributedStorageClient.file_mapping
    (DistributedStorageClient.self (snd refused_size_upload)) = [] /\
  DistributedStorageClient.sent (snd refused_size_upload) = [].
Proof. vm_compute. repeat split; reflexivity. Qed.

(** ** End to end: the client against running storage nodes *)

(** Upload places chunk [i] on nodes [i] and [i + 1 mod 3]; a download
    from the same nodes writes the original bytes. *)
Example upload_then_download :
  fst (after_upload no_faults three_servers) = Ok true /\
  DistributedStorageClient.file_mapping
    (DistributedStorageClient.self (snd (after_upload no_faults three_servers)))
    = [("f", [(0, [0; 1]); (1, [1; 2]); (2, [2; 0])])] /\
  fst (download_out (snd (after_upload no_faults three_servers))) = Ok true /\
  files (DistributedStorageClient.local
           (snd (download_out (snd (after_upload no_faults three_servers)))))
    !! "out" = Some (bytes_of "ABCDEFGHI").
Proof. vm_compute. repeat split; reflexivity. Qed.

(** With node 0 gone every chunk still has a live replica. *)
Example download_survives_one_node :
  fst (download_out
         (with_world
            (drop 1 (DistributedStorageClient.world
                       (snd (after_upload no_faults three_servers))))
            (snd (after_upload no_faults three_servers)))) = Ok true.
Proof. vm_compute. reflexivity. Qed.

(** With nodes 0 and 1 gone chunk 0 has no replica left: the download
    fails and no output file appears. *)
Example download_fails_without_replicas :
  fst (download_out
         (with_world
            (drop 2 (DistributedStorageClient.world
                       (snd (after_upload no_faults three_servers))))
            (snd (after_upload no_faults three_servers)))) = Ok false /\
  files (DistributedStorageClient.local
           (snd (download_out
                   (with_world
                      (drop 2 (DistributedStorageClient.world
                                 (snd (after_upload no_faults three_servers))))
                      (snd (after_upload no_faults three_servers))))))
    !! "out" = None.
Proof. vm_compute. split; reflexivity. Qed.

(** When the disk of every node is full, every store is answered with an
    error, every chunk is recorded without replicas, and the upload still
    returns [True]. *)
Example upload_on_full_disks :
  fst (after_upload write_denied three_servers) = Ok true /\
  DistributedStorageClient.file_mapping
    (DistributedStorageClient.self
       (snd (after_upload write_denied three_servers)))
    = [("f", [(0, []); (1, []); (2, [])])].
Proof. vm_compute. split; reflexivity. Qed.

(** A request that fills its last buffer: the node waits for more, the
    client times out and reports an error, and the node stores the chunk
    all the same once the client has gone. *)
Example store_on_buffer_boundary :
  fst boundary_store = ErrorResp "Node communication error: timed out" /\
  (exists nd,
     snd boundary_store !! 0%nat = Some nd /\
     index_entry "f" 0 (StorageNode.metadata nd) =
       Some ("h0", "n0/f/chunk_0.dat") /\
     files (StorageNode.fs nd) !! "n0/f/chunk_0.dat" =
       Some (repeat Byte.x00 4029)).
Proof.
  split; [vm_compute; reflexivity|].
  eexists. split; [vm_compute; reflexivity|].
  split; vm_compute; reflexivity.
Qed.

(** A request that arrives in two pieces: the node's loop stops at the
    first, short one, unpickling fails, and nothing is stored; the error
    response is cut in the same way on its way back. *)
Example store_cut_short :
  fst cut_store =
    ErrorResp "Node communication error: pickle data was truncated" /\
  snd cut_store = three_servers.
Proof. split; vm_compute; reflexivity. Qed.

(* ===================================================================== *)
(** * Further properties of the code *)
(* ===================================================================== *)

(** ** The partitioner: digests, degenerate chunk sizes, arrival order *)

Section PartitionerMore.
Context `{Sha256}.
Import FilePartitioner.

Lemma partition_loop_verifies self size rest chunk_id chunks :
  partition_loop size rest chunk_id = Ok chunks ->
  Forall (fun c => verify_chunk self (snd (fst c)) (snd c) = true) chunks.
Proof.
  revert size rest chunk_id chunks.
  apply (partition_loop_chunks (fun _ chunks =>
           Forall (fun c => verify_chunk self (snd (fst c)) (snd c) = true)
                  chunks)); [constructor|].
  intros chunk_id b bs chunks IH. constructor; [|done].
  unfold verify_chunk. by apply bool_decide_eq_true.
Qed.

(** X1.  Every chunk that [partition_file] produces passes
    [verify_chunk] against the digest it was tagged with, for every chunk
    size that [f.read] accepts as a read length (-1 or more). *)
Theorem partition_file_chunks_verify flt self path d content :
  -1 <= chunk_size self ->
  readable flt path d content ->
  exists chunks,
    partition_file flt self path d = (Ok chunks, d) /\
    Forall (fun c => verify_chunk self (snd (fst c)) (snd c) = true) chunks.
Proof.
  intros Hs Hr.
  destruct (partition_loop_returns (chunk_size self) content 0 Hs)
    as [chunks Hrun].
  exists chunks. rewrite (partition_file_readable _ _ _ _ _ Hr).
  split; [by rewrite Hrun|]. by eapply partition_loop_verifies.
Qed.

(** X2.  Degenerate chunk sizes.  With chunk size 0 the first read is
    empty, so [partition_file] returns no chunks whatever the file holds.
    With chunk size -1 the first read takes the whole file: a non-empty
    file becomes the single chunk 0.  With a chunk size below -1 the
    first read raises [ValueError], also on an empty file, and the disk is
    left alone. *)
Theorem partition_file_degenerate_sizes flt self path d content :
  readable flt path d content ->
  (chunk_size self = 0 -> partition_file flt self path d = (Ok [], d)) /\
  (chunk_size self = -1 -> content <> [] ->
   partition_file flt self path d =
     (Ok [(0, content, sha256_hexdigest content)], d)) /\
  (chunk_size self < -1 ->
   partition_file flt self path d =
     (Raise (Exn "ValueError" "read length must be non-negative or -1"),
      d)).
Proof.
  intros Hr. rewrite (partition_file_readable _ _ _ _ _ Hr).
  split; [|split].
  - intros ->. by rewrite partition_loop_zero.
  - intros -> Hne. destruct content as [|b bs]; [done|].
    by rewrite partition_loop_whole.
  - intros Hneg. by rewrite partition_loop_raises.
Qed.

(** A missing or unopenable source makes [partition_file] raise and
    leaves the disk alone. *)
Lemma partition_file_unreadable flt self path d :
  flt (OpOpenR path) <> None \/ files d !! path = None ->
  exists e, partition_file flt self path d = (Raise e, d) /\
            (exn_cls e = "OSError" \/ exn_cls e = "FileNotFoundError").
Proof.
  intros Hbad. unfold partition_file. unfold_M. unfold fs_open_rb.
  destruct (flt (OpOpenR path)) as [f|]; [eexists; split; [done|by left]|].
  destruct Hbad as [? | ->]; [done|]. eexists. split; [done|by right].
Qed.
End PartitionerMore.

Section ArrivalOrder.
Context {A : Type} (key : A -> Z).

Lemma key_le_trans : Transitive (key_le key).
Proof. intros x y z. unfold key_le. lia. Qed.

Lemma NoDup_key_inj (l : list A) x y :
  NoDup (map key l) -> x ∈ l -> y ∈ l -> key x = key y -> x = y.
Proof.
  induction l as [|a l IH]; simpl; [by intros _ ?%elem_of_nil|].
  intros [Ha Hl]%NoDup_cons [->|Hx]%elem_of_cons [->|Hy]%elem_of_cons Hk;
    try done.
  - exfalso. apply Ha. rewrite Hk. apply list_elem_of_fmap. by exists y.
  - exfalso. apply Ha. rewrite <- Hk. apply list_elem_of_fmap. by exists x.
  - by apply IH.
Qed.

(** With pairwise different keys the sorted list does not depend on the
    input order. *)
Lemma sorted_perm_eq (l1 l2 : list A) :
  NoDup (map key l1) -> l1 ≡ₚ l2 -> sorted key l1 = sorted key l2.
Proof.
  intros Hnd Hp.
  apply (Sorted_unique_strong (key_le key) (Transitive0 := key_le_trans)).
  - intros x1 x2 Hx1 Hx2 H12 H21.
    apply (NoDup_key_inj l1); try done.
    + by rewrite (sorted_perm key) in Hx1.
    + rewrite (sorted_perm key) in Hx2. by rewrite Hp.
    + unfold key_le in *. lia.
  - apply sorted_Sorted.
  - apply sorted_Sorted.
  - by rewrite !(sorted_perm key).
Qed.
End ArrivalOrder.

Section ReassemblyMore.
Import FilePartitioner.

(** X3.  Reassembly does not depend on the arrival order: two chunk
    lists with the same entries and pairwise different sequenceIds give
    the same result, whatever the disk does. *)
Theorem reassemble_file_any_arrival_order flt self chunks chunks' out d :
  NoDup (map fst chunks) ->
  chunks ≡ₚ chunks' ->
  reassemble_file flt self chunks out d =
  reassemble_file flt self chunks' out d.
Proof.
  intros Hnd Hp. rewrite !reassemble_file_eq.
  by rewrite (sorted_perm_eq fst chunks chunks').
Qed.

(** What the loop of writes leaves in the sink: with [acc] in the file
    before, a prefix of the payloads has been appended, all of them when
    the loop completes. *)
Lemma write_all_prefix flt out l acc d r d' :
  files d !! out = Some acc ->
  for_each l (write_payload flt out) d = (r, d') ->
  exists pre,
    d' = set_files (<[out := acc ++ pre]> (files d)) d /\
    pre `prefix_of` concat (map snd l) /\
    (r = Ok tt -> pre = concat (map snd l)).
Proof.
  revert acc d. induction l as [|[i data] l IH]; intros acc d Hacc.
  - simpl. unfold_M. intros [= <- <-]. exists [].
    rewrite app_nil_r, insert_id by done. split; [by destruct d|done].
  - cbn [for_each]. unfold_M. cbn [write_payload]. unfold fs_write at 1.
    rewrite Hacc. cbn [default map concat snd].
    destruct (flt (OpWrite out data)) as [f|].
    + intros [= <- <-]. exists (take (fault_written f) data).
      split; [done|]. split; [|done].
      apply prefix_app_r, prefix_take.
    + intros Hrest.
      destruct (IH (acc ++ data) _ (lookup_insert_eq _ _ _) Hrest)
        as (pre & -> & Hpre & Hfull).
      exists (data ++ pre). cbn [files set_files].
      rewrite insert_insert_eq, set_files_set_files, app_assoc.
      split; [done|]. split; [by apply prefix_app|].
      intros Hok. by rewrite Hfull.
Qed.

(** X4.  [reassemble_file] is not atomic but it is contained: whatever
    the disk does, it changes nothing but the output path; if the sink
    cannot be opened nothing changes at all; otherwise the output file is
    left holding a prefix of the payloads in ascending sequenceId order,
    and the whole of it whenever the call returns normally. *)
Theorem reassemble_file_writes_prefix flt self chunks out d r d' :
  reassemble_file flt self chunks out d = (r, d') ->
  d' = d \/
  exists pre,
    d' = set_files (<[out := pre]> (files d)) d /\
    pre `prefix_of` concat (map snd (sorted fst chunks)) /\
    (r = Ok tt -> pre = concat (map snd (sorted fst chunks))).
Proof.
  rewrite reassemble_file_eq. unfold_M. unfold fs_open_wb.
  destruct (flt (OpOpenW out)); [intros [= <- <-]; by left|].
  case_bool_decide; [intros [= <- <-]; by left|].
  intros Hloop. right.
  destruct (write_all_prefix _ _ _ [] _ _ _ (lookup_insert_eq _ _ _) Hloop)
    as (pre & -> & Hpre & Hfull).
  exists pre. cbn [files set_files app].
  by rewrite insert_insert_eq, set_files_set_files.
Qed.
End ReassemblyMore.

Lemma partition_file_chunks_verify_witness :
  exists chunks,
    FilePartitioner.partition_file (H := length_digest) no_faults
      (FilePartitioner.Build 4) "f" sample_disk = (Ok chunks, sample_disk) /\
    Forall (fun c => FilePartitioner.verify_chunk (H := length_digest)
                       (FilePartitioner.Build 4) (snd (fst c)) (snd c) = true)
           chunks.
Proof.
  apply (partition_file_chunks_verify (H := length_digest) no_faults
           (FilePartitioner.Build 4) "f" sample_disk (bytes_of "ABCDEFGHI")).
  - simpl. lia.
  - exact sample_readable.
Defined.

Lemma partition_file_degenerate_sizes_witness :
  FilePartitioner.partition_file (H := length_digest) no_faults
    (FilePartitioner.Build 0) "f" sample_disk = (Ok [], sample_disk) /\
  FilePartitioner.partition_file (H := length_digest) no_faults
    (FilePartitioner.Build (-1)) "f" sample_disk =
    (Ok [(0, bytes_of "ABCDEFGHI", length_digest (bytes_of "ABCDEFGHI"))],
     sample_disk) /\
  FilePartitioner.partition_file (H := length_digest) no_faults
    (FilePartitioner.Build (-2)) "f" sample_disk =
    (Raise (Exn "ValueError" "read length must be non-negative or -1"),
     sample_disk).
Proof.
  split; [|split].
  - apply (proj1 (partition_file_degenerate_sizes (H := length_digest)
                    no_faults (FilePartitioner.Build 0) "f" sample_disk
                    (bytes_of "ABCDEFGHI") sample_readable)).
    reflexivity.
  - apply (proj1 (proj2 (partition_file_degenerate_sizes
                    (H := length_digest)
                    no_faults (FilePartitioner.Build (-1)) "f" sample_disk
                    (bytes_of "ABCDEFGHI") sample_readable))).
    + reflexivity.
    + discriminate.
  - apply (proj2 (proj2 (partition_file_degenerate_sizes
                    (H := length_digest)
                    no_faults (FilePartitioner.Build (-2)) "f" sample_disk
                    (bytes_of "ABCDEFGHI") sample_readable))).
    simpl. lia.
Defined.

Lemma reassemble_file_any_arrival_order_witness :
  FilePartitioner.reassemble_file no_faults (FilePartitioner.Build 4)
    shuffled_chunks "out" empty_disk =
  FilePartitioner.reassemble_file no_faults (FilePartitioner.Build 4)
    [(0, bytes_of "ABCD"); (1, bytes_of "EFGH"); (2, bytes_of "I")]
    "out" empty_disk.
Proof.
  apply reassemble_file_any_arrival_order.
  - unfold shuffled_chunks. simpl. repeat constructor;
      rewrite ?elem_of_cons, ?elem_of_nil; intros H; decompose [or] H;
      discriminate || done.
  - unfold shuffled_chunks.
    apply (Permutation_cons_app [_; _] []). reflexivity.
Defined.

Lemma reassemble_file_writes_prefix_witness :
  snd denied_reassembly = sample_disk \/
  exists pre,
    snd denied_reassembly =
      set_files (<["out" := pre]> (files sample_disk)) sample_disk /\
    pre `prefix_of` bytes_of "ABCDEFGH".
Proof.
  destruct (reassemble_file_writes_prefix write_denied
              (FilePartitioner.Build 4)
              [(1, bytes_of "EFGH"); (0, bytes_of "ABCD")] "out" sample_disk
              (fst denied_reassembly) (snd denied_reassembly))
    as [Hd | (pre & Hd & Hpre & _)].
  - unfold denied_reassembly. apply surjective_pairing.
  - by left.
  - right. exists pre. split; [exact Hd | exact Hpre].
Defined.

(** The failed write leaves its first two bytes in the output file. *)
Example denied_reassembly_partial :
  fst denied_reassembly = Raise (Exn "OSError" "No space left on device") /\
  files (snd denied_reassembly) !! "out" = Some (bytes_of "AB").
Proof. split; reflexivity. Qed.


(** ** The storage node: reading back, isolation, the index invariant *)

Section StringFacts.

Lemma string_length_app (a b : string) :
  String.length (a +:+ b) = (String.length a + String.length b)%nat.
Proof. induction a as [|x a IH]; simpl; [done|]. by rewrite IH. Qed.

Lemma string_app_inv_tail (a b c : string) : a +:+ c = b +:+ c -> a = b.
Proof.
  revert b. induction a as [|x a IH]; intros [|y b]; simpl; try done.
  - intros Hc. apply (f_equal String.length) in Hc.
    rewrite !string_length_app in Hc. simpl in Hc. lia.
  - intros Hc. apply (f_equal String.length) in Hc.
    rewrite !string_length_app in Hc. simpl in Hc. lia.
  - intros [= -> Hc]. f_equal. by apply IH.
Qed.

End StringFacts.

Section DictMore.
Context {K V : Type} `{EqDecision K}.
Implicit Types (d : dict K V) (k : K) (v : V).

Lemma dict_get_keys k d : k ∈ dict_keys d <-> is_Some (dict_get k d).
Proof.
  induction d as [|[k' v] d IH]; simpl.
  - split; [by intros ?%elem_of_nil|by intros [? [=]]].
  - rewrite elem_of_cons. destruct (decide (k' = k)) as [->|Hne].
    + split; [by eexists|by left].
    + rewrite <- IH. naive_solver.
Qed.

Lemma dict_get_Some_elem k v d : dict_get k d = Some v -> (k, v) ∈ d.
Proof.
  induction d as [|[k' v'] d IH]; simpl; [done|].
  destruct (decide (k' = k)) as [->|Hne].
  - intros [= ->]. apply list_elem_of_here.
  - intros Hd. apply list_elem_of_further. by apply IH.
Qed.

Lemma dict_keys_set k v d :
  dict_keys (dict_set k v d) =
    if dict_mem k d then dict_keys d else dict_keys d ++ [k].
Proof.
  unfold dict_mem. induction d as [|[k' v'] d IH]; simpl; [done|].
  destruct (decide (k' = k)) as [->|Hne]; simpl; [done|].
  rewrite IH. by destruct (dict_get k d).
Qed.

Lemma dict_set_NoDup k v d :
  NoDup (dict_keys d) -> NoDup (dict_keys (dict_set k v d)).
Proof.
  intros Hnd. rewrite dict_keys_set. unfold dict_mem.
  destruct (dict_get k d) eqn:Hg; [done|].
  apply NoDup_app. split; [done|]. split; [|apply NoDup_singleton].
  intros x Hx ->%list_elem_of_singleton.
  apply dict_get_keys in Hx as [? Hx]. congruence.
Qed.

Lemma dict_set_elem k v d (x : K * V) :
  x ∈ dict_set k v d -> x = (k, v) \/ x ∈ d.
Proof.
  induction d as [|[k' v'] d IH]; simpl.
  - intros ->%list_elem_of_singleton. by left.
  - destruct (decide (k' = k)) as [->|Hne].
    + intros [->|Hx]%elem_of_cons; [by left|].
      right. by apply list_elem_of_further.
    + intros [->|Hx]%elem_of_cons; [right; apply list_elem_of_here|].
      destruct (IH Hx) as [->|?]; [by left|].
      right. by apply list_elem_of_further.
Qed.

Lemma dict_del_elem k d (x : K * V) : x ∈ dict_del k d -> x ∈ d.
Proof.
  induction d as [|[k' v'] d IH]; simpl; [done|].
  destruct (decide (k' = k)).
  - apply list_elem_of_further.
  - intros [->|Hx]%elem_of_cons; [apply list_elem_of_here|].
    by apply list_elem_of_further, IH.
Qed.

Lemma dict_del_NoDup k d :
  NoDup (dict_keys d) -> NoDup (dict_keys (dict_del k d)).
Proof.
  induction d as [|[k' v'] d IH]; simpl; [done|].
  intros [Hk Hd]%NoDup_cons. destruct (decide (k' = k)); [done|].
  simpl. apply NoDup_cons. split; [|by apply IH].
  intros Hin. apply Hk.
  apply list_elem_of_fmap in Hin as (x & -> & Hx).
  apply list_elem_of_fmap. exists x. split; [done|].
  by eapply dict_del_elem.
Qed.

Lemma dict_get_del_ne k k' d :
  k ≠ k' -> dict_get k' (dict_del k d) = dict_get k' d.
Proof.
  intros Hne. induction d as [|[k0 v0] d IH]; simpl; [done|].
  destruct (decide (k0 = k)) as [->|Hne0]; simpl.
  - by rewrite decide_False.
  - by rewrite IH.
Qed.
End DictMore.

Section NodeMore.
Import StorageNode.

Lemma chunk_path_of_eq self filename chunk_id :
  chunk_path_of self filename chunk_id =
  file_dir_of self filename +:+ "/" +:+ "chunk_" +:+ pretty chunk_id
    +:+ ".dat".
Proof. reflexivity. Qed.

(** Different chunks of a file live in different files. *)
Lemma chunk_path_of_inj self filename i j :
  chunk_path_of self filename i = chunk_path_of self filename j -> i = j.
Proof.
  rewrite !chunk_path_of_eq.
  intros Hp. do 3 apply (inj _) in Hp.
  apply string_app_inv_tail in Hp. by apply (inj pretty) in Hp.
Qed.

Lemma index_entry_store_ne filename i j entry md :
  i ≠ j ->
  index_entry filename i (store_in_index filename j entry md) =
  index_entry filename i md.
Proof.
  intros Hne. unfold index_entry, store_in_index.
  rewrite dict_get_set_eq. simpl.
  rewrite dict_get_set_ne by done. by destruct (dict_get filename md).
Qed.

(** What a call of [store_chunk] leaves behind, in one place. *)
Lemma store_chunk_outcome flt filename chunk_id chunk_data chunk_hash
    self r s' :
  store_chunk flt filename chunk_id chunk_data chunk_hash self = (r, s') ->
  node_id s' = node_id self /\ storage_dir s' = storage_dir self /\
  (exists r0, store_on_disk flt (file_dir_of self filename)
                (chunk_path_of self filename chunk_id) chunk_data (fs self)
              = (r0, fs s') /\
              ((r0 = Ok tt /\ acknowledged r /\
                metadata s' = store_in_index filename chunk_id
                  (chunk_hash, chunk_path_of self filename chunk_id)
                  (metadata self)) \/
               ((exists e, r0 = Raise e /\ r = Ok (ErrorResp (str e))) /\
                metadata s' = metadata self))).
Proof.
  rewrite store_chunk_eq.
  destruct (store_on_disk flt _ _ chunk_data (fs self)) as [[[]|e] d];
    intros [= <- <-]; destruct self; cbn; (split; [done|]); (split; [done|]);
    eexists; (split; [done|]).
  - left. split; [done|]. split; [by eexists _, _|done].
  - right. split; [by eexists|done].
Qed.

(** X5.  A chunk that was stored can be read back: after an acknowledged
    [store_chunk], [retrieve_chunk] of the same key on a readable disk
    answers with exactly the stored payload and digest and leaves the node
    as it is. *)
Theorem store_then_retrieve f1 f2 filename chunk_id chunk_data chunk_hash
    self r s1 :
  store_chunk f1 filename chunk_id chunk_data chunk_hash self = (r, s1) ->
  acknowledged r ->
  f2 (OpOpenR (chunk_path_of self filename chunk_id)) = None ->
  retrieve_chunk f2 filename chunk_id s1 =
    (Ok (RetrieveOk chunk_data chunk_hash (node_id self)), s1).
Proof.
  intros (Hnid & Hsd & r0 & Hdisk & Hcase)%store_chunk_outcome Hack Hread.
  destruct Hcase as [(-> & _ & Hmd)|[(e & _ & ->) _]];
    [|by destruct Hack as (? & ? & [=])].
  apply store_on_disk_ok in Hdisk as (_ & _ & _ & _ & _ & Hfs).
  unfold retrieve_chunk, on_disk, error_response. unfold_M.
  rewrite Hmd. unfold store_in_index. rewrite dict_get_set_eq.
  rewrite dict_get_set_eq. unfold fs_open_rb. rewrite Hread, Hfs.
  cbn [files]. rewrite lookup_insert_eq, Hnid. rewrite <- Hfs.
  by rewrite set_fs_fs.
Qed.

(** [retrieve_chunk] answers without changing the node, and with
    ["Chunk not found"] for a key that is not in the index. *)
Lemma retrieve_chunk_frame flt filename chunk_id self :
  exists resp,
    retrieve_chunk flt filename chunk_id self = (Ok resp, self) /\
    (index_entry filename chunk_id (metadata self) = None ->
     resp = ErrorResp "Chunk not found").
Proof.
  unfold retrieve_chunk, index_entry, on_disk, error_response. unfold_M.
  destruct (dict_get filename (metadata self)) as [entries|]; simpl;
    [|by eexists].
  destruct (dict_get chunk_id entries) as [[h p]|]; [|by eexists].
  unfold fs_open_rb.
  destruct (flt (OpOpenR p)); [rewrite set_fs_fs; by eexists|].
  destruct (files (fs self) !! p); rewrite set_fs_fs; by eexists.
Qed.

(** X6.  [retrieve_chunk] is read-only and never raises: whatever the
    disk does it answers and leaves the node unchanged.  A key that is not
    in the index is answered with ["Chunk not found"]; a key that is, with
    whatever the chunk file holds now together with the recorded digest
    (the node does not verify). *)
Theorem retrieve_chunk_read_only flt filename chunk_id self :
  (exists resp,
     retrieve_chunk flt filename chunk_id self = (Ok resp, self)) /\
  (index_entry filename chunk_id (metadata self) = None ->
   retrieve_chunk flt filename chunk_id self =
     (Ok (ErrorResp "Chunk not found"), self)) /\
  (forall chunk_hash chunk_path content,
     index_entry filename chunk_id (metadata self)
       = Some (chunk_hash, chunk_path) ->
     flt (OpOpenR chunk_path) = None ->
     files (fs self) !! chunk_path = Some content ->
     retrieve_chunk flt filename chunk_id self =
       (Ok (RetrieveOk content chunk_hash (node_id self)), self)).
Proof.
  unfold retrieve_chunk, index_entry, on_disk, error_response. unfold_M.
  destruct (dict_get filename (metadata self)) as [entries|]; simpl;
    [|split; [by eexists|split; [done|by intros]]].
  destruct (dict_get chunk_id entries) as [[h p]|];
    [|split; [by eexists|split; [done|by intros]]].
  unfold fs_open_rb. split; [|split; [done|]].
  - destruct (flt (OpOpenR p)); [rewrite set_fs_fs; by eauto|].
    destruct (files (fs self) !! p); rewrite set_fs_fs; by eauto.
  - intros h' p' content [= <- <-] -> ->. by rewrite set_fs_fs.
Qed.

Lemma store_chunk_total flt filename chunk_id chunk_data chunk_hash self :
  exists resp s',
    store_chunk flt filename chunk_id chunk_data chunk_hash self
      = (Ok resp, s').
Proof.
  rewrite store_chunk_eq.
  destruct (store_on_disk flt _ _ chunk_data (fs self)) as [[[]|e] d];
    by eexists _, _.
Qed.

(** The ways in which [delete_file] can end. *)
Lemma delete_file_outcome flt filename self r s' :
  delete_file flt filename self = (r, s') ->
  (dict_get filename (metadata self) = None /\
   r = Ok (ErrorResp "File not found") /\ s' = self) \/
  (exists entries rl s1,
     dict_get filename (metadata self) = Some entries /\
     for_each (dict_items entries) (remove_chunk flt) self = (rl, s1) /\
     ((exists message, r = Ok (ErrorResp message) /\ s' = s1) \/
      (rl = Ok tt /\ r = Ok (DeleteOk "File deleted") /\
       metadata s' = dict_del filename (metadata self) /\
       files (fs s') = files (fs s1) /\ node_id s' = node_id self))).
Proof.
  unfold delete_file, error_response. unfold_M.
  destruct (dict_get filename (metadata self)) as [entries|] eqn:Hget;
    [|intros [= <- <-]; by left].
  intros Hrun. right.
  destruct (for_each (dict_items entries) (remove_chunk flt) self)
    as [rl s1] eqn:Hloop.
  exists entries, rl, s1. split; [done|]. split; [done|].
  assert (Hs1 := remove_chunks_frame _ _ _ _ _ Hloop).
  destruct rl as [[]|e]; [|injection Hrun as <- <-; left; by eexists].
  revert Hrun. unfold on_disk. unfold_M. rewrite !set_fs_fs.
  destruct (fs_exists (file_dir_of self filename) (fs s1)).
  - unfold fs_rmdir.
    destruct (flt (OpRmdir (file_dir_of self filename))).
    { rewrite set_fs_fs. intros [= <- <-]. left. by eexists. }
    case_bool_decide;
      [|rewrite set_fs_fs; intros [= <- <-]; left; by eexists].
    destruct (dir_is_empty _ _);
      [|rewrite set_fs_fs; intros [= <- <-]; left; by eexists].
    intros [= <- <-]. right. rewrite Hs1. by destruct self.
  - intros [= <- <-]. right. rewrite Hs1. by destruct self.
Qed.

Lemma delete_file_total flt filename self :
  exists resp s', delete_file flt filename self = (Ok resp, s').
Proof.
  destruct (delete_file flt filename self) as [r s'] eqn:Hrun.
  apply delete_file_outcome in Hrun
    as [(_ & -> & _)|(? & ? & ? & _ & _ & [(e & -> & _)|(_ & -> & _)])];
    by eexists _, _.
Qed.

(** X7.  [handle_client] never raises, and only STORE and DELETE can
    change a node: RETRIEVE, LIST and unknown commands leave it exactly as
    it was; an unknown command is answered with ["Unknown command"]. *)
Theorem handle_client_read_only flt req self :
  exists resp s',
    handle_client flt req self = (Ok resp, s') /\
    match req with
    | STORE _ _ _ _ | DELETE _ => True
    | OTHER _ => s' = self /\ resp = ErrorResp "Unknown command"
    | _ => s' = self
    end.
Proof.
  unfold handle_client. destruct req as [fn cid data h|fn cid| |fn|cmd].
  - destruct (store_chunk_total flt fn cid data h self)
      as (resp & s' & Hrun).
    exists resp, s'. unfold try_except. by rewrite Hrun.
  - destruct (retrieve_chunk_frame flt fn cid self) as (resp & Hr & _).
    exists resp, self. unfold try_except. by rewrite Hr.
  - by eexists _, self.
  - destruct (delete_file_total flt fn self) as (resp & s' & Hrun).
    exists resp, s'. unfold try_except. by rewrite Hrun.
  - by eexists _, self.
Qed.

(** X8.  Storing one chunk of a file never touches another: whatever the
    outcome of [store_chunk] for chunk [j], the index entry and the chunk
    file of every other chunk [i] of the same file are as before, and so
    are the index entries of every other file. *)
Theorem store_chunk_isolated flt filename j chunk_data chunk_hash self
    r s' :
  store_chunk flt filename j chunk_data chunk_hash self = (r, s') ->
  (forall i, i ≠ j ->
     index_entry filename i (metadata s') =
       index_entry filename i (metadata self) /\
     files (fs s') !! chunk_path_of self filename i =
       files (fs self) !! chunk_path_of self filename i) /\
  (forall filename', filename' ≠ filename ->
     dict_get filename' (metadata s') = dict_get filename' (metadata self)).
Proof.
  intros (_ & _ & r0 & Hdisk & Hcase)%store_chunk_outcome.
  apply store_on_disk_effect in Hdisk as [_ Hfiles].
  assert (Hmd : metadata s' = metadata self \/
                metadata s' = store_in_index filename j
                  (chunk_hash, chunk_path_of self filename j)
                  (metadata self)).
  { destruct Hcase as [(_ & _ & ->)|[_ ->]]; auto. }
  split.
  - intros i Hij. split.
    + destruct Hmd as [->| ->]; [done|]. by apply index_entry_store_ne.
    + destruct Hfiles as [->|[x ->]]; [done|].
      apply lookup_insert_ne. intros Hp.
      apply chunk_path_of_inj in Hp. congruence.
  - intros filename' Hne. destruct Hmd as [->| ->]; [done|].
    unfold store_in_index. by apply dict_get_set_ne.
Qed.

Lemma index_wf_store filename chunk_id entry md :
  index_wf md -> index_wf (store_in_index filename chunk_id entry md).
Proof.
  intros [Hk Hin]. unfold store_in_index. split.
  - by apply dict_set_NoDup.
  - apply Forall_forall. intros x [->|Hx]%dict_set_elem.
    + simpl. apply dict_set_NoDup.
      destruct (dict_get filename md) as [entries|] eqn:Hg; simpl.
      * apply dict_get_Some_elem in Hg.
        by apply (proj1 (Forall_forall _ _) Hin _ Hg).
      * constructor.
    + by apply (proj1 (Forall_forall _ _) Hin).
Qed.

Lemma index_wf_del filename md :
  index_wf md -> index_wf (dict_del filename md).
Proof.
  intros [Hk Hin]. split; [by apply dict_del_NoDup|].
  apply Forall_forall. intros x Hx%dict_del_elem.
  by apply (proj1 (Forall_forall _ _) Hin).
Qed.

(** X9.  The index stays free of duplicates: if no file name and no
    chunk id of a file is repeated before a request, the same holds after
    it, whatever the request is and however it ends. *)
Theorem handle_client_keeps_index_wf flt req self r s' :
  index_wf (metadata self) ->
  handle_client flt req self = (r, s') ->
  index_wf (metadata s').
Proof.
  intros Hwf. unfold handle_client.
  destruct req as [fn cid data h|fn cid| |fn|cmd].
  - destruct (store_chunk flt fn cid data h self) as [r1 s1] eqn:Hrun.
    destruct (store_chunk_total flt fn cid data h self) as (resp & s2 & H2).
    rewrite Hrun in H2. injection H2 as -> ->.
    unfold try_except. rewrite Hrun. intros [= <- <-].
    apply store_chunk_outcome in Hrun as (_ & _ & r0 & _ & Hcase).
    destruct Hcase as [(_ & _ & ->)|[_ ->]]; [|done].
    by apply index_wf_store.
  - destruct (retrieve_chunk_frame flt fn cid self) as (resp & Hr & _).
    unfold try_except. rewrite Hr. by intros [= <- <-].
  - by intros [= <- <-].
  - destruct (delete_file flt fn self) as [r1 s1] eqn:Hrun.
    destruct (delete_file_total flt fn self) as (resp & s2 & H2).
    rewrite Hrun in H2. injection H2 as -> ->.
    unfold try_except. rewrite Hrun. intros [= <- <-].
    apply delete_file_outcome in Hrun
      as [(_ & _ & ->)|(entries & rl & sl & _ & Hloop & Hcase)]; [done|].
    apply remove_chunks_frame in Hloop.
    destruct Hcase as [(e & _ & ->)|(_ & _ & -> & _ & _)].
    + rewrite Hloop. by destruct self.
    + by apply index_wf_del.
  - by intros [= <- <-].
Qed.

(** X10.  What was stored is listed: after an acknowledged
    [store_chunk], [list_files] reports the file with the chunk id among
    its chunks, and changes nothing. *)
Theorem store_then_list flt filename chunk_id chunk_data chunk_hash
    self r s1 :
  store_chunk flt filename chunk_id chunk_data chunk_hash self = (r, s1) ->
  acknowledged r ->
  exists files_info chunk_ids,
    list_files s1 = (Ok (ListOk files_info (node_id self)), s1) /\
    (filename, chunk_ids) ∈ files_info /\ chunk_id ∈ chunk_ids.
Proof.
  intros (Hnid & _ & r0 & _ & Hcase)%store_chunk_outcome Hack.
  destruct Hcase as [(_ & _ & Hmd)|[(e & _ & ->) _]];
    [|by destruct Hack as (? & ? & [=])].
  unfold list_files. unfold_M. rewrite Hnid.
  eexists _, _. split; [done|].
  assert (Hget : dict_get filename (metadata s1) =
            Some (dict_set chunk_id
                    (chunk_hash, chunk_path_of self filename chunk_id)
                    (default [] (dict_get filename (metadata self))))).
  { rewrite Hmd. unfold store_in_index. apply dict_get_set_eq. }
  apply dict_get_Some_elem in Hget. split.
  - apply list_elem_of_fmap. eexists. split; [|exact Hget]. done.
  - apply dict_get_keys. rewrite dict_get_set_eq. by eexists.
Qed.

(** Removing files only removes: a path that holds no file before the
    loop holds none after it, and after a loop that completes none of the
    listed chunk files is left. *)
Lemma remove_chunks_gone flt items s s' :
  for_each items (remove_chunk flt) s = (Ok tt, s') ->
  (forall q, files (fs s) !! q = None -> files (fs s') !! q = None) /\
  (forall chunk_id h p, (chunk_id, (h, p)) ∈ items ->
     files (fs s') !! p = None).
Proof.
  revert s. induction items as [|[cid0 [h0 p0]] items IH]; intros s.
  - simpl. unfold_M. intros [= <-]. split; [done|].
    by intros ??? ?%elem_of_nil.
  - cbn [for_each]. unfold_M.
    destruct (remove_chunk flt (cid0, (h0, p0)) s) as [[[]|e] s1] eqn:H1;
      [|done].
    intros (Hmono & Hgone)%IH.
    assert (Hstep : (forall q, files (fs s) !! q = None ->
                       files (fs s1) !! q = None) /\
                    files (fs s1) !! p0 = None).
    { revert H1. unfold remove_chunk, on_disk. unfold_M.
      rewrite !set_fs_fs. destruct (fs_exists p0 (fs s)) eqn:Hex.
      - unfold fs_remove. destruct (flt (OpRemove p0)); [done|].
        destruct (files (fs s) !! p0) eqn:Hp0; [|done].
        intros [= <-]. destruct s; cbn. split.
        + intros q Hq. by apply lookup_delete_None; right.
        + apply lookup_delete_eq.
      - intros [= <-]. split; [done|].
        unfold fs_exists in Hex. apply orb_false_iff in Hex as [Hf _].
        apply bool_decide_eq_false in Hf.
        by apply eq_None_not_Some. }
    destruct Hstep as [Hmono1 Hp0]. split.
    + intros q Hq. by apply Hmono, Hmono1.
    + intros cid h p [[= -> -> ->]|Hin]%elem_of_cons.
      * by apply Hmono.
      * by eapply Hgone.
Qed.

(** X11.  Delete completeness on a node: when [delete_file] answers with
    success on a duplicate-free index, the file is no longer in the index
    and no longer listed, every read of one of its chunks is answered with
    ["Chunk not found"], none of its recorded chunk files is left on disk,
    and the index entries of all other files are as before. *)
Theorem delete_file_complete flt filename self message s' :
  index_wf (metadata self) ->
  delete_file flt filename self = (Ok (DeleteOk message), s') ->
  dict_get filename (metadata s') = None /\
  (exists files_info,
     list_files s' = (Ok (ListOk files_info (node_id self)), s') /\
     filename ∉ map fst files_info) /\
  (forall flt' chunk_id,
     retrieve_chunk flt' filename chunk_id s' =
       (Ok (ErrorResp "Chunk not found"), s')) /\
  (forall entries chunk_id h p,
     dict_get filename (metadata self) = Some entries ->
     (chunk_id, (h, p)) ∈ entries ->
     files (fs s') !! p = None) /\
  (forall filename', filename' ≠ filename ->
     dict_get filename' (metadata s') = dict_get filename' (metadata self)).
Proof.
  intros [Hk Hin] Hrun.
  pose proof Hrun as Hout. apply delete_file_outcome in Hout
    as [(_ & [=] & _)|(entries & rl & s1 & Hget & Hloop & Hcase)].
  destruct Hcase as [(e & [=] & _)|(-> & _ & Hmd & Hfiles & Hnid)].
  assert (Hnone : dict_get filename (metadata s') = None).
  { rewrite Hmd. by apply dict_get_del_eq. }
  split; [done|]. split; [|split; [|split]].
  - unfold list_files. unfold_M. rewrite Hnid. eexists. split; [done|].
    rewrite map_map. intros Hin'.
    apply list_elem_of_fmap in Hin' as ([fn chunks] & Hfn & Hx).
    simpl in Hfn. subst fn.
    assert (filename ∈ dict_keys (metadata s')).
    { apply list_elem_of_fmap. by exists (filename, chunks). }
    apply dict_get_keys in H as [? ?]. congruence.
  - intros flt' chunk_id.
    destruct (retrieve_chunk_frame flt' filename chunk_id s')
      as (resp & Hr & Hnf).
    rewrite Hr, Hnf; [done|]. unfold index_entry. by rewrite Hnone.
  - intros entries' cid h p Hget' Hitem. rewrite Hget in Hget'.
    injection Hget' as <-. rewrite Hfiles.
    by eapply (proj2 (remove_chunks_gone _ _ _ _ Hloop)).
  - intros filename' Hne. rewrite Hmd. by apply dict_get_del_ne.
Qed.
End NodeMore.

Lemma first_store_acknowledged : acknowledged (fst first_store).
Proof. eexists _, _. vm_compute. reflexivity. Qed.

Lemma stored_node_index_wf : index_wf (StorageNode.metadata stored_node).
Proof.
  unfold index_wf. apply (bool_decide_unpack _). vm_compute. exact I.
Qed.

Lemma store_then_retrieve_witness :
  StorageNode.retrieve_chunk no_faults "a.txt" 0 (snd first_store) =
    (Ok (RetrieveOk (bytes_of "ABCD") "h0" 0), snd first_store).
Proof.
  apply (store_then_retrieve no_faults no_faults "a.txt" 0 (bytes_of "ABCD")
           "h0" fresh_node (fst first_store) (snd first_store)).
  - apply surjective_pairing.
  - exact first_store_acknowledged.
  - reflexivity.
Defined.

Lemma retrieve_chunk_read_only_witness :
  StorageNode.retrieve_chunk write_denied "a.txt" 7 stored_node =
    (Ok (ErrorResp "Chunk not found"), stored_node).
Proof.
  apply (proj1 (proj2 (retrieve_chunk_read_only write_denied "a.txt" 7
                         stored_node))).
  reflexivity.
Defined.

Lemma store_chunk_isolated_witness :
  index_entry "a.txt" 0 (StorageNode.metadata stored_node) =
    index_entry "a.txt" 0 (StorageNode.metadata (snd first_store)) /\
  files (StorageNode.fs stored_node)
    !! StorageNode.chunk_path_of (snd first_store) "a.txt" 0 =
  files (StorageNode.fs (snd first_store))
    !! StorageNode.chunk_path_of (snd first_store) "a.txt" 0.
Proof.
  apply (proj1 (store_chunk_isolated no_faults "a.txt" 1 (bytes_of "EFGH")
                  "h1" (snd first_store)
                  (fst (StorageNode.store_chunk no_faults "a.txt" 1
                          (bytes_of "EFGH") "h1" (snd first_store)))
                  stored_node (surjective_pairing _)) 0).
  lia.
Defined.

Lemma handle_client_keeps_index_wf_witness :
  index_wf (StorageNode.metadata
              (snd (StorageNode.handle_client no_faults
                      (STORE "a.txt" 0 (bytes_of "ABCD") "h0") fresh_node))).
Proof.
  apply (handle_client_keeps_index_wf no_faults
           (STORE "a.txt" 0 (bytes_of "ABCD") "h0") fresh_node
           (fst (StorageNode.handle_client no_faults
                   (STORE "a.txt" 0 (bytes_of "ABCD") "h0") fresh_node))).
  - split; constructor.
  - apply surjective_pairing.
Defined.

Lemma store_then_list_witness :
  exists files_info chunk_ids,
    StorageNode.list_files (snd first_store) =
      (Ok (ListOk files_info 0), snd first_store) /\
    ("a.txt", chunk_ids) ∈ files_info /\ 0 ∈ chunk_ids.
Proof.
  apply (store_then_list no_faults "a.txt" 0 (bytes_of "ABCD") "h0"
           fresh_node (fst first_store) (snd first_store)).
  - apply surjective_pairing.
  - exact first_store_acknowledged.
Defined.

Lemma clean_delete_succeeds :
  clean_delete = (Ok (DeleteOk "File deleted"), snd clean_delete).
Proof.
  assert (Hfst : fst clean_delete = Ok (DeleteOk "File deleted"))
    by (vm_compute; reflexivity).
  rewrite <- Hfst. apply surjective_pairing.
Qed.

Lemma delete_file_complete_witness :
  dict_get "a.txt" (StorageNode.metadata (snd clean_delete)) = None /\
  files (StorageNode.fs (snd clean_delete)) !! "data/a.txt/chunk_0.dat"
    = None.
Proof.
  destruct (delete_file_complete no_faults "a.txt" stored_node
              "File deleted" (snd clean_delete) stored_node_index_wf
              clean_delete_succeeds)
    as (Hidx & _ & _ & Hgone & _).
  split; [exact Hidx|].
  apply (Hgone [(0, ("h0", "data/a.txt/chunk_0.dat"));
                (1, ("h1", "data/a.txt/chunk_1.dat"))] 0 "h0").
  - reflexivity.
  - apply list_elem_of_here.
Defined.


(** ** The client: uploads, deletes, downloads, placement at the bounds *)

Section ClientMore.
Context {World : Type} `{Network World} `{Sha256}.
Import DistributedStorageClient.
Implicit Types (p : process (World := World)).

Lemma set_local_local p : set_local (local p) p = p.
Proof. by destruct p. Qed.

(** X12.  An upload of a file that cannot be opened raises before
    anything happens: no request is sent and the client, its descriptor
    table included, is exactly as before. *)
Theorem upload_file_unreadable flt filepath p :
  nodes (self p) ≠ [] ->
  flt (OpOpenR filepath) <> None \/ files (local p) !! filepath = None ->
  exists e,
    upload_file flt filepath p = (Raise e, p) /\
    (exn_cls e = "OSError" \/ exn_cls e = "FileNotFoundError").
Proof.
  intros Hn Hbad. unfold upload_file. unfold_M.
  destruct (nodes (self p)) as [|n0 ns]; [done|].
  unfold on_local. unfold_M.
  destruct (partition_file_unreadable flt (partitioner (self p)) filepath
              (local p) Hbad) as (e & Hrun & Hcls).
  rewrite Hrun, set_local_local. by exists e.
Qed.

Lemma store_replicas_trace filename chunk_id chunk_data chunk_hash
    targets stored p :
  exists p' T,
    store_replicas filename chunk_id chunk_data chunk_hash targets stored p
      = (Ok (stored ++ acked T), p') /\
    self p' = self p /\ local p' = local p /\
    sent p' = sent p ++ T /\
    map fst T =
      map (fun n => (n, STORE filename chunk_id chunk_data chunk_hash))
          targets.
Proof.
  revert stored p. induction targets as [|n targets IH]; intros stored p.
  - exists p, []. by rewrite !app_nil_r.
  - cbn [store_replicas]. unfold_M. unfold send_request.
    destruct (exchange n _ (world p)) as [resp w] eqn:Hex.
    edestruct IH as (p' & T & Hrun & Hself & Hlocal & Hsent & Hmap).
    exists p', ((n, STORE filename chunk_id chunk_data chunk_hash, resp) :: T).
    rewrite Hrun. split.
    { do 2 f_equal. unfold acked. simpl.
      destruct (status_success resp); simpl; by rewrite <- ?app_assoc. }
    split; [by rewrite Hself|]. split; [by rewrite Hlocal|].
    split; [rewrite Hsent; cbn; by rewrite <- app_assoc|].
    cbn. by rewrite Hmap.
Qed.

Lemma upload_chunk_trace filename chunk_id chunk_data chunk_hash p cm :
  nodes (self p) ≠ [] ->
  dict_get filename (file_mapping (self p)) = Some cm ->
  exists p' T,
    upload_chunk filename (chunk_id, chunk_data, chunk_hash) p
      = (Ok tt, p') /\
    same_client p p' /\
    sent p' = sent p ++ T /\
    file_mapping (self p') =
      dict_set filename (dict_set chunk_id (acked T) cm)
        (file_mapping (self p)) /\
    chunk_stored (self p) filename (chunk_id, chunk_data, chunk_hash) T
      (chunk_id, acked T).
Proof.
  intros Hn Hcm.
  destruct (target_nodes_ok (self p) chunk_id p) as (targets & Ht & Hall);
    [by left|].
  destruct (store_replicas_trace filename chunk_id chunk_data chunk_hash
              targets [] p) as (p1 & T & Hs & Hself & Hlocal & Hsent & Hmap).
  exists (set_self (set_file_mapping
            (dict_set filename (dict_set chunk_id (acked T) cm)
               (file_mapping (self p))) (self p1)) p1), T.
  unfold upload_chunk. unfold_M. rewrite Ht, Hs.
  unfold record_chunk. unfold_M. rewrite Hself, Hcm. cbn [app].
  split; [reflexivity|]. split; [|split; [done|split; [done|]]].
  - unfold same_client. cbn. by rewrite Hlocal.
  - by exists targets.
Qed.

Lemma chunk_stored_same_pool c c' filename chunk T entry :
  nodes c' = nodes c -> replication_factor c' = replication_factor c ->
  chunk_stored c' filename chunk T entry ->
  chunk_stored c filename chunk T entry.
Proof.
  intros Hn Hr. destruct chunk as [[cid data] h].
  unfold chunk_stored, replica_slot. by rewrite Hn, Hr.
Qed.

Lemma upload_chunks_trace filename chunks k p cm :
  nodes (self p) ≠ [] ->
  dict_get filename (file_mapping (self p)) = Some cm ->
  0 <= k ->
  map (fun c => fst (fst c)) chunks = seqZ k (Z.of_nat (length chunks)) ->
  dict_keys cm = seqZ 0 k ->
  exists p' Ts entries,
    for_each chunks (upload_chunk filename) p = (Ok tt, p') /\
    same_client p p' /\
    sent p' = sent p ++ concat Ts /\
    dict_get filename (file_mapping (self p')) = Some (cm ++ entries) /\
    Forall3 (chunk_stored (self p) filename) chunks Ts entries /\
    (forall name, name ≠ filename ->
       dict_get name (file_mapping (self p'))
         = dict_get name (file_mapping (self p))).
Proof.
  revert k p cm.
  induction chunks as [|[[cid data] h] chunks IH];
    intros k p cm Hn Hcm Hk Hids Hkeys.
  - exists p, [], []. rewrite !app_nil_r.
    split_and!; try done. constructor.
  - cbn [for_each].
    destruct (upload_chunk_trace filename cid data h p cm Hn Hcm)
      as (p1 & T & Hrun & (Hr & Hp & Hnodes & Hl) & Hsent1 & Hfm1 & Hst).
    unfold mbind, M_bind, bind. rewrite Hrun.
    cbn [map length fst] in Hids.
    rewrite Nat2Z.inj_succ, seqZ_cons in Hids by lia.
    injection Hids as -> Hids.
    replace (Z.pred (Z.succ (Z.of_nat (length chunks))))
      with (Z.of_nat (length chunks)) in Hids by lia.
    assert (Hfresh : dict_get k cm = None).
    { destruct (dict_get k cm) as [v|] eqn:Hg; [|done]. exfalso.
      assert (Hin : k ∈ dict_keys cm) by (apply dict_get_keys; by eexists).
      rewrite Hkeys in Hin. apply elem_of_seqZ in Hin. lia. }
    rewrite (dict_set_fresh k) in Hfm1 by done.
    destruct (IH (Z.succ k) p1 (cm ++ [(k, acked T)]))
      as (p' & Ts & entries & Hloop & (Hr' & Hp' & Hnodes' & Hl') & Hsent'
          & Hcm' & Hall & Hother); try done.
    { by rewrite Hnodes. }
    { rewrite Hfm1. apply dict_get_set_eq. }
    { lia. }
    { unfold dict_keys in *. rewrite map_app, Hkeys. simpl.
      replace (Z.succ k) with (k + 1) by lia.
      by rewrite (seqZ_app 0 k 1) by lia. }
    exists p', (T :: Ts), ((k, acked T) :: entries).
    split; [done|].
    split; [unfold same_client; by rewrite Hr', Hp', Hnodes', Hl'|].
    split; [rewrite Hsent', Hsent1; simpl; by rewrite app_assoc|].
    split; [rewrite Hcm'; by rewrite <- app_assoc|].
    split.
    + constructor; [done|].
      eapply Forall3_impl; [exact Hall|].
      intros chunk T' entry. by apply chunk_stored_same_pool.
    + intros name Hne. rewrite Hother, Hfm1 by done.
      by apply dict_get_set_ne.
Qed.

(** X13.  What an upload sends and records: for a readable file, a
    chunk size that [f.read] accepts as a read length (-1 or more) and a
    non-empty pool, [upload_file] sends, chunk after chunk of
    [partition_file], one STORE per node of the chunk's round-robin
    replica set and nothing else; the file's descriptor then lists every
    chunk in sequenceId order with exactly the nodes that answered with
    success, in the order asked; the descriptors of other files, the node
    pool and the local disk are unchanged. *)
Theorem upload_file_records_acks flt filepath p content :
  nodes (self p) ≠ [] ->
  -1 <= FilePartitioner.chunk_size (partitioner (self p)) ->
  readable flt filepath (local p) content ->
  exists chunks p' Ts entries,
    FilePartitioner.partition_file flt (partitioner (self p)) filepath
      (local p) = (Ok chunks, local p) /\
    upload_file flt filepath p = (Ok true, p') /\
    sent p' = sent p ++ concat Ts /\
    dict_get (basename filepath) (file_mapping (self p')) = Some entries /\
    Forall3 (chunk_stored (self p) (basename filepath)) chunks Ts entries /\
    (forall name, name ≠ basename filepath ->
       dict_get name (file_mapping (self p'))
         = dict_get name (file_mapping (self p))) /\
    same_client p p'.
Proof.
  intros Hn Hsize Hread.
  destruct (partition_file_returns flt _ _ _ _ Hsize Hread)
    as (chunks & Hchunks & Hpart).
  unfold upload_file. unfold_M.
  destruct (nodes (self p)) as [|n0 ns] eqn:Hnodes; [done|].
  unfold on_local. unfold_M. rewrite Hpart.
  set (p0 := set_self _ _).
  assert (Hp0 : same_client p p0 /\ sent p0 = sent p /\
                replication_factor (self p0) = replication_factor (self p) /\
                forall name, name ≠ basename filepath ->
                  dict_get name (file_mapping (self p0))
                    = dict_get name (file_mapping (self p))).
  { subst p0. destruct p as [[] ? ? ?]; cbn in *.
    split; [done|]. split; [done|]. split; [done|].
    intros name Hne. by apply dict_get_set_ne. }
  destruct Hp0 as ((Hr0 & Hpt0 & Hn0 & Hl0) & Hs0 & _ & Hother0).
  destruct (upload_chunks_trace (basename filepath) chunks 0 p0 [])
    as (p' & Ts & entries & Hloop & (Hr & Hpt & Hnd & Hl) & Hsent & Hcm
        & Hall & Hother).
  { by rewrite Hn0, Hnodes. }
  { subst p0. destruct p as [[] ? ? ?]; cbn. apply dict_get_set_eq. }
  { lia. }
  { by eapply partition_loop_ids_any. }
  { done. }
  exists chunks, p', Ts, entries. rewrite Hloop.
  split; [done|].
  split; [done|]. split; [by rewrite Hsent, Hs0|]. split; [done|].
  split.
  { eapply Forall3_impl; [exact Hall|].
    intros chunk T' entry. by apply chunk_stored_same_pool. }
  split.
  { intros name Hne. by rewrite Hother, Hother0. }
  unfold same_client. by rewrite Hr, Hpt, Hnd, Hl.
Qed.

(** The loop of [delete_file] over the node pool. *)
Lemma broadcast_delete filename (ns : list node) p :
  exists p' T,
    for_each ns (fun n => send_request n (DELETE filename);; mret tt) p
      = (Ok tt, p') /\
    self p' = self p /\ local p' = local p /\
    sent p' = sent p ++ T /\
    map fst T = map (fun n => (n, DELETE filename)) ns.
Proof.
  revert p. induction ns as [|n ns IH]; intros p.
  - exists p, []. by rewrite app_nil_r.
  - cbn [for_each]. unfold_M. unfold send_request.
    destruct (exchange n (DELETE filename) (world p)) as [resp w] eqn:Hex.
    edestruct IH as (p' & T & Hrun & Hself & Hlocal & Hsent & Hmap).
    exists p', ((n, DELETE filename, resp) :: T).
    unfold_M. rewrite Hrun. split; [done|].
    split; [by rewrite Hself|]. split; [by rewrite Hlocal|].
    split; [rewrite Hsent; cbn; by rewrite <- app_assoc|].
    cbn. by rewrite Hmap.
Qed.

Lemma delete_file_cases filename p :
  (dict_get filename (file_mapping (self p)) = None /\
   delete_file filename p = (Ok false, p)) \/
  (is_Some (dict_get filename (file_mapping (self p))) /\
   exists p' T,
     delete_file filename p = (Ok true, p') /\
     sent p' = sent p ++ T /\
     map fst T = map (fun n => (n, DELETE filename)) (nodes (self p)) /\
     file_mapping (self p') = dict_del filename (file_mapping (self p)) /\
     same_client p p').
Proof.
  unfold delete_file, dict_mem. unfold_M.
  destruct (dict_get filename (file_mapping (self p))) as [cm|] eqn:Hget;
    [right|by left].
  split; [by eexists|].
  destruct (broadcast_delete filename (nodes (self p)) p)
    as (p1 & T & Hrun & Hself & Hlocal & Hsent & Hmap).
  unfold_M. rewrite Hrun. eexists _, T. split; [done|].
  cbn. rewrite Hself. split; [done|]. split; [done|]. split; [done|].
  unfold same_client. cbn. by rewrite ?Hself, ?Hlocal.
Qed.

(** X14.  The client's [delete_file]: for a file without a descriptor it
    returns [False] and does nothing.  Otherwise it sends one DELETE to
    every registered node, in pool order, whether or not the node holds
    the file, ignores every answer, removes the descriptor and returns
    [True]; the node pool and the local disk are unchanged. *)
Theorem delete_file_broadcasts filename p :
  (dict_get filename (file_mapping (self p)) = None ->
   delete_file filename p = (Ok false, p)) /\
  (is_Some (dict_get filename (file_mapping (self p))) ->
   exists p' T,
     delete_file filename p = (Ok true, p') /\
     sent p' = sent p ++ T /\
     map fst T = map (fun n => (n, DELETE filename)) (nodes (self p)) /\
     file_mapping (self p') = dict_del filename (file_mapping (self p)) /\
     same_client p p').
Proof.
  destruct (delete_file_cases filename p) as [[Hnone Hrun]|[Hsome Hrun]].
  - split; [done|]. rewrite Hnone. by intros [? [=]].
  - split; [|done]. destruct Hsome as [cm Hcm]. by rewrite Hcm.
Qed.

(** X15.  A deleted file cannot be downloaded: after [delete_file], on a
    descriptor table without repeated names, [download_file] of that name
    returns [False] without contacting a node or touching the disk. *)
Theorem delete_then_download flt filename out p r p' :
  NoDup (dict_keys (file_mapping (self p))) ->
  delete_file filename p = (r, p') ->
  download_file flt filename out p' = (Ok false, p').
Proof.
  intros Hnd Hdel.
  assert (Hgone : dict_get filename (file_mapping (self p')) = None).
  { destruct (delete_file_cases filename p)
      as [[Hnone Hrun]|[_ (p1 & T & Hrun & _ & _ & Hfm & _)]];
      rewrite Hrun in Hdel; injection Hdel as <- <-; [done|].
    rewrite Hfm. by apply dict_get_del_eq. }
  unfold download_file. unfold_M. by rewrite Hgone.
Qed.

Lemma reassemble_file_Ok flt self0 chunks out d d' :
  FilePartitioner.reassemble_file flt self0 chunks out d = (Ok tt, d') ->
  d' = set_files (<[out := concat (map snd (sorted fst chunks))]> (files d)) d.
Proof.
  rewrite reassemble_file_eq. unfold_M. unfold fs_open_wb.
  destruct (flt (OpOpenW out)); [done|]. case_bool_decide; [done|].
  intros Hloop.
  destruct (write_all_prefix _ _ _ [] _ _ _ (lookup_insert_eq _ _ _) Hloop)
    as (pre & -> & _ & Hfull).
  rewrite Hfull by done. cbn [files set_files app].
  by rewrite insert_insert_eq, set_files_set_files.
Qed.

(** Chunks collected in ascending sequenceId order are already sorted. *)
Lemma zip_Sorted (ids : list Z) (datas : list bytes) :
  Sorted (key_le id) ids -> Sorted (key_le fst) (zip ids datas).
Proof.
  intros Hs. revert datas.
  induction Hs as [|i ids Hs IH Hhd]; intros [|data datas]; simpl;
    try constructor.
  - apply IH.
  - destruct Hhd as [|j ids Hij]; [constructor|].
    destruct datas; constructor. done.
Qed.

(** X16.  A download that returns [True] wrote verified data: the output
    file holds the concatenation, in ascending sequenceId order, of one
    payload per chunk, each taken from an answer that passed digest
    verification; nothing else on the local disk changed and the client
    object is as before. *)
Theorem download_file_writes_verified flt filename out p p' cm :
  download_file flt filename out p = (Ok true, p') ->
  dict_get filename (file_mapping (self p)) = Some cm ->
  exists Ts datas,
    sent p' = sent p ++ concat Ts /\
    Forall3 (chunk_scanned (self p) filename cm)
      (sorted id (dict_keys cm)) Ts datas /\
    local p' =
      set_files (<[out := concat datas]> (files (local p))) (local p) /\
    self p' = self p.
Proof.
  unfold download_file. unfold_M. intros Hrun Hcm. rewrite Hcm in Hrun.
  destruct (retrieve_all filename cm _ [] p) as [[[chunks|]|e] p1]
    eqn:Hall; [|done..].
  apply retrieve_all_scans in Hall
    as (Hs & Hl & Ts & Hts & datas & -> & Hscans).
  revert Hrun. unfold on_local. unfold_M.
  destruct (FilePartitioner.reassemble_file _ _ _ _ _)
    as [[[]|e] d] eqn:Hre; [|done].
  intros [= <-]. exists Ts, datas. split; [done|]. split; [done|].
  split; [|by rewrite <- Hs]. cbn [local set_local].
  apply reassemble_file_Ok in Hre. rewrite Hre, Hl. cbn [app].
  assert (Hlen : length datas = length (sorted id (dict_keys cm))).
  { clear -Hscans. induction Hscans; simpl; congruence. }
  rewrite (sorted_of_Sorted fst)
    by (apply zip_Sorted, sorted_Sorted).
  change (map snd ?l) with (l.*2). by rewrite snd_zip by lia.
Qed.

(** X17.  Registering a node does not re-route an identifier that is
    already registered: [find_node] keeps answering with the node that was
    registered first; a new identifier resolves to the new node. *)
Theorem add_node_find_node c nid host0 port0 x :
  find_node (add_node nid host0 port0 c) x =
    match find_node c x with
    | Some n => Some n
    | None => if nid =? x then Some (Node nid host0 port0) else None
    end.
Proof.
  unfold find_node, add_node. cbn [nodes set_nodes].
  induction (nodes c) as [|n ns IH]; simpl; [done|].
  by destruct (node_id n =? x).
Qed.

(** X18.  The empty file: with a chunk size that [f.read] accepts as a
    read length (-1 or more), uploading a readable empty file sends no
    request and records a descriptor without chunks; downloading it again
    sends no request either, returns [True] and creates an empty output
    file. *)
Theorem empty_file_roundtrip flt filepath out p :
  nodes (self p) ≠ [] ->
  -1 <= FilePartitioner.chunk_size (partitioner (self p)) ->
  readable flt filepath (local p) [] ->
  writable flt out (local p) ->
  exists p1 p2,
    upload_file flt filepath p = (Ok true, p1) /\
    dict_get (basename filepath) (file_mapping (self p1)) = Some [] /\
    download_file flt (basename filepath) out p1 = (Ok true, p2) /\
    sent p2 = sent p /\
    files (local p2) !! out = Some [].
Proof.
  intros Hn Hsize Hread Hw.
  eexists _, _. unfold upload_file. unfold_M.
  destruct (nodes (self p)) as [|n0 ns] eqn:Hnodes; [done|].
  unfold on_local. unfold_M.
  rewrite (partition_file_readable _ _ _ _ _ Hread),
    partition_loop_nil by done.
  cbn [for_each]. unfold_M. split; [reflexivity|].
  cbn [self set_self file_mapping set_file_mapping].
  split; [apply dict_get_set_eq|].
  unfold download_file. unfold_M.
  cbn [self set_self file_mapping set_file_mapping].
  rewrite dict_get_set_eq. cbn [dict_keys map sorted foldr retrieve_all].
  unfold_M. unfold on_local. unfold_M. cbn [local set_local].
  rewrite set_local_local.
  rewrite reassemble_file_ok by (by destruct p).
  split; [reflexivity|]. cbn. split; [by destruct p|].
  apply lookup_insert_eq.
Qed.

(** X19.  Placement at the bounds.  With a replication factor of zero or
    less a chunk gets no replica at all.  With a replication factor of at
    least the number of registered nodes it gets every node exactly once:
    the pool rotated to start at index [sequenceId mod N]. *)
Theorem target_nodes_at_bounds c chunk_id p :
  (replication_factor c <= 0 -> target_nodes c chunk_id p = (Ok [], p)) /\
  (nodes c ≠ [] ->
   Z.of_nat (length (nodes c)) <= replication_factor c ->
   target_nodes c chunk_id p =
     (Ok (rotate (Z.to_nat (chunk_id mod Z.of_nat (length (nodes c))))
                 (nodes c)), p)).
Proof.
  split.
  - intros HR. unfold target_nodes. by rewrite seqZ_nil by lia.
  - intros Hne HN.
    destruct (target_nodes_ok c chunk_id p) as (targets & Hrun & Hall);
      [by left|].
    rewrite Z.min_r in Hall by done. rewrite Hrun. do 2 f_equal.
    assert (Hlen : length targets = length (nodes c)).
    { rewrite <- (Forall2_length _ _ _ Hall), length_seqZ. lia. }
    assert (HN0 : 0 < Z.of_nat (length (nodes c))).
    { destruct (nodes c); [done|simpl; lia]. }
    apply list_eq. intros i.
    destruct (decide (i < length (nodes c))%nat) as [Hi|Hi].
    + rewrite lookup_rotate_r by done.
      destruct (lookup_lt_is_Some_2 targets i) as [n Hn]; [lia|].
      destruct (Forall2_lookup_r _ _ _ _ _ Hall Hn) as (j & Hj & Hslot).
      apply lookup_seqZ in Hj as [-> _]. rewrite Hn, <- Hslot.
      f_equal. unfold replica_slot, rotate_nat_add.
      rewrite Z2Nat.id by (apply Z.mod_pos_bound; lia).
      by rewrite Zplus_mod_idemp_l.
    + rewrite !lookup_ge_None_2; [done|rewrite length_rotate; lia|lia].
Qed.
End ClientMore.

Lemma upload_file_unreadable_witness :
  exists e,
    DistributedStorageClient.upload_file
      (H := unreachable) (H0 := length_digest) no_faults "missing" uploader
      = (Raise e, uploader).
Proof.
  destruct (upload_file_unreadable (H := unreachable) (H0 := length_digest)
              no_faults "missing" uploader ltac:(discriminate)
              (or_intror eq_refl)) as (e & Hrun & _).
  exists e. exact Hrun.
Defined.

Lemma upload_file_records_acks_witness :
  exists p' Ts entries,
    DistributedStorageClient.upload_file
      (H := only_node_1) (H0 := length_digest) no_faults "f" uploader
      = (Ok true, p') /\
    DistributedStorageClient.sent p' = concat Ts /\
    dict_get "f" (DistributedStorageClient.file_mapping
                    (DistributedStorageClient.self p')) = Some entries.
Proof.
  destruct (upload_file_records_acks (H := only_node_1)
              (H0 := length_digest) no_faults "f" uploader
              (bytes_of "ABCDEFGHI") ltac:(discriminate) ltac:(simpl; lia)
              sample_readable)
    as (chunks & p' & Ts & entries & _ & Hrun & Hsent & Hget & _).
  exists p', Ts, entries. split; [exact Hrun|]. split; [exact Hsent|exact Hget].
Defined.

(** With only node 1 acknowledging, chunks 0 and 1 are recorded on node 1
    and chunk 2, whose replicas are nodes 2 and 0, on no node. *)
Example upload_records_only_acknowledging_nodes :
  DistributedStorageClient.file_mapping
    (DistributedStorageClient.self (snd partly_acknowledged_upload)) =
    [("f", [(0, [1]); (1, [1]); (2, [])])] /\
  map (fun e => node_id (fst (fst e)))
      (DistributedStorageClient.sent (snd partly_acknowledged_upload)) =
    [0; 1; 1; 2; 2; 0].
Proof. vm_compute. split; reflexivity. Qed.

Lemma delete_file_broadcasts_witness :
  exists p' T,
    DistributedStorageClient.delete_file (H := flaky) "f" (downloader [0; 1])
      = (Ok true, p') /\
    DistributedStorageClient.sent p' = T /\
    map fst T =
      map (fun n => (n, DELETE "f"))
          (DistributedStorageClient.nodes three_nodes).
Proof.
  destruct (proj2 (delete_file_broadcasts (H := flaky) "f"
                     (downloader [0; 1]))
              (ex_intro _ [(0, [0; 1])] eq_refl))
    as (p' & T & Hrun & Hsent & Hmap & _).
  exists p', T. split; [exact Hrun|]. split; [exact Hsent|exact Hmap].
Defined.

Lemma delete_then_download_witness :
  DistributedStorageClient.download_file
    (H := flaky) (H0 := length_digest) no_faults "f" "out" (snd client_delete)
    = (Ok false, snd client_delete).
Proof.
  apply (delete_then_download (H := flaky) (H0 := length_digest)
           no_faults "f" "out" (downloader [0; 1]) (fst client_delete)).
  - apply NoDup_singleton.
  - apply surjective_pairing.
Defined.

Lemma download_file_writes_verified_witness :
  exists Ts datas,
    DistributedStorageClient.sent (snd fallback_download) = concat Ts /\
    DistributedStorageClient.local (snd fallback_download) =
      set_files (<["out" := concat datas]> ∅) empty_disk.
Proof.
  destruct (download_file_writes_verified (H := flaky) (H0 := length_digest)
              no_faults "f" "out" (downloader [0; 1; 2])
              (snd fallback_download) [(0, [0; 1; 2])]
              fallback_download_succeeds eq_refl)
    as (Ts & datas & Hsent & _ & Hlocal & _).
  exists Ts, datas. split; [exact Hsent|exact Hlocal].
Defined.

Lemma empty_file_roundtrip_witness :
  exists p1 p2,
    DistributedStorageClient.upload_file
      (H := unreachable) (H0 := length_digest) no_faults "e" empty_uploader
      = (Ok true, p1) /\
    DistributedStorageClient.download_file
      (H := unreachable) (H0 := length_digest) no_faults "e" "out" p1
      = (Ok true, p2) /\
    files (DistributedStorageClient.local p2) !! "out" = Some [].
Proof.
  destruct (empty_file_roundtrip (H := unreachable) (H0 := length_digest)
              no_faults "e" "out" empty_uploader ltac:(discriminate)
              ltac:(simpl; lia)
              (conj eq_refl eq_refl) (sample_writable empty_file_disk eq_refl))
    as (p1 & p2 & Hup & _ & Hdown & _ & Hout).
  exists p1, p2. split; [exact Hup|]. split; [exact Hdown|exact Hout].
Defined.

Lemma target_nodes_at_bounds_witness :
  DistributedStorageClient.target_nodes five_replicas 1 uploader =
    (Ok [Node 1 "localhost" 9001; Node 2 "localhost" 9002;
         Node 0 "localhost" 9000], uploader).
Proof.
  apply (proj2 (target_nodes_at_bounds (World := unit) five_replicas 1
                  uploader)).
  - discriminate.
  - simpl. lia.
Defined.


(** ** End to end: upload and download against healthy storage nodes *)

Section ClusterFacts.
Context `{Transport}.
Import StorageNode.

Lemma chunk_path_ne_dir s filename i :
  chunk_path_of s filename i ≠ file_dir_of s filename.
Proof.
  rewrite chunk_path_of_eq. intros Hp.
  apply (f_equal String.length) in Hp.
  rewrite !string_length_app in Hp. simpl in Hp. lia.
Qed.

(** A store on a node whose disk is clean for the file and healthy. *)
Lemma store_chunk_on_clean filename chunk_id data h s :
  node_clean filename s ->
  exists s',
    store_chunk no_faults filename chunk_id data h s =
      (Ok (StoreOk ("Chunk " +:+ pretty chunk_id +:+ " stored") (node_id s)),
       s') /\
    host s' = host s /\ port s' = port s /\
    storage_dir s' = storage_dir s /\ node_id s' = node_id s /\
    node_clean filename s' /\
    node_holds filename chunk_id data h s' /\
    (forall i data' h', i ≠ chunk_id ->
       node_holds filename i data' h' s -> node_holds filename i data' h' s').
Proof.
  intros [Hdir Hpaths].
  rewrite store_chunk_eq.
  assert (Hdisk : store_on_disk no_faults (file_dir_of s filename)
            (chunk_path_of s filename chunk_id) data (fs s) =
          (Ok tt, Disk (<[chunk_path_of s filename chunk_id := data]>
                          (files (fs s)))
                       ({[file_dir_of s filename]} ∪ dirs (fs s)))).
  { apply store_on_disk_ok. split_and!; try done.
    intros [Hin|Hin]%elem_of_union.
    - apply elem_of_singleton in Hin. by apply chunk_path_ne_dir in Hin.
    - by apply Hpaths in Hin. }
  rewrite Hdisk. eexists. split; [done|].
  set (d' := Disk _ _).
  set (md' := store_in_index _ _ _ _).
  assert (Hpath : forall i,
            chunk_path_of (set_metadata md' (set_fs d' s)) filename i =
            chunk_path_of s filename i) by (intros; by destruct s).
  assert (Hfd : file_dir_of (set_metadata md' (set_fs d' s)) filename =
                file_dir_of s filename) by (by destruct s).
  assert (Hfs : fs (set_metadata md' (set_fs d' s)) = d') by (by destruct s).
  assert (Hmd : metadata (set_metadata md' (set_fs d' s)) = md')
    by (by destruct s).
  split; [by destruct s|]. split; [by destruct s|].
  split; [by destruct s|]. split; [by destruct s|].
  unfold node_clean, node_holds. rewrite Hfd, Hfs, Hmd.
  setoid_rewrite Hpath. subst d' md'. cbn [files dirs].
  split; [|split].
  - split.
    + rewrite lookup_insert_ne; [done|]. apply chunk_path_ne_dir.
    + intros i [Hin|Hin]%elem_of_union.
      * apply elem_of_singleton in Hin. by apply chunk_path_ne_dir in Hin.
      * by apply Hpaths in Hin.
  - split; [apply index_entry_store|apply lookup_insert_eq].
  - intros i data' h' Hne [Hidx Hfile]. split.
    + by rewrite index_entry_store_ne.
    + rewrite lookup_insert_ne; [done|]. intros Hp.
      apply chunk_path_of_inj in Hp. congruence.
Qed.

(** A read from a healthy node that has the chunk. *)
Lemma retrieve_chunk_held filename chunk_id data h s :
  node_holds filename chunk_id data h s ->
  retrieve_chunk no_faults filename chunk_id s =
    (Ok (RetrieveOk data h (node_id s)), s).
Proof.
  intros [Hidx Hfile]. revert Hidx.
  unfold retrieve_chunk, index_entry, on_disk, error_response. unfold_M.
  destruct (dict_get filename (metadata s)) as [entries|]; [|done]. simpl.
  intros ->. unfold fs_open_rb. cbn. rewrite Hfile. by rewrite set_fs_fs.
Qed.

Lemma server_index_lookup n (w : list t) i :
  server_index n w = Some i -> is_Some (w !! i).
Proof.
  revert i. induction w as [|nd w IH]; intros i; simpl; [done|].
  case_bool_decide; [intros [= <-]; by eexists|].
  destruct (server_index n w) as [j|]; [|done]. simpl.
  intros [= <-]. by apply IH.
Qed.

(** A node that keeps its address keeps its place. *)
Lemma server_index_insert n (w : list t) i s s' :
  w !! i = Some s -> host s' = host s -> port s' = port s ->
  server_index n (<[i := s']> w) = server_index n w.
Proof.
  revert i. induction w as [|nd w IH]; intros i; [done|].
  destruct i as [|i].
  - simpl. intros [= ->] -> ->. done.
  - intros Hi Hh Hp.
    change (<[S i:=s']> (nd :: w)) with (nd :: <[i:=s']> w).
    cbn [server_index]. by rewrite (IH i).
Qed.

(** An exchange is a connection to the first node at the address. *)
Lemma serve_at flt n req (w : list t) i s :
  server_index n w = Some i -> w !! i = Some s ->
  serve flt n req w =
    (fst (connection flt req s), <[i := snd (connection flt req s)]> w).
Proof.
  revert i. induction w as [|nd w IH]; intros i; simpl; [done|].
  case_bool_decide.
  - intros [= <-] [= ->]. simpl.
    by destruct (connection flt req s) as [? ?].
  - destruct (server_index n w) as [j|] eqn:Hj; [|done]. simpl.
    intros [= <-] Hs. simpl in Hs. by rewrite (IH j).
Qed.

Lemma holds_insert filename chunk_id data h n (w : list t) i s s' :
  w !! i = Some s -> host s' = host s -> port s' = port s ->
  (node_holds filename chunk_id data h s ->
   node_holds filename chunk_id data h s') ->
  holds filename chunk_id data h n w ->
  holds filename chunk_id data h n (<[i := s']> w).
Proof.
  intros Hi Hh Hp Hkeep (t & Ht & Hholds). unfold holds, server_of in *.
  rewrite (server_index_insert n w i s s') by done.
  destruct (server_index n w) as [j|]; [|done]. simpl in *.
  destruct (decide (i = j)) as [->|Hne].
  - rewrite Hi in Ht. injection Ht as <-. exists s'.
    split; [|by apply Hkeep].
    apply list_lookup_insert_eq. by eapply lookup_lt_Some.
  - exists t. by rewrite list_lookup_insert_ne.
Qed.

(** A STORE sent to a healthy cluster that is clean for the file, over a
    connection that delivers it. *)
Lemma serve_store filename chunk_id data h n (w : list t) :
  full_buffers ->
  ends_short (request_size (STORE filename chunk_id data h)) ->
  Forall (node_clean filename) w ->
  is_Some (server_index n w) ->
  exists w' message nid,
    serve no_faults n (STORE filename chunk_id data h) w =
      (StoreOk message nid, w') /\
    Forall (node_clean filename) w' /\
    (forall n', server_index n' w' = server_index n' w) /\
    holds filename chunk_id data h n w' /\
    (forall n' i data' h',
       i ≠ chunk_id \/ (data' = data /\ h' = h) ->
       holds filename i data' h' n' w -> holds filename i data' h' n' w').
Proof.
  intros Hfull Hshort Hclean [i Hi].
  destruct (server_index_lookup _ _ _ Hi) as [s Hs].
  assert (Hc : node_clean filename s).
  { eapply (proj1 (Forall_forall _ _) Hclean), list_elem_of_lookup_2, Hs. }
  destruct (store_chunk_on_clean filename chunk_id data h s Hc)
    as (s' & Hrun & Hh & Hp & Hsd & Hnid & Hc' & Hholds & Hkeep).
  rewrite (serve_at _ _ _ _ _ _ Hi Hs).
  rewrite connection_delivered by done.
  unfold handle_client, try_except.
  rewrite Hrun. cbn [fst snd]. eexists _, _, _. split; [done|].
  split; [by apply Forall_insert|].
  split; [intros n'; by apply (server_index_insert n' w i s s')|].
  split.
  - exists s'. split; [|done]. unfold server_of.
    rewrite (server_index_insert n w i s s'), Hi by done. simpl.
    apply list_lookup_insert_eq. by eapply lookup_lt_Some.
  - intros n' j data' h' Hcase.
    apply (holds_insert _ _ _ _ _ _ _ s s'); try done.
    destruct Hcase as [Hne|[-> ->]]; [by apply Hkeep|].
    intros [Hidx Hfile].
    assert (j = chunk_id \/ j ≠ chunk_id) as [->|Hne]
      by (destruct (decide (j = chunk_id)); auto).
    + done.
    + by apply Hkeep.
Qed.

(** A RETRIEVE sent to a healthy cluster for a chunk that is held, over a
    connection that delivers it. *)
Lemma serve_retrieve filename chunk_id data h n (w : list t) :
  full_buffers ->
  ends_short (request_size (RETRIEVE filename chunk_id)) ->
  holds filename chunk_id data h n w ->
  exists nid,
    serve no_faults n (RETRIEVE filename chunk_id) w =
      (RetrieveOk data h nid, w).
Proof.
  intros Hfull Hshort (s & Hs & Hholds). unfold server_of in Hs.
  destruct (server_index n w) as [i|] eqn:Hi; [|done]. simpl in Hs.
  rewrite (serve_at _ _ _ _ _ _ Hi Hs).
  rewrite connection_delivered by done.
  unfold handle_client, try_except.
  rewrite (retrieve_chunk_held _ _ _ _ _ Hholds). cbn [fst snd].
  exists (node_id s). by rewrite list_insert_id.
Qed.
End ClusterFacts.

Section RoundTrip.
Context `{Sha256} `{Transport}.
#[local] Existing Instance healthy_cluster.
Hypothesis delivery : full_buffers.
Import DistributedStorageClient.
Implicit Types (p : process (World := cluster)).

Lemma exchange_healthy n req (w : list StorageNode.t) :
  exchange n req w = serve no_faults n req w.
Proof. reflexivity. Qed.

Lemma store_replicas_cluster filename chunk_id data h targets stored p :
  ends_short (request_size (STORE filename chunk_id data h)) ->
  Forall (node_clean filename) (world p) ->
  (forall n, n ∈ targets -> is_Some (server_index n (world p))) ->
  exists p',
    store_replicas filename chunk_id data h targets stored p =
      (Ok (stored ++ map node_id targets), p') /\
    self p' = self p /\ local p' = local p /\
    Forall (node_clean filename) (world p') /\
    (forall n', server_index n' (world p') = server_index n' (world p)) /\
    (forall n, n ∈ targets -> holds filename chunk_id data h n (world p')) /\
    (forall n' i data' h',
       i ≠ chunk_id \/ (data' = data /\ h' = h) ->
       holds filename i data' h' n' (world p) ->
       holds filename i data' h' n' (world p')).
Proof.
  intros Hshort. revert stored p. induction targets as [|n targets IH];
    intros stored p Hclean Hsrv.
  - exists p. rewrite app_nil_r. split_and!; try done.
    by intros ? ?%elem_of_nil.
  - cbn [store_replicas]. unfold_M. unfold send_request.
    rewrite exchange_healthy.
    destruct (serve_store filename chunk_id data h n (world p) delivery
                Hshort Hclean)
      as (w' & message & nid & Hserve & Hclean' & Hidx & Hn & Hkeep).
    { apply Hsrv, list_elem_of_here. }
    rewrite Hserve. cbn [status_success].
    set (p1 := Process _ _ _ _).
    destruct (IH (stored ++ [node_id n]) p1) as
      (p' & Hrun & Hself & Hlocal & Hclean'' & Hidx' & Hall & Hkeep').
    { done. }
    { intros n' Hn'. cbn. rewrite Hidx. by apply Hsrv, list_elem_of_further. }
    exists p'. rewrite Hrun. split.
    { by rewrite <- app_assoc. }
    split; [done|]. split; [done|]. split; [done|].
    split; [intros n'; by rewrite Hidx', <- Hidx|].
    split.
    + intros n' [->|Hin]%elem_of_cons; [|by apply Hall].
      apply Hkeep'; [by right|]. done.
    + intros n' i data' h' Hcase Hh. apply Hkeep'; [done|].
      by apply Hkeep.
Qed.

Lemma upload_chunk_cluster filename chunk_id data h p cm :
  ends_short (request_size (STORE filename chunk_id data h)) ->
  nodes (self p) ≠ [] ->
  1 <= replication_factor (self p) ->
  dict_get filename (file_mapping (self p)) = Some cm ->
  Forall (node_clean filename) (world p) ->
  (forall n, n ∈ nodes (self p) -> is_Some (server_index n (world p))) ->
  exists p' t0 targets,
    upload_chunk filename (chunk_id, data, h) p = (Ok tt, p') /\
    same_client p p' /\
    file_mapping (self p') =
      dict_set filename
        (dict_set chunk_id (map node_id (t0 :: targets)) cm)
        (file_mapping (self p)) /\
    Forall (node_clean filename) (world p') /\
    (forall n', server_index n' (world p') = server_index n' (world p)) /\
    (forall n, n ∈ t0 :: targets ->
       n ∈ nodes (self p) /\ holds filename chunk_id data h n (world p')) /\
    (forall n' i data' h',
       i ≠ chunk_id ->
       holds filename i data' h' n' (world p) ->
       holds filename i data' h' n' (world p')).
Proof.
  intros Hshort Hn HR Hcm Hclean Hsrv.
  destruct (target_nodes_ok (self p) chunk_id p) as (targets & Ht & Hall);
    [by left|].
  assert (Hin : forall n, n ∈ targets -> n ∈ nodes (self p)).
  { intros n Hn'. apply list_elem_of_lookup in Hn' as [i Hi].
    destruct (Forall2_lookup_r _ _ _ _ _ Hall Hi) as (j & _ & Hj).
    by eapply list_elem_of_lookup_2. }
  assert (Hne : exists t0 rest, targets = t0 :: rest).
  { destruct targets as [|t0 rest]; [|by eauto]. exfalso.
    apply Forall2_length in Hall. rewrite length_seqZ in Hall. simpl in Hall.
    assert (0 < Z.of_nat (length (nodes (self p)))).
    { destruct (nodes (self p)); [done|simpl; lia]. }
    lia. }
  destruct Hne as (t0 & rest & ->).
  destruct (store_replicas_cluster filename chunk_id data h (t0 :: rest) [] p
              Hshort Hclean) as (p1 & Hs & Hself & Hlocal & Hclean' & Hidx & Hholds
                          & Hkeep).
  { intros n Hn'. by apply Hsrv, Hin. }
  eexists _, t0, rest. unfold upload_chunk. unfold_M. rewrite Ht, Hs.
  unfold record_chunk. unfold_M. rewrite Hself, Hcm. cbn [app].
  split; [reflexivity|]. cbn.
  split; [unfold same_client; cbn; by rewrite Hlocal|].
  split; [done|]. split; [done|]. split; [done|].
  split.
  - intros n Hn'. split; [by apply Hin|by apply Hholds].
  - intros n' i data' h' Hne. apply Hkeep. by left.
Qed.

Lemma replicated_same_pool c c' filename w chunk entry :
  nodes c' = nodes c ->
  replicated c' filename w chunk entry -> replicated c filename w chunk entry.
Proof.
  intros Hn. destruct chunk as [[cid data] h]. unfold replicated.
  by rewrite Hn.
Qed.

Lemma upload_chunks_cluster filename chunks k p cm :
  Forall (chunk_deliverable filename) chunks ->
  nodes (self p) ≠ [] ->
  1 <= replication_factor (self p) ->
  dict_get filename (file_mapping (self p)) = Some cm ->
  Forall (node_clean filename) (world p) ->
  (forall n, n ∈ nodes (self p) -> is_Some (server_index n (world p))) ->
  0 <= k ->
  map (fun c => fst (fst c)) chunks = seqZ k (Z.of_nat (length chunks)) ->
  dict_keys cm = seqZ 0 k ->
  exists p' entries,
    for_each chunks (upload_chunk filename) p = (Ok tt, p') /\
    same_client p p' /\
    dict_get filename (file_mapping (self p')) = Some (cm ++ entries) /\
    map fst entries = map (fun c => fst (fst c)) chunks /\
    Forall2 (replicated (self p) filename (world p')) chunks entries /\
    (forall n' i data' h',
       i < k ->
       holds filename i data' h' n' (world p) ->
       holds filename i data' h' n' (world p')).
Proof.
  intros Hdel. revert k p cm.
  induction chunks as [|[[cid data] h] chunks IH];
    intros k p cm Hn HR Hcm Hclean Hsrv Hk Hids Hkeys.
  - exists p, []. rewrite app_nil_r. split_and!; try done.
  - cbn [for_each]. apply Forall_cons in Hdel as [[Hstore _] Hdel].
    destruct (upload_chunk_cluster filename cid data h p cm Hstore Hn HR Hcm
                Hclean Hsrv)
      as (p1 & t0 & targets & Hrun & (Hr & Hp & Hnodes & Hl) & Hfm1 & Hclean1
          & Hidx1 & Hholds1 & Hkeep1).
    unfold mbind, M_bind, bind. rewrite Hrun.
    cbn [map length fst] in Hids.
    rewrite Nat2Z.inj_succ, seqZ_cons in Hids by lia.
    injection Hids as -> Hids.
    replace (Z.pred (Z.succ (Z.of_nat (length chunks))))
      with (Z.of_nat (length chunks)) in Hids by lia.
    assert (Hfresh : dict_get k cm = None).
    { destruct (dict_get k cm) as [v|] eqn:Hg; [|done]. exfalso.
      assert (Hin : k ∈ dict_keys cm) by (apply dict_get_keys; by eexists).
      rewrite Hkeys in Hin. apply elem_of_seqZ in Hin. lia. }
    rewrite (dict_set_fresh k) in Hfm1 by done.
    destruct (IH Hdel (Z.succ k) p1
                (cm ++ [(k, map node_id (t0 :: targets))]))
      as (p' & entries & Hloop & (Hr' & Hp' & Hnodes' & Hl') & Hcm' & Hfst
          & Hall & Hkeep'); try done.
    { by rewrite Hnodes. }
    { by rewrite Hr. }
    { rewrite Hfm1. apply dict_get_set_eq. }
    { intros n Hn'. rewrite Hidx1. apply Hsrv. by rewrite <- Hnodes. }
    { lia. }
    { unfold dict_keys in *. rewrite map_app, Hkeys. simpl.
      replace (Z.succ k) with (k + 1) by lia.
      by rewrite (seqZ_app 0 k 1) by lia. }
    exists p', ((k, map node_id (t0 :: targets)) :: entries).
    split; [done|].
    split; [unfold same_client; by rewrite Hr', Hp', Hnodes', Hl'|].
    split; [rewrite Hcm'; by rewrite <- app_assoc|].
    split; [simpl; by rewrite Hfst, Hids|].
    split.
    + constructor.
      * exists t0, targets. split; [done|]. intros n Hn'.
        destruct (Hholds1 n Hn') as [Hin Hh]. split; [done|].
        apply Hkeep'; [lia|done].
      * eapply Forall2_impl; [exact Hall|].
        intros chunk entry. by apply replicated_same_pool.
    + intros n' i data' h' Hi Hh. apply Hkeep'; [lia|].
      apply Hkeep1; [lia|done].
Qed.

Lemma find_node_registered (c : t) n :
  NoDup (map node_id (nodes c)) -> n ∈ nodes c ->
  find_node c (node_id n) = Some n.
Proof.
  unfold find_node. induction (nodes c) as [|m l IH]; simpl.
  - by intros _ ?%elem_of_nil.
  - intros [Hm Hl]%NoDup_cons [->|Hin]%elem_of_cons.
    + by rewrite Z.eqb_refl.
    + destruct (node_id m =? node_id n) eqn:Heq; [|by apply IH].
      apply Z.eqb_eq in Heq. exfalso. apply Hm. rewrite Heq.
      by apply list_elem_of_fmap_2.
Qed.

Lemma dict_get_NoDup {V} (k : Z) (v : V) (d : dict Z V) :
  NoDup (dict_keys d) -> (k, v) ∈ d -> dict_get k d = Some v.
Proof.
  unfold dict_keys. induction d as [|[k' v'] d IH]; simpl.
  - by intros _ ?%elem_of_nil.
  - intros [Hk Hd]%NoDup_cons [[= -> ->]|Hin]%elem_of_cons.
    + by rewrite decide_True.
    + rewrite decide_False; [by apply IH|].
      intros ->. apply Hk.
      by apply (list_elem_of_fmap_2 fst _ (k, v)).
Qed.

(** The first recorded node answers with the chunk: no fallback is
    needed and the nodes are left as they were. *)
Lemma retrieve_chunk_first filename chunk_id data h t0 rest p :
  ends_short (request_size (RETRIEVE filename chunk_id)) ->
  NoDup (map node_id (nodes (self p))) ->
  t0 ∈ nodes (self p) ->
  holds filename chunk_id data h t0 (world p) ->
  FilePartitioner.verify_chunk (partitioner (self p)) data h = true ->
  exists p',
    retrieve_chunk filename chunk_id (node_id t0 :: rest) p =
      (Ok (Some data), p') /\
    self p' = self p /\ local p' = local p /\ world p' = world p.
Proof.
  intros Hshort Hnd Hin Hh Hv. cbn [retrieve_chunk]. unfold_M.
  rewrite find_node_registered by done.
  unfold send_request. rewrite exchange_healthy.
  destruct (serve_retrieve _ _ _ _ _ _ delivery Hshort Hh) as [nid ->].
  rewrite Hv. by eexists.
Qed.

Lemma retrieve_all_cluster filename cm chunks entries acc p :
  Forall (chunk_deliverable filename) chunks ->
  NoDup (map node_id (nodes (self p))) ->
  Forall2 (replicated (self p) filename (world p)) chunks entries ->
  (forall e, e ∈ entries -> dict_get (fst e) cm = Some (snd e)) ->
  Forall (fun c => FilePartitioner.verify_chunk (partitioner (self p))
                     (snd (fst c)) (snd c) = true) chunks ->
  exists p',
    retrieve_all filename cm (map fst entries) acc p =
      (Ok (Some (acc ++ map id_payload chunks)), p') /\
    self p' = self p /\ local p' = local p /\ world p' = world p.
Proof.
  intros Hdel. revert entries acc p.
  induction chunks as [|[[cid data] h] chunks IH];
    intros entries acc p Hnd Hall Hcm Hv.
  - apply Forall2_nil_inv_l in Hall as ->. exists p.
    by rewrite app_nil_r.
  - apply Forall_cons in Hdel as [[_ Hretr] Hdel].
    apply Forall2_cons_inv_l in Hall
      as (entry & entries' & Hrep & Hall & ->).
    destruct Hrep as (t0 & targets & -> & Hholds).
    apply Forall_cons in Hv as [Hv0 Hv].
    cbn [map fst retrieve_all].
    rewrite (Hcm (cid, _)) by apply list_elem_of_here. cbn [snd].
    unfold mbind, M_bind, bind.
    destruct (Hholds t0) as [Hin Hh]; [apply list_elem_of_here|].
    destruct (retrieve_chunk_first filename cid data h t0
                (map node_id targets) p Hretr Hnd Hin Hh Hv0)
      as (p1 & Hrun & Hself & Hlocal & Hworld).
    cbn [map] in Hrun |- *. rewrite Hrun.
    destruct (IH Hdel entries' (acc ++ [(cid, data)]) p1)
      as (p' & Hrest & Hself' & Hlocal' & Hworld').
    + by rewrite Hself.
    + by rewrite Hself, Hworld.
    + intros e He. by apply Hcm, list_elem_of_further.
    + by rewrite Hself.
    + exists p'. rewrite Hrest. cbn [map id_payload].
      rewrite <- app_assoc. split; [done|].
      split; [by rewrite Hself', Hself|].
      split; [by rewrite Hlocal', Hlocal|]. by rewrite Hworld', Hworld.
Qed.

Lemma seqZ_Sorted k n : Sorted (key_le id) (seqZ k n).
Proof.
  destruct (decide (0 <= n)) as [Hn|Hn];
    [|rewrite seqZ_nil by lia; constructor].
  revert k. pattern n. apply natlike_ind; [..|done].
  - intros k. rewrite seqZ_nil by lia. constructor.
  - intros m Hm IH k. rewrite seqZ_cons by lia.
    replace (Z.pred (Z.succ m)) with m by lia.
    constructor; [apply IH|].
    destruct (decide (0 < m)) as [Hpos|Hz].
    + rewrite (seqZ_cons (Z.succ k)) by lia. constructor.
      unfold key_le. simpl. lia.
    + rewrite seqZ_nil by lia. constructor.
Qed.

Lemma ids_Sorted (l : list (Z * bytes)) k :
  map fst l = seqZ k (Z.of_nat (length l)) -> Sorted (key_le fst) l.
Proof.
  revert k. induction l as [|[i d] l IH]; intros k; [constructor|].
  cbn [map length fst]. rewrite Nat2Z.inj_succ, seqZ_cons by lia.
  replace (Z.pred (Z.succ (Z.of_nat (length l))))
    with (Z.of_nat (length l)) by lia.
  intros [= -> Hl]. constructor; [by eapply IH|].
  destruct l as [|[j d'] l]; [constructor|].
  cbn [map length fst] in Hl.
  rewrite Nat2Z.inj_succ, seqZ_cons in Hl by lia.
  injection Hl as -> _. constructor. unfold key_le. simpl. lia.
Qed.

(** What a download collects from the chunks of [partition_file] is
    already in writing order, and its payloads spell the file. *)
Lemma partition_loop_reassembles size content chunks :
  0 < size ->
  FilePartitioner.partition_loop size content 0 = Ok chunks ->
  concat (map snd (sorted fst (map id_payload chunks))) = content.
Proof.
  intros Hs Hrun.
  assert (Hids := partition_loop_ids size content 0 chunks Hs Hrun).
  rewrite sorted_of_Sorted.
  - rewrite map_map. by eapply partition_loop_concat.
  - apply (ids_Sorted _ 0). by rewrite map_map, length_map.
Qed.

(** X20.  Upload then download on healthy nodes gives the file back.
    The client has a positive chunk size, a replication factor of at
    least 1 and a non-empty pool of nodes with distinct ids; a storage
    node with a healthy disk listens at every registered address, and
    nothing on those disks is in the way of the file's chunk directory;
    every [recv] finds a full buffer, and neither the STORE nor the
    RETRIEVE request of any chunk of the file has a pickle that ends on a
    4096-byte boundary.  Then [upload_file] of a readable file returns
    [True], a following [download_file] of its basename returns [True],
    and the output file holds exactly the bytes of the uploaded file. *)
Theorem upload_download_roundtrip flt filepath out p content chunks :
  0 < FilePartitioner.chunk_size (partitioner (self p)) ->
  1 <= replication_factor (self p) ->
  nodes (self p) ≠ [] ->
  NoDup (map node_id (nodes (self p))) ->
  (forall n, n ∈ nodes (self p) -> is_Some (server_index n (world p))) ->
  Forall (node_clean (basename filepath)) (world p) ->
  readable flt filepath (local p) content ->
  writable flt out (local p) ->
  FilePartitioner.partition_file flt (partitioner (self p)) filepath
    (local p) = (Ok chunks, local p) ->
  Forall (chunk_deliverable (basename filepath)) chunks ->
  exists p1 p2,
    upload_file flt filepath p = (Ok true, p1) /\
    download_file flt (basename filepath) out p1 = (Ok true, p2) /\
    files (local p2) !! out = Some content.
Proof.
  intros Hsize HR Hn Hnd Hsrv Hclean Hread Hw Hpart Hdel.
  assert (Hchunks : FilePartitioner.partition_loop
            (FilePartitioner.chunk_size (partitioner (self p))) content 0
            = Ok chunks).
  { rewrite (partition_file_readable _ _ _ _ _ Hread) in Hpart.
    by injection Hpart. }
  unfold upload_file. unfold_M.
  destruct (nodes (self p)) as [|n0 ns] eqn:Hnodes; [done|].
  unfold on_local. unfold_M. rewrite Hpart.
  set (p0 := set_self _ _).
  assert (Hp0 : same_client p p0 /\ world p0 = world p /\
                dict_get (basename filepath) (file_mapping (self p0))
                  = Some []).
  { subst p0. destruct p as [[] ? ? ?]; cbn in *.
    split; [done|]. split; [done|]. apply dict_get_set_eq. }
  destruct Hp0 as ((Hr0 & Hpt0 & Hn0 & Hl0) & Hw0 & Hfm0).
  destruct (upload_chunks_cluster (basename filepath) chunks 0 p0 [])
    as (p1 & entries & Hloop & (Hr & Hpt & Hnd1 & Hl) & Hcm & Hfst & Hall
        & _).
  { done. }
  { by rewrite Hn0, Hnodes. }
  { by rewrite Hr0. }
  { done. }
  { by rewrite Hw0. }
  { intros n Hin. rewrite Hw0. apply Hsrv. by rewrite <- Hnodes, <- Hn0. }
  { lia. }
  { by eapply partition_loop_ids_any. }
  { done. }
  rewrite Hloop. exists p1.
  assert (Hkeys : map fst entries = seqZ 0 (Z.of_nat (length entries))).
  { rewrite Hfst.
    rewrite <- (length_map fst entries), Hfst, length_map.
    by eapply partition_loop_ids_any. }
  unfold download_file. unfold_M. rewrite Hcm. cbn [app].
  unfold dict_keys. rewrite Hkeys, (sorted_of_Sorted id)
    by apply seqZ_Sorted.
  rewrite <- Hkeys.
  destruct (retrieve_all_cluster (basename filepath) entries chunks entries
              [] p1)
    as (p2 & Hget & Hself2 & Hlocal2 & _).
  { done. }
  { by rewrite Hnd1, Hn0, Hnodes. }
  { eapply Forall2_impl; [exact Hall|].
    intros chunk entry. apply replicated_same_pool. by rewrite Hnd1. }
  { intros [k v] He. apply dict_get_NoDup; [|done].
    unfold dict_keys. rewrite Hkeys. apply NoDup_seqZ. }
  { by eapply partition_loop_verifies. }
  rewrite Hget. cbn [app]. unfold on_local. unfold_M.
  assert (Hw2 : writable flt out (local p2)).
  { by rewrite Hlocal2, Hl, Hl0. }
  rewrite reassemble_file_ok by done.
  eexists. split; [reflexivity|]. split; [reflexivity|].
  cbn [local set_local files set_files].
  rewrite (partition_loop_reassembles _ _ _ Hsize Hchunks).
  apply lookup_insert_eq.
Qed.
End RoundTrip.

Lemma three_servers_clean : Forall (node_clean "f") three_servers.
Proof.
  assert (Hclean : forall nid h0 p0 dir,
            node_clean "f"
              (StorageNode.Build nid h0 p0 dir [] (Disk ∅ {[dir]}))).
  { intros nid h0 p0 dir. split; [apply lookup_empty|].
    intros i Hin. cbn [StorageNode.fs dirs] in Hin.
    apply elem_of_singleton in Hin.
    apply (f_equal String.length) in Hin.
    rewrite chunk_path_of_eq in Hin. unfold StorageNode.file_dir_of in Hin.
    cbn [StorageNode.storage_dir] in Hin. unfold path_join in Hin.
    rewrite !string_length_app in Hin. simpl in Hin. lia. }
  unfold three_servers. repeat apply Forall_cons_2; try apply Hclean.
  apply Forall_nil_2.
Qed.

Lemma three_servers_listen n :
  n ∈ DistributedStorageClient.nodes three_nodes ->
  is_Some (server_index n three_servers).
Proof.
  intros Hin. cbn in Hin.
  repeat (apply elem_of_cons in Hin as [-> | Hin]); try by eexists.
  by apply elem_of_nil in Hin.
Qed.

Lemma three_nodes_distinct :
  NoDup (map node_id (DistributedStorageClient.nodes three_nodes)).
Proof.
  cbn. repeat (apply NoDup_cons; split; [set_solver|]). apply NoDup_nil_2.
Qed.

Lemma loopback_full_buffers : full_buffers (H := loopback).
Proof. intros n. simpl. lia. Qed.

Lemma sample_chunks_deliverable :
  Forall (chunk_deliverable (H := loopback) "f")
    [(0, bytes_of "ABCD", length_digest (bytes_of "ABCD"));
     (1, bytes_of "EFGH", length_digest (bytes_of "EFGH"));
     (2, bytes_of "I", length_digest (bytes_of "I"))].
Proof.
  repeat (apply Forall_cons_2;
          [split; (split; [reflexivity|by vm_compute])|]).
  apply Forall_nil_2.
Qed.

Lemma upload_download_roundtrip_witness :
  exists p1 p2,
    DistributedStorageClient.upload_file
      (H := healthy_cluster (H := loopback)) (H0 := length_digest)
      no_faults "f" cluster_uploader = (Ok true, p1) /\
    DistributedStorageClient.download_file
      (H := healthy_cluster (H := loopback)) (H0 := length_digest)
      no_faults "f" "out" p1 = (Ok true, p2) /\
    files (DistributedStorageClient.local p2) !! "out" =
      Some (bytes_of "ABCDEFGHI").
Proof.
  apply (upload_download_roundtrip (H := length_digest) (H0 := loopback)
           loopback_full_buffers no_faults "f" "out"
           cluster_uploader (bytes_of "ABCDEFGHI")
           [(0, bytes_of "ABCD", length_digest (bytes_of "ABCD"));
            (1, bytes_of "EFGH", length_digest (bytes_of "EFGH"));
            (2, bytes_of "I", length_digest (bytes_of "I"))]).
  - simpl. lia.
  - simpl. lia.
  - discriminate.
  - exact three_nodes_distinct.
  - exact three_servers_listen.
  - exact three_servers_clean.
  - exact sample_readable.
  - exact (sample_writable sample_disk eq_refl).
  - reflexivity.
  - exact sample_chunks_deliverable.
Defined.

(** The same run, evaluated: every chunk of ["f"] lands on two nodes,
    round-robin, and the download rebuilds the nine bytes. *)
Example cluster_roundtrip_run :
  fst cluster_upload = Ok true /\
  dict_get "f" (DistributedStorageClient.file_mapping
                  (DistributedStorageClient.self (snd cluster_upload))) =
    Some [(0, [0; 1]); (1, [1; 2]); (2, [2; 0])] /\
  fst cluster_download = Ok true /\
  files (DistributedStorageClient.local (snd cluster_download)) !! "out" =
    Some (bytes_of "ABCDEFGHI").
Proof. repeat split; vm_compute; reflexivity. Qed.
